(** * RecordingCutter: cutting and trimming rrweb recordings

    A shallow embedding of [RecordingCutter.js] (cutRecording,
    findEventsByContent, analyzeRecording, trimRecording and
    trimRecordingFallback) and the properties of its event-stream
    transformations.  The functions are embedded twice: on lists of
    events, where the properties of the logs they return are proved, and
    on a heap of objects and arrays with identity ([Module Heap]), where
    what they write is proved; the heap versions are proved to compute the
    versions on lists.  The time helpers of the module
    (timestampToRelativeTime, formatTime, parseTimeString) and the
    handlers of the player that call it ([App.js]: the search box, the
    cut form and the handles of the trimmer) are embedded on lists.

    Numbers.  A JavaScript number is modelled as an exact rational ([Q]);
    the rounding of doubles is not modelled.  Two helpers divide:
    [formatTime] is defined on the range where the floor of the code's
    rounded quotient is the floor of the exact one, and the properties
    that go through the quotient of [timestampToRelativeTime] state the
    bounds and the margins that cover its rounding.  The one place where
    the source can leave the finite numbers, the division by a zero
    [timeShift] of the fallback, is written out in [compressedTimestamp]:
    an [Infinity] is absorbed by the [Math.min] that follows it, and a
    timestamp that is not a finite number stops the model with
    [NotFinite].  Where a text is read as a number ([Number], [parseInt])
    [None] stands for a result that is not a finite number.

    Events.  An rrweb event is the record [{type, data, timestamp, tabId?}]
    of [types/rrweb.ts]; the payload [data] is a JSON-like [value].

    Environment.  [window.location.href], [JSON.stringify] and the replay
    of a recording up to a time followed by the DOM snapshot (rrweb's
    [Replayer] and rrweb-snapshot's [snapshot]) are parameters. *)

From Stdlib Require Import List Bool ZArith QArith Qabs Qminmax Qround Lqa Lia.
From Stdlib Require Import String Ascii Permutation Sorted.
From Stdlib Require Decimal DecimalString DecimalPos DecimalN DecimalZ.
Import ListNotations.

Local Open Scope string_scope.
Local Open Scope list_scope.
Local Open Scope Q_scope.
Local Set Warnings "-register-all".

(** ** JavaScript values used as event payloads *)

Inductive value : Type :=
| VUndefined
| VNull
| VBool (b : bool)
| VNum (q : Q)
| VStr (s : string)
| VArr (items : list value)
| VObj (props : list (string * value)).

(** ** Errors and results *)

Inductive error : Type :=
| InvalidEventsArray                 (* "Invalid events array provided" *)
| InvalidTimeRange (startMs endMs : Q) (* "Invalid time range: ..." *)
| NoFullSnapshot                     (* "No full snapshot found in recording" *)
| TooFewEvents (n : nat)             (* "Trimmed recording has only n events" *)
| TypeError (what : string)          (* property read on undefined or null *)
| ReplayError (what : string)        (* any failure of the replay and capture *)
| NotFinite.                         (* a NaN timestamp: outside the number model *)

Inductive result (A : Type) : Type :=
| Ok (a : A)
| Throw (e : error).

Arguments Ok {A} a.
Arguments Throw {A} e.

Definition bind {A B : Type} (m : result A) (k : A -> result B) : result B :=
  match m with
  | Ok a => k a
  | Throw e => Throw e
  end.

Notation "x <- m ;; k" := (bind m (fun x => k))
  (at level 100, m at next level, right associativity).

Fixpoint mapM {A B : Type} (f : A -> result B) (l : list A) : result (list B) :=
  match l with
  | [] => Ok []
  | a :: rest =>
      b <- f a ;;
      bs <- mapM f rest ;;
      Ok (b :: bs)
  end.

(** ** Number comparisons of the source, as boolean tests on [Q] *)

Definition num_eq (a b : Q) : bool := Qeq_bool a b.          (* a === b *)
Definition num_le (a b : Q) : bool := Qle_bool a b.          (* a <= b *)
Definition num_lt (a b : Q) : bool := negb (Qle_bool b a).   (* a < b *)

(** ** Events *)

Record event : Type := mkEvent {
  type : Z;
  data : value;
  timestamp : Q;
  tabId : option string
}.

(** [{...e, timestamp: t}] *)
Definition with_timestamp (e : event) (t : Q) : event :=
  mkEvent (type e) (data e) t (tabId e).

(** JavaScript truthiness ([if (v)], [v && ...], [v || ...]). *)
Definition truthy (v : value) : bool :=
  match v with
  | VUndefined | VNull => false
  | VBool b => b
  | VNum q => negb (num_eq q 0)
  | VStr s => negb (String.eqb s EmptyString)
  | VArr _ | VObj _ => true
  end.

Fixpoint lookup_prop (k : string) (props : list (string * value)) : value :=
  match props with
  | [] => VUndefined
  | (k', v) :: rest => if String.eqb k k' then v else lookup_prop k rest
  end.

(** [v.k]: a property read throws on [undefined] and [null], and yields
    [undefined] on a value without that property. *)
Definition get_prop (v : value) (k : string) : result value :=
  match v with
  | VUndefined | VNull => Throw (TypeError k)
  | VObj props => Ok (lookup_prop k props)
  | _ => Ok VUndefined
  end.

(** [v?.k] *)
Definition get_prop_opt (v : value) (k : string) : value :=
  match v with
  | VObj props => lookup_prop k props
  | _ => VUndefined
  end.

(** [v === 0] *)
Definition is_zero (v : value) : bool :=
  match v with
  | VNum q => num_eq q 0
  | _ => false
  end.

(** [a || b] *)
Definition js_or (a b : value) : value := if truthy a then a else b.

(** ** [Array.prototype.sort((a, b) => a.timestamp - b.timestamp)]

    The sort of the language is stable; on a comparator that is a total
    preorder every stable sort returns the same array, here computed by
    insertion. *)

Fixpoint insert_by_timestamp (x : event) (l : list event) : list event :=
  match l with
  | [] => [x]
  | y :: rest =>
      if num_le (timestamp x) (timestamp y) then x :: y :: rest
      else y :: insert_by_timestamp x rest
  end.

Fixpoint sort_by_timestamp (l : list event) : list event :=
  match l with
  | [] => []
  | x :: rest => insert_by_timestamp x (sort_by_timestamp rest)
  end.

(** ** Strings: [toLowerCase] and [includes]

    Strings are sequences of bytes; [toLowerCase] maps the ASCII capitals
    and leaves every other byte, the case mapping of other scripts is not
    modelled. *)

Definition lower_ascii (c : ascii) : ascii :=
  let n := nat_of_ascii c in
  if (65 <=? n)%nat && (n <=? 90)%nat then ascii_of_nat (n + 32) else c.

Fixpoint toLowerCase (s : string) : string :=
  match s with
  | EmptyString => EmptyString
  | String c rest => String (lower_ascii c) (toLowerCase rest)
  end.

(** [s.includes(t)]: [t] occurs in [s] at some position. *)
Fixpoint includes (s t : string) : bool :=
  String.prefix t s ||
  match s with
  | EmptyString => false
  | String _ rest => includes rest t
  end.

(** ** RecordingStats *)

Record RecordingStats : Type := mkStats {
  totalEvents : nat;
  duration : Q;
  startTime : Q;
  endTime : Q;
  eventTypeCounts : list (Z * nat);
  eventTypes : list (Z * string)
}.

(** [counts[t] = (counts[t] || 0) + 1] on an object keyed by event type. *)
Fixpoint bump (t : Z) (counts : list (Z * nat)) : list (Z * nat) :=
  match counts with
  | [] => [(t, 1%nat)]
  | (t', n) :: rest =>
      if (t =? t')%Z then (t', S n) :: rest else (t', n) :: bump t rest
  end.

Definition eventTypeNames : list (Z * string) :=
  [(1%Z, "DomContentLoaded"); (2%Z, "FullSnapshot");
   (3%Z, "IncrementalSnapshot"); (4%Z, "Meta"); (5%Z, "Custom");
   (6%Z, "Plugin")].

Definition analyzeRecording (events : list event) : option RecordingStats :=
  match events with
  | [] => None
  | first :: _ =>
      let firstTimestamp := timestamp first in
      let lastTimestamp := timestamp (last events first) in
      let duration := (lastTimestamp - firstTimestamp) / 1000 in
      let eventTypeCounts :=
        fold_left (fun counts e => bump (type e) counts) events [] in
      Some (mkStats (List.length events) duration firstTimestamp lastTimestamp
                    eventTypeCounts eventTypeNames)
  end.

(** ** The scan for the full snapshot closest to the cut start

    The loop state is the pair [fullSnapshot], [bestDistance]; [None] is
    the initial [null], [Infinity]. *)

Definition closest_step (cutStartTime : Q) (st : option (event * Q))
    (e : event) : option (event * Q) :=
  if (type e =? 2)%Z then
    let distance := Qabs (timestamp e - cutStartTime) in
    match st with
    | None => Some (e, distance)
    | Some (_, bestDistance) =>
        if num_lt distance bestDistance then Some (e, distance) else st
    end
  else st.

Definition closestFullSnapshot (events : list event) (cutStartTime : Q)
  : option (event * Q) :=
  fold_left (closest_step cutStartTime) events None.

(** ** The fallback trimmer's pieces *)

(** [fullSnapshots]: every type-2 event with its index. *)
Fixpoint fullSnapshotsFrom (i : nat) (events : list event)
  : list (event * nat) :=
  match events with
  | [] => []
  | e :: rest =>
      if (type e =? 2)%Z then (e, i) :: fullSnapshotsFrom (S i) rest
      else fullSnapshotsFrom (S i) rest
  end.

Definition threshold : Q := 30000.

(** First loop: the last snapshot within 30 seconds before [startMs]. *)
Definition within_threshold_step (startMs : Q) (st : option (event * nat))
    (si : event * nat) : option (event * nat) :=
  if num_le (timestamp (fst si)) startMs
     && num_le (startMs - threshold) (timestamp (fst si))
  then Some si else st.

(** Second loop: the last snapshot at or before [startMs]. *)
Definition before_start_step (startMs : Q) (st : option (event * nat))
    (si : event * nat) : option (event * nat) :=
  if num_le (timestamp (fst si)) startMs then Some si else st.

Definition selectBaseSnapshot (fullSnapshots : list (event * nat))
    (startMs : Q) : option (event * nat) :=
  match fold_left (within_threshold_step startMs) fullSnapshots None with
  | Some si => Some si
  | None =>
      match fold_left (before_start_step startMs) fullSnapshots None with
      | Some si => Some si
      | None => hd_error fullSnapshots
      end
  end.

(** [event.type === 3 && event.data && event.data.source === 0] *)
Definition isMutation (e : event) : result bool :=
  if (type e =? 3)%Z then
    if truthy (data e) then
      src <- get_prop (data e) "source" ;;
      Ok (is_zero src)
    else Ok false
  else Ok false.

(** The walk from [baseSnapshotIndex + 1]: stops at the first event after
    [endMs], skips full snapshots, keeps only mutations before [startMs]
    and everything from [startMs] on. *)
Fixpoint collectEvents (startMs endMs : Q) (l : list event)
  : result (list event) :=
  match l with
  | [] => Ok []
  | e :: rest =>
      if num_lt endMs (timestamp e) then Ok []
      else if (type e =? 2)%Z then collectEvents startMs endMs rest
      else if num_lt (timestamp e) startMs then
        m <- isMutation e ;;
        kept <- collectEvents startMs endMs rest ;;
        Ok (if m then e :: kept else kept)
      else
        kept <- collectEvents startMs endMs rest ;;
        Ok (e :: kept)
  end.

Definition minimalEvent (t : Q) : event :=
  mkEvent 3
    (VObj [("source", VNum 0); ("texts", VArr []); ("attributes", VArr []);
           ("removes", VArr []); ("adds", VArr [])])
    t None.

(** [Math.min(relativeTime / timeShift, 1) * 100].  With [timeShift] zero
    the quotient is [Infinity] for a positive [relativeTime], and the
    minimum is 1; it is [NaN] or [-Infinity] otherwise. *)
Definition compressedTimestamp (relativeTime timeShift : Q) : result Q :=
  if num_eq timeShift 0 then
    if num_lt 0 relativeTime then Ok (1 * 100) else Throw NotFinite
  else Ok (Qmin (relativeTime / timeShift) 1 * 100).

(** The callback of [newEvents.map]. *)
Definition shiftEvent (startMs timeShift baseTime : Q) (e : event)
  : result event :=
  let relativeTime := timestamp e - baseTime in
  compress <-
    (if num_lt (timestamp e) startMs then
       if (type e =? 3)%Z then
         src <- get_prop (data e) "source" ;;
         Ok (is_zero src)
       else Ok false
     else Ok false) ;;
  if (compress : bool) then
    t <- compressedTimestamp relativeTime timeShift ;;
    Ok (with_timestamp e t)
  else
    Ok (with_timestamp e (timestamp e - startMs + 100)).

Definition trimRecordingFallback (events : list event) (startMs endMs : Q)
  : result (list event) :=
  let fullSnapshots := fullSnapshotsFrom 0 events in
  match selectBaseSnapshot fullSnapshots startMs with
  | None => Throw NoFullSnapshot
  | Some (baseSnapshot, baseSnapshotIndex) =>
      let metaEvents :=
        match find (fun e => (type e =? 4)%Z) events with
        | Some metaEvent =>
            [with_timestamp metaEvent (timestamp baseSnapshot + 1)]
        | None => []
        end in
      kept <- collectEvents startMs endMs
                (skipn (baseSnapshotIndex + 1) events) ;;
      let newEvents :=
        sort_by_timestamp
          (with_timestamp baseSnapshot (timestamp baseSnapshot)
             :: metaEvents ++ kept) in
      let newEvents :=
        if (List.length newEvents =? 1)%nat
        then newEvents ++ [minimalEvent (timestamp baseSnapshot + 10)]
        else newEvents in
      let timeShift := startMs - timestamp baseSnapshot in
      let baseTime := timestamp (hd baseSnapshot newEvents) in
      shiftedEvents <- mapM (shiftEvent startMs timeShift baseTime) newEvents ;;
      if (List.length shiftedEvents <? 2)%nat
      then Throw (TooFewEvents (List.length shiftedEvents))
      else Ok shiftedEvents
  end.

Section RecordingCutter.

(** The browser globals and libraries the module reads. *)

(** [window.location.href] *)
Variable window_location_href : string.

(** [JSON.stringify] on an event. *)
Variable JSON_stringify : event -> string.

(** The replay collaborators of [createTrueSyntheticSnapshot]: the rrweb
    [Replayer] played to the relative target time in a hidden container,
    then [snapshot] of the iframe document.  [Throw] stands for every
    failure on the way (timeout of the polling loop, no iframe, no
    content document, an exception of the libraries). *)
Variable replay_and_snapshot : list event -> Q -> result value.

(** ** cutRecording *)

Definition cutRecording (events : list event)
    (centerTimeSeconds beforeSeconds afterSeconds : Q)
  : result (list event) :=
  match events with
  | [] => Throw InvalidEventsArray
  | first :: _ =>
      let startTime := timestamp first in
      let centerTimestamp := startTime + centerTimeSeconds * 1000 in
      let beforeMs := beforeSeconds * 1000 in
      let afterMs := afterSeconds * 1000 in
      let cutStartTime := centerTimestamp - beforeMs in
      let cutEndTime := centerTimestamp + afterMs in
      match closestFullSnapshot events cutStartTime with
      | None => Throw NoFullSnapshot
      | Some (fullSnapshot, _) =>
          let snapshotTime := timestamp fullSnapshot in
          let rangeStart := Qmin snapshotTime cutStartTime in
          let rangeEnd := cutEndTime in
          let neededEvents :=
            filter (fun e => num_le rangeStart (timestamp e)
                             && num_le (timestamp e) rangeEnd) events in
          let others :=
            filter (fun e =>
                      negb (num_eq (timestamp e) (timestamp fullSnapshot))
                      || negb (type e =? 2)%Z) neededEvents in
          let newEvents :=
            with_timestamp fullSnapshot (timestamp fullSnapshot)
              :: map (fun e => with_timestamp e (timestamp e)) others in
          let newEvents :=
            if (List.length newEvents <? 2)%nat then
              let lastTimestamp := timestamp (last newEvents fullSnapshot) in
              newEvents ++
                [mkEvent 4 (VObj [("href", VStr window_location_href)])
                         (lastTimestamp + 100) None]
            else newEvents in
          Ok (sort_by_timestamp newEvents)
      end
  end.

(** ** findEventsByContent *)

Definition findEventsByContent (events : list event) (searchTerm : string)
  : list event :=
  filter (fun e => includes (toLowerCase (JSON_stringify e))
                            (toLowerCase searchTerm)) events.

(** ** createTrueSyntheticSnapshot *)

Definition truthy_tabId (e : event) : bool :=
  match tabId e with
  | Some s => negb (String.eqb s EmptyString)
  | None => false
  end.

Definition createTrueSyntheticSnapshot (events : list event)
    (targetTimestamp : Q) : result event :=
  match events with
  | [] => Throw (TypeError "timestamp")
  | first :: _ =>
      let startTime := timestamp first in
      let relativeTarget := targetTimestamp - startTime in
      domSnapshot <- replay_and_snapshot events relativeTarget ;;
      if truthy domSnapshot then
        let tabId :=
          match find truthy_tabId events with
          | Some e => tabId e
          | None => None
          end in
        Ok (mkEvent 2
              (VObj [("node", domSnapshot);
                     ("initialOffset",
                      VObj [("left", VNum 0); ("top", VNum 0)])])
              targetTimestamp tabId)
      else Throw (ReplayError "Snapshot returned null")
  end.

(** ** trimRecording *)

(** The exact-match search: the first full snapshot within one second of
    [startMs], used when its timestamp is [startMs]. *)
Definition exactSnapshot (events : list event) (startMs : Q) : option event :=
  let snapshots := filter (fun e => (type e =? 2)%Z) events in
  match find (fun s => num_lt (Qabs (timestamp s - startMs)) 1000) snapshots with
  | Some closeSnapshot =>
      if num_eq (timestamp closeSnapshot) startMs then Some closeSnapshot
      else None
  | None => None
  end.

Definition metaEventFor (events : list event) (syntheticSnapshot : event)
  : event :=
  let originalMeta := find (fun e => (type e =? 4)%Z) events in
  let metaData :=
    match originalMeta with
    | Some m => data m
    | None => VUndefined
    end in
  mkEvent 4
    (VObj [("href", js_or (get_prop_opt metaData "href")
                          (VStr window_location_href));
           ("width", js_or (get_prop_opt metaData "width") (VNum 1920));
           ("height", js_or (get_prop_opt metaData "height") (VNum 1080))])
    0 (tabId syntheticSnapshot).

(** The boundary snapshot of a trim: the exact match when the search
    finds one, the reconstructed snapshot otherwise. *)
Definition boundarySnapshot (events : list event) (startMs : Q)
  : result event :=
  match exactSnapshot events startMs with
  | Some closeSnapshot => Ok closeSnapshot
  | None => createTrueSyntheticSnapshot events startMs
  end.

(** The construction of the output once the boundary snapshot is known. *)
Definition buildTrimmed (events : list event) (startMs endMs : Q)
    (syntheticSnapshot : event) : list event :=
  let metaEvent := metaEventFor events syntheticSnapshot in
  let adjustedSnapshot := with_timestamp syntheticSnapshot 1 in
  let eventsInRange :=
    filter (fun e => num_lt startMs (timestamp e)
                     && num_le (timestamp e) endMs) events in
  let adjusted :=
    map (fun e => with_timestamp e (timestamp e - startMs + 2)) eventsInRange in
  sort_by_timestamp (metaEvent :: adjustedSnapshot :: adjusted).

(** The clamping of the range into the recording. *)
Definition clampStart (recordingStart startMs : Q) : Q :=
  if num_lt startMs recordingStart then recordingStart else startMs.

Definition clampEnd (recordingEnd endMs : Q) : Q :=
  if num_lt recordingEnd endMs then recordingEnd else endMs.

Definition trimRecording (events : list event) (startMs endMs : Q)
  : result (list event) :=
  match events with
  | [] => Throw InvalidEventsArray
  | first :: _ =>
      let recordingStart := timestamp first in
      let recordingEnd := timestamp (last events first) in
      let startMs := clampStart recordingStart startMs in
      let endMs := clampEnd recordingEnd endMs in
      if num_le endMs startMs then Throw (InvalidTimeRange startMs endMs)
      else
        let attempt :=
          syntheticSnapshot <- boundarySnapshot events startMs ;;
          Ok (buildTrimmed events startMs endMs syntheticSnapshot) in
        match attempt with
        | Ok newEvents => Ok newEvents
        | Throw _ => trimRecordingFallback events startMs endMs
        end
  end.

End RecordingCutter.

(** ** The time helpers

    [timestampToRelativeTime], [formatTime] and [parseTimeString] turn a
    timestamp into the [m:ss] text of the cut form and back. *)

(** The quotient is exact here.  The code rounds it to the nearest double,
    so that [startTime + relative * 1000] can miss the timestamp by the
    rounding: 1001 comes back as 1000.9999999999999. *)
Definition timestampToRelativeTime (events : list event) (timestamp' : Q)
  : Q :=
  match events with
  | [] => 0
  | first :: _ =>
      let startTime := timestamp first in
      (timestamp' - startTime) / 1000
  end.

(** [Math.floor] *)
Definition Math_floor (x : Q) : Z := Qfloor x.

(** [a % b], the remainder of the division truncated towards zero; the
    divisors of the source are the constants 3600 and 60. *)
Definition Qtruncate (x : Q) : Z :=
  if num_le 0 x then Qfloor x else Qceiling x.

Definition js_rem (a b : Q) : Q := a - b * inject_Z (Qtruncate (a / b)).

(** [n.toString()] on an integer: its decimal digits, after a minus sign
    for a negative one.  From 10^21 on the language prints an exponent,
    which is outside the model ([None]). *)
Definition Number_toString (n : Z) : option string :=
  if (Z.abs n <? 10 ^ 21)%Z
  then Some (DecimalString.NilZero.string_of_int (Z.to_int n))
  else None.

Fixpoint repeat_char (c : ascii) (n : nat) : string :=
  match n with
  | O => EmptyString
  | S n' => String c (repeat_char c n')
  end.

(** [s.padStart(targetLength, c)] for a pad string of one character. *)
Definition padStart (s : string) (targetLength : nat) (c : ascii) : string :=
  (repeat_char c (targetLength - String.length s) ++ s)%string.

(** [formatTime], on the seconds from 0 up to 2^53.  There the number
    arithmetic of the code is exact on the three fields: [%] does not
    round, a quotient by 3600 or by 60 that lies below a whole number is
    not rounded up to it, and the whole numbers at hand are below 2^53; so
    [Math.floor] of the code's quotient is the floor of the exact one.
    From 2^53 seconds on the quotient can be rounded to a neighbouring
    whole number, and a negative quotient can be rounded to -0: these
    seconds are outside the model ([None]). *)
Definition formatTime (seconds : Q) : option string :=
  if num_le 0 seconds && num_lt seconds (inject_Z (2 ^ 53)) then
    let hours := Math_floor (seconds / 3600) in
    let minutes := Math_floor (js_rem seconds 3600 / 60) in
    let secs := Math_floor (js_rem seconds 60) in
    match Number_toString minutes, Number_toString secs with
    | Some m, Some s =>
        if (0 <? hours)%Z then
          match Number_toString hours with
          | Some h =>
              Some (h ++ ":" ++ padStart m 2 "0"
                      ++ ":" ++ padStart s 2 "0")%string
          | None => None
          end
        else Some (m ++ ":" ++ padStart s 2 "0")%string
    | _, _ => None
    end
  else None.

(** [s.split(sep)] for a separator of one character. *)
Fixpoint split (sep : ascii) (s : string) : list string :=
  match s with
  | EmptyString => [EmptyString]
  | String c rest =>
      if Ascii.eqb c sep then EmptyString :: split sep rest
      else
        match split sep rest with
        | part :: parts => String c part :: parts
        | [] => [String c EmptyString]
        end
  end.

(** The character class [\d]. *)
Definition is_digit (c : ascii) : bool :=
  let n := nat_of_ascii c in (48 <=? n)%nat && (n <=? 57)%nat.

Fixpoint all_digits (s : string) : bool :=
  match s with
  | EmptyString => true
  | String c rest => is_digit c && all_digits rest
  end.

(** [/^\d+$/.test(s)] *)
Definition test_digits (s : string) : bool :=
  negb (String.eqb s EmptyString) && all_digits s.

(** The number a sequence of decimal digits denotes. *)
Fixpoint digits_value (s : string) (acc : N) : N :=
  match s with
  | EmptyString => acc
  | String c rest => digits_value rest (10 * acc + (N_of_ascii c - 48))%N
  end.

Fixpoint leading_digits (s : string) : string :=
  match s with
  | EmptyString => EmptyString
  | String c rest =>
      if is_digit c then String c (leading_digits rest) else EmptyString
  end.

(** [parseInt(s)] on a string that starts with neither white space, a
    sign nor a radix prefix (the one call of the source is guarded by the
    digit test): the value of the leading digits, [NaN] ([None]) when
    there is none. *)
Definition parseInt (s : string) : option Q :=
  let digits := leading_digits s in
  if String.eqb digits EmptyString then None
  else Some (inject_Z (Z.of_N (digits_value digits 0))).

Section TimeStrings.

(** [Number(s)] on the strings that are neither empty nor a sequence of
    decimal digits (white space, signs, fractions, exponents, radix
    prefixes, [Infinity], and [NaN] for the rest) is a parameter.  [None]
    stands for a result that is not a finite number. *)
Variable Number_other : string -> option Q.

Definition Number (s : string) : option Q :=
  if String.eqb s EmptyString then Some 0
  else if all_digits s then Some (inject_Z (Z.of_N (digits_value s 0)))
  else Number_other s.

(** A sum of products with a part that is not a finite number is not a
    finite number. *)
Definition parseTimeString (timeStr : string) : option Q :=
  if String.eqb timeStr EmptyString then Some 0
  else if test_digits timeStr then parseInt timeStr
  else
    let parts := map Number (split ":" timeStr) in
    match parts with
    | [p0; p1] =>
        match p0, p1 with
        | Some a, Some b => Some (a * 60 + b)
        | _, _ => None
        end
    | [p0; p1; p2] =>
        match p0, p1, p2 with
        | Some a, Some b, Some c => Some (a * 3600 + b * 60 + c)
        | _, _, _ => None
        end
    | _ => Some 0
    end.

End TimeStrings.

(** ** [String.prototype.trim]

    [trim] removes the leading and trailing white space;
    among the bytes of the model that is the ASCII white space (tab, line
    feed, vertical tab, form feed, carriage return and space). *)

Definition is_space (c : ascii) : bool :=
  let n := nat_of_ascii c in
  ((9 <=? n)%nat && (n <=? 13)%nat) || (n =? 32)%nat.

Fixpoint trim_start (s : string) : string :=
  match s with
  | EmptyString => EmptyString
  | String c rest => if is_space c then trim_start rest else s
  end.

Fixpoint trim_end (s : string) : string :=
  match s with
  | EmptyString => EmptyString
  | String c rest =>
      match trim_end rest with
      | EmptyString => if is_space c then EmptyString else String c EmptyString
      | kept => String c kept
      end
  end.

Definition trim (s : string) : string := trim_end (trim_start s).

Fixpoint all_space (s : string) : bool :=
  match s with
  | EmptyString => true
  | String c rest => is_space c && all_space rest
  end.

(** ** The handlers of the player (App.js)

    A handler is a function of the state it reads and returns the state
    it sets; the timeline state of the player holds times in milliseconds
    from the start of the recording. *)

Module App.

(** *** The markers of the timeline

    [processEventMarkers] groups the significant events of a recording by
    the hundredth of the timeline they fall in, and returns one marker
    per group.  The percentage of an event divides by the duration of the
    recording, which can be zero: [number] holds the results that are not
    finite numbers, and [rangeKey] the property keys that
    [Math.floor(percentage)] gives. *)

Inductive number : Type :=
| Finite (q : Q)
| PlusInfinity
| MinusInfinity
| NaN.

Inductive rangeKey : Type :=
| KInt (z : Z)            (* the decimal text of an integer *)
| KInfinity               (* "Infinity" *)
| KMinusInfinity          (* "-Infinity" *)
| KNaN.                   (* "NaN" *)

Definition rangeKey_eqb (a b : rangeKey) : bool :=
  match a, b with
  | KInt x, KInt y => (x =? y)%Z
  | KInfinity, KInfinity => true
  | KMinusInfinity, KMinusInfinity => true
  | KNaN, KNaN => true
  | _, _ => false
  end.

(** [(relativeTime / (duration * 1000)) * 100] *)
Definition percentageOf (relativeTime duration : Q) : number :=
  let total := duration * 1000 in
  if num_eq total 0 then
    if num_lt 0 relativeTime then PlusInfinity
    else if num_lt relativeTime 0 then MinusInfinity
    else NaN
  else Finite (relativeTime / total * 100).

(** [Math.floor(percentage)], as the key of [eventsByTimeRange]. *)
Definition timeRangeOf (percentage : number) : rangeKey :=
  match percentage with
  | Finite q => KInt (Qfloor q)
  | PlusInfinity => KInfinity
  | MinusInfinity => KMinusInfinity
  | NaN => KNaN
  end.

(** [v === n] *)
Definition is_number (v : value) (n : Q) : bool :=
  match v with
  | VNum q => num_eq q n
  | _ => false
  end.

(** The filter of [significantEvents]: full snapshots, Meta events, and
    the incremental snapshots of source 2, 3 and 4 (mouse interaction,
    scroll, viewport resize). *)
Definition isSignificant (e : event) : bool :=
  if (type e =? 2)%Z then true
  else if (type e =? 4)%Z then true
  else if (type e =? 3)%Z && truthy (data e) then
    let source := get_prop_opt (data e) "source" in
    is_number source 2 || is_number source 3 || is_number source 4
  else false.

Section Markers.

(** The decoration of a marker, [getEventTypeInfo(event)], is a
    parameter: the markers carry it and nothing reads it here. *)
Variable typeInfo : Type.
Variable getEventTypeInfo : event -> typeInfo.

(** [{...event, relativeTime, percentage, typeInfo}], with [count] and
    [grouped] on the marker of a group of several events. *)
Record marker : Type := mkMarker {
  marker_event : event;
  relativeTime : Q;
  percentage : number;
  marker_typeInfo : typeInfo;
  count : option nat;
  grouped : bool
}.

(** [eventsByTimeRange[timeRange].push(m)], on the object as the list of
    its entries in the order of their creation. *)
Fixpoint push_in_range (k : rangeKey) (m : marker)
    (ranges : list (rangeKey * list marker)) : list (rangeKey * list marker) :=
  match ranges with
  | [] => [(k, [m])]
  | (k', ms) :: rest =>
      if rangeKey_eqb k k' then (k', ms ++ [m]) :: rest
      else (k', ms) :: push_in_range k m rest
  end.

(** [Object.entries]: the keys that are array indices (the integers from
    0 to 2^32 - 2) in ascending order, then the other keys in the order
    of their creation. *)
Definition is_index (k : rangeKey) : bool :=
  match k with
  | KInt z => (0 <=? z)%Z && (z <? 2 ^ 32 - 1)%Z
  | _ => false
  end.

Definition key_le (a b : rangeKey) : bool :=
  match a, b with
  | KInt x, KInt y => (x <=? y)%Z
  | _, _ => true
  end.

Fixpoint insert_entry (x : rangeKey * list marker)
    (l : list (rangeKey * list marker)) : list (rangeKey * list marker) :=
  match l with
  | [] => [x]
  | y :: rest =>
      if key_le (fst x) (fst y) then x :: y :: rest
      else y :: insert_entry x rest
  end.

Definition Object_entries (ranges : list (rangeKey * list marker))
  : list (rangeKey * list marker) :=
  fold_right insert_entry [] (filter (fun r => is_index (fst r)) ranges)
  ++ filter (fun r => negb (is_index (fst r))) ranges.

(** The marker of a group: its only event, or its first event with the
    size of the group.  A group holds at least one event. *)
Definition markerOf (events : list marker) : list marker :=
  match events with
  | [] => []
  | [m] => [m]
  | representative :: _ =>
      [mkMarker (marker_event representative) (relativeTime representative)
         (percentage representative) (marker_typeInfo representative)
         (Some (List.length events)) true]
  end.

(** [markers.sort((a, b) => a.timestamp - b.timestamp)] *)
Fixpoint insert_marker (x : marker) (l : list marker) : list marker :=
  match l with
  | [] => [x]
  | y :: rest =>
      if num_le (timestamp (marker_event x)) (timestamp (marker_event y))
      then x :: y :: rest
      else y :: insert_marker x rest
  end.

Definition sort_markers (l : list marker) : list marker :=
  fold_right insert_marker [] l.

Definition processEventMarkers (eventsArray : option (list event))
    (recordingAnalysis : option RecordingStats) : list marker :=
  match eventsArray, recordingAnalysis with
  | Some eventsArray, Some recordingAnalysis =>
      let startTime := startTime recordingAnalysis in
      let significantEvents := filter isSignificant eventsArray in
      let eventsByTimeRange :=
        fold_left
          (fun ranges e =>
             let relativeTime := timestamp e - startTime in
             let percentage :=
               percentageOf relativeTime (duration recordingAnalysis) in
             let timeRange := timeRangeOf percentage in
             push_in_range timeRange
               (mkMarker e relativeTime percentage (getEventTypeInfo e)
                  None false)
               ranges)
          significantEvents [] in
      let markers :=
        flat_map (fun r => markerOf (snd r)) (Object_entries eventsByTimeRange)
      in
      sort_markers markers
  | _, _ => []
  end.

(** The range of a marker, and the number of events it stands for. *)
Definition marker_range (m : marker) : rangeKey :=
  timeRangeOf (percentage m).

Definition marker_size (m : marker) : nat :=
  match count m with
  | Some n => n
  | None => 1%nat
  end.

(** Markers in the order of their timestamps. *)
Definition marker_le (a b : marker) : Prop :=
  timestamp (marker_event a) <= timestamp (marker_event b).

(** What the loop over the significant events keeps of
    [eventsByTimeRange]: one entry per key, and in the entry of a key the
    markers of that key, none of them grouped yet. *)
Definition ranges_inv (ranges : list (rangeKey * list marker)) : Prop :=
  NoDup (map fst ranges) /\
  Forall (fun r =>
            snd r <> [] /\
            Forall (fun m => marker_range m = fst r /\ count m = None)
                   (snd r)) ranges.

End Markers.

(** *** The handles of the trimmer *)






Section Handlers.

Variable window_location_href : string.
Variable replay_and_snapshot : list event -> Q -> result value.


End Handlers.

(** *** The search box *)

Section SearchBox.

Variable JSON_stringify : event -> string.

(** [searchEvents]: the value it sets [foundEvents] to. *)
Definition searchEvents (events : option (list event)) (searchTerm : string)
  : list event :=
  match events with
  | None => []
  | Some events =>
      if String.eqb (trim searchTerm) EmptyString then []
      else findEventsByContent JSON_stringify events (trim searchTerm)
  end.

End SearchBox.


End App.

(** ** The same functions on a heap of objects

    For what the functions write, events are objects with identity: the
    heap holds the event objects and the arrays of references to them, an
    object literal or spread allocates, and [push], [sort] and a field
    assignment update in place.  The payload [data] is shared by a spread
    copy and never written, so it stays a value. *)

Module Heap.

Definition loc : Type := nat.

Record heap : Type := mkHeap {
  objects : list event;
  arrays : list (list loc)
}.

(** A computation on the heap: its result or exception, and the heap it
    leaves. *)
Definition M (A : Type) : Type := heap -> result A * heap.

Definition ret {A : Type} (a : A) : M A := fun h => (Ok a, h).

Definition raise {A : Type} (e : error) : M A := fun h => (Throw e, h).

Definition bindM {A B : Type} (m : M A) (k : A -> M B) : M B :=
  fun h =>
    match m h with
    | (Ok a, h') => k a h'
    | (Throw e, h') => (Throw e, h')
    end.

Notation "x <~ m ;; k" := (bindM m (fun x => k))
  (at level 100, m at next level, right associativity).

(** A pure computation that may throw. *)
Definition lift {A : Type} (r : result A) : M A := fun h => (r, h).

Fixpoint set_nth {A : Type} (n : nat) (v : A) (l : list A) : list A :=
  match l, n with
  | [], _ => []
  | _ :: rest, O => v :: rest
  | x :: rest, S n' => x :: set_nth n' v rest
  end.

(** *** Objects *)

(** An object literal, or a spread copy. *)
Definition new_object (e : event) : M loc :=
  fun h => (Ok (List.length (objects h)),
            mkHeap (objects h ++ [e]) (arrays h)).

(** Reading the fields of an object. *)
Definition get_object (l : loc) : M event :=
  fun h =>
    match nth_error (objects h) l with
    | Some e => (Ok e, h)
    | None => (Throw (TypeError "object"), h)
    end.

(** [o.tabId = t] *)
Definition set_tabId (l : loc) (t : option string) : M unit :=
  fun h =>
    match nth_error (objects h) l with
    | Some e =>
        (Ok tt,
         mkHeap (set_nth l (mkEvent (type e) (data e) (timestamp e) t)
                   (objects h))
                (arrays h))
    | None => (Throw (TypeError "object"), h)
    end.

(** *** Arrays *)

(** An array literal, or the fresh array of [filter] and [map]. *)
Definition new_array (items : list loc) : M loc :=
  fun h => (Ok (List.length (arrays h)),
            mkHeap (objects h) (arrays h ++ [items])).

Definition get_array (a : loc) : M (list loc) :=
  fun h =>
    match nth_error (arrays h) a with
    | Some items => (Ok items, h)
    | None => (Throw (TypeError "array"), h)
    end.

(** The in-place update of an array's contents. *)
Definition set_array (a : loc) (items : list loc) : M unit :=
  fun h =>
    match nth_error (arrays h) a with
    | Some _ => (Ok tt, mkHeap (objects h) (set_nth a items (arrays h)))
    | None => (Throw (TypeError "array"), h)
    end.

(** [a.push(l)] *)
Definition push (a : loc) (l : loc) : M unit :=
  items <~ get_array a ;;
  set_array a (items ++ [l]).

Fixpoint insert_loc (key : loc -> Q) (x : loc) (l : list loc) : list loc :=
  match l with
  | [] => [x]
  | y :: rest =>
      if num_le (key x) (key y) then x :: y :: rest
      else y :: insert_loc key x rest
  end.

Fixpoint sort_locs (key : loc -> Q) (l : list loc) : list loc :=
  match l with
  | [] => []
  | x :: rest => insert_loc key x (sort_locs key rest)
  end.

Definition timestamp_at (h : heap) (l : loc) : Q :=
  match nth_error (objects h) l with
  | Some e => timestamp e
  | None => 0
  end.

(** [a.sort((x, y) => x.timestamp - y.timestamp)]: in place. *)
Definition sort_in_place (a : loc) : M unit :=
  items <~ get_array a ;;
  fun h => set_array a (sort_locs (timestamp_at h) items) h.

(** *** Loops *)

(** [for (const x of l) { f(x) }] *)
Fixpoint for_each {A : Type} (f : A -> M unit) (l : list A) : M unit :=
  match l with
  | [] => ret tt
  | a :: rest => _ <~ f a ;; for_each f rest
  end.

(** A loop that carries a state. *)
Fixpoint fold_each {A S : Type} (f : S -> A -> M S) (l : list A) (s : S)
  : M S :=
  match l with
  | [] => ret s
  | a :: rest => s' <~ f s a ;; fold_each f rest s'
  end.

Fixpoint map_each {A B : Type} (f : A -> M B) (l : list A) : M (list B) :=
  match l with
  | [] => ret []
  | a :: rest =>
      b <~ f a ;;
      bs <~ map_each f rest ;;
      ret (b :: bs)
  end.

(** The references of [l] whose object passes [p]. *)
Fixpoint select (p : event -> bool) (l : list loc) : M (list loc) :=
  match l with
  | [] => ret []
  | x :: rest =>
      e <~ get_object x ;;
      kept <~ select p rest ;;
      ret (if p e then x :: kept else kept)
  end.

(** [a.filter(p)]: a fresh array. *)
Definition filter_array (a : loc) (p : event -> bool) : M loc :=
  items <~ get_array a ;;
  kept <~ select p items ;;
  new_array kept.

(** [a.find(p)] *)
Definition find_in_array (a : loc) (p : event -> bool) : M (option loc) :=
  items <~ get_array a ;;
  kept <~ select p items ;;
  ret (hd_error kept).

(** *** cutRecording *)

Definition closest_step (cutStartTime : Q) (st : option (loc * Q))
    (l : loc) : M (option (loc * Q)) :=
  e <~ get_object l ;;
  ret (if (type e =? 2)%Z then
         let distance := Qabs (timestamp e - cutStartTime) in
         match st with
         | None => Some (l, distance)
         | Some (_, bestDistance) =>
             if num_lt distance bestDistance then Some (l, distance) else st
         end
       else st).

Definition cutRecording (href : string) (events : loc)
    (centerTimeSeconds beforeSeconds afterSeconds : Q) : M loc :=
  items <~ get_array events ;;
  match items with
  | [] => raise InvalidEventsArray
  | first :: _ =>
      firstEvent <~ get_object first ;;
      let startTime := timestamp firstEvent in
      let centerTimestamp := startTime + centerTimeSeconds * 1000 in
      let beforeMs := beforeSeconds * 1000 in
      let afterMs := afterSeconds * 1000 in
      let cutStartTime := centerTimestamp - beforeMs in
      let cutEndTime := centerTimestamp + afterMs in
      best <~ fold_each (closest_step cutStartTime) items None ;;
      match best with
      | None => raise NoFullSnapshot
      | Some (fullSnapshot, _) =>
          snapshot <~ get_object fullSnapshot ;;
          let snapshotTime := timestamp snapshot in
          let rangeStart := Qmin snapshotTime cutStartTime in
          let rangeEnd := cutEndTime in
          neededEvents <~
            filter_array events
              (fun e => num_le rangeStart (timestamp e)
                        && num_le (timestamp e) rangeEnd) ;;
          newEvents <~ new_array [] ;;
          copy <~ new_object (with_timestamp snapshot (timestamp snapshot)) ;;
          _ <~ push newEvents copy ;;
          needed <~ get_array neededEvents ;;
          _ <~ for_each
                 (fun l =>
                    e <~ get_object l ;;
                    if negb (num_eq (timestamp e) (timestamp snapshot))
                       || negb (type e =? 2)%Z
                    then
                      c <~ new_object (with_timestamp e (timestamp e)) ;;
                      push newEvents c
                    else ret tt)
                 needed ;;
          current <~ get_array newEvents ;;
          _ <~ (if (List.length current <? 2)%nat then
                  lastEvent <~ get_object (last current fullSnapshot) ;;
                  filler <~
                    new_object
                      (mkEvent 4 (VObj [("href", VStr href)])
                               (timestamp lastEvent + 100) None) ;;
                  push newEvents filler
                else ret tt) ;;
          _ <~ sort_in_place newEvents ;;
          ret newEvents
      end
  end.

(** *** trimRecording, from the boundary snapshot on *)

Definition buildTrimmed (href : string) (events : loc) (startMs endMs : Q)
    (syntheticSnapshot : loc) : M loc :=
  snapshot <~ get_object syntheticSnapshot ;;
  newEvents <~ new_array [] ;;
  originalMeta <~ find_in_array events (fun e => (type e =? 4)%Z) ;;
  metaData <~
    match originalMeta with
    | Some m => e <~ get_object m ;; ret (data e)
    | None => ret VUndefined
    end ;;
  metaEvent <~
    new_object
      (mkEvent 4
         (VObj [("href", js_or (get_prop_opt metaData "href") (VStr href));
                ("width", js_or (get_prop_opt metaData "width") (VNum 1920));
                ("height", js_or (get_prop_opt metaData "height")
                                 (VNum 1080))])
         0 None) ;;
  _ <~ match tabId snapshot with
       | Some t => set_tabId metaEvent (Some t)
       | None => ret tt
       end ;;
  _ <~ push newEvents metaEvent ;;
  adjustedSnapshot <~ new_object (with_timestamp snapshot 1) ;;
  _ <~ push newEvents adjustedSnapshot ;;
  eventsInRange <~
    filter_array events
      (fun e => num_lt startMs (timestamp e) && num_le (timestamp e) endMs) ;;
  inRange <~ get_array eventsInRange ;;
  _ <~ for_each
         (fun l =>
            e <~ get_object l ;;
            adjustedEvent <~
              new_object (with_timestamp e (timestamp e - startMs + 2)) ;;
            push newEvents adjustedEvent)
         inRange ;;
  _ <~ sort_in_place newEvents ;;
  ret newEvents.

(** *** trimRecordingFallback *)

(** [fullSnapshots]: the references of the type-2 events, with their
    indices. *)
Fixpoint fullSnapshotsFrom (i : nat) (items : list loc)
  : M (list (loc * nat)) :=
  match items with
  | [] => ret []
  | l :: rest =>
      e <~ get_object l ;;
      more <~ fullSnapshotsFrom (S i) rest ;;
      ret (if (type e =? 2)%Z then (l, i) :: more else more)
  end.

Definition within_threshold_step (startMs : Q) (st : option (loc * nat))
    (si : loc * nat) : M (option (loc * nat)) :=
  snapshot <~ get_object (fst si) ;;
  ret (if num_le (timestamp snapshot) startMs
          && num_le (startMs - threshold) (timestamp snapshot)
       then Some si else st).

Definition before_start_step (startMs : Q) (st : option (loc * nat))
    (si : loc * nat) : M (option (loc * nat)) :=
  snapshot <~ get_object (fst si) ;;
  ret (if num_le (timestamp snapshot) startMs then Some si else st).

Definition selectBaseSnapshot (fullSnapshots : list (loc * nat))
    (startMs : Q) : M (option (loc * nat)) :=
  st <~ fold_each (within_threshold_step startMs) fullSnapshots None ;;
  match st with
  | Some si => ret (Some si)
  | None =>
      st <~ fold_each (before_start_step startMs) fullSnapshots None ;;
      match st with
      | Some si => ret (Some si)
      | None => ret (hd_error fullSnapshots)
      end
  end.

(** The walk pushes the events themselves, not copies. *)
Fixpoint collectEvents (startMs endMs : Q) (newEvents : loc)
    (items : list loc) : M unit :=
  match items with
  | [] => ret tt
  | l :: rest =>
      e <~ get_object l ;;
      if num_lt endMs (timestamp e) then ret tt
      else if (type e =? 2)%Z then collectEvents startMs endMs newEvents rest
      else if num_lt (timestamp e) startMs then
        m <~ lift (isMutation e) ;;
        _ <~ (if (m : bool) then push newEvents l else ret tt) ;;
        collectEvents startMs endMs newEvents rest
      else
        _ <~ push newEvents l ;;
        collectEvents startMs endMs newEvents rest
  end.

Definition trimRecordingFallback (events : loc) (startMs endMs : Q)
  : M loc :=
  items <~ get_array events ;;
  fullSnapshots <~ fullSnapshotsFrom 0 items ;;
  selected <~ selectBaseSnapshot fullSnapshots startMs ;;
  match selected with
  | None => raise NoFullSnapshot
  | Some (baseSnapshot, baseSnapshotIndex) =>
      base <~ get_object baseSnapshot ;;
      newEvents <~ new_array [] ;;
      copy <~ new_object (with_timestamp base (timestamp base)) ;;
      _ <~ push newEvents copy ;;
      metaEvent <~ find_in_array events (fun e => (type e =? 4)%Z) ;;
      _ <~ match metaEvent with
           | Some m =>
               e <~ get_object m ;;
               c <~ new_object (with_timestamp e (timestamp base + 1)) ;;
               push newEvents c
           | None => ret tt
           end ;;
      _ <~ collectEvents startMs endMs newEvents
             (skipn (baseSnapshotIndex + 1) items) ;;
      _ <~ sort_in_place newEvents ;;
      current <~ get_array newEvents ;;
      _ <~ (if (List.length current =? 1)%nat then
              minimal <~ new_object (minimalEvent (timestamp base + 10)) ;;
              push newEvents minimal
            else ret tt) ;;
      let timeShift := startMs - timestamp base in
      current <~ get_array newEvents ;;
      firstEvent <~ get_object (hd baseSnapshot current) ;;
      let baseTime := timestamp firstEvent in
      shifted <~
        map_each
          (fun l =>
             e <~ get_object l ;;
             e' <~ lift (shiftEvent startMs timeShift baseTime e) ;;
             new_object e')
          current ;;
      shiftedEvents <~ new_array shifted ;;
      if (List.length shifted <? 2)%nat
      then raise (TooFewEvents (List.length shifted))
      else ret shiftedEvents
  end.

(** *** Reading a log back *)

(** The events a list of references points to. *)
Fixpoint read_all (h : heap) (items : list loc) : option (list event) :=
  match items with
  | [] => Some []
  | l :: rest =>
      match nth_error (objects h) l, read_all h rest with
      | Some e, Some es => Some (e :: es)
      | _, _ => None
      end
  end.

(** The events an array refers to. *)
Definition read_log (h : heap) (a : loc) : option (list event) :=
  match nth_error (arrays h) a with
  | Some items => read_all h items
  | None => None
  end.

(** The heap that holds the log [events] in one array, at address 0. *)
Definition heap_of (events : list event) : heap :=
  mkHeap events [seq 0 (List.length events)].

(** Every object and every array of [h0] is in [h], unchanged. *)
Definition preserved (h0 h : heap) : Prop :=
  (exists newer, objects h = objects h0 ++ newer) /\
  (exists newer, arrays h = arrays h0 ++ newer).

(** The outcome of a call, read back. *)
Definition outcome (r : result loc * heap) : result (list event) :=
  match r with
  | (Ok a, h) =>
      match read_log h a with
      | Some es => Ok es
      | None => Throw (TypeError "array")
      end
  | (Throw e, _) => Throw e
  end.

(** Addresses allocated after the heap [h0]. *)
Definition fresh_object (h0 : heap) (l : loc) : Prop :=
  (List.length (objects h0) <= l)%nat.

Definition fresh_array (h0 : heap) (a : loc) : Prop :=
  (List.length (arrays h0) <= a)%nat.

(** [m] keeps the heap [h0]: started in a heap where [h0] is preserved,
    it leaves one, whether it returns or throws, and what it returns
    satisfies [P]. *)
Definition keeps {A : Type} (h0 : heap) (m : M A) (P : A -> Prop) : Prop :=
  forall h,
    preserved h0 h ->
    preserved h0 (snd (m h)) /\ forall a, fst (m h) = Ok a -> P a.

(** [l] is the address of the object [e]; [a] is the address of the
    array [items]. *)
Definition points (h : heap) (l : loc) (e : event) : Prop :=
  nth_error (objects h) l = Some e.

Definition holds (h : heap) (a : loc) (items : list loc) : Prop :=
  nth_error (arrays h) a = Some items.

(** From [h] to [h'] objects were only added, and arrays other than [n]
    were only added. *)
Definition grows (n : loc) (h h' : heap) : Prop :=
  (exists newer, objects h' = objects h ++ newer) /\
  (List.length (arrays h) <= List.length (arrays h'))%nat /\
  forall a, a <> n -> (a < List.length (arrays h))%nat ->
            nth_error (arrays h') a = nth_error (arrays h) a.

(** The array [n] holds references, each satisfying [F], to the events
    [acc]. *)
Definition tracks (F : loc -> Prop) (n : loc) (acc : list event) (h : heap)
  : Prop :=
  exists accl,
    holds h n accl /\ read_all h accl = Some acc /\ Forall F accl.

(** No condition on a reference. *)
Definition anything (l : loc) : Prop := True.

(** A reference with a tag and the event it points to with the same tag;
    the states of the scans, related in the same way. *)
Definition pair_rel {T : Type} (h : heap) (x : loc * T) (y : event * T)
  : Prop :=
  points h (fst x) (fst y) /\ snd x = snd y.

Definition opt_rel {T : Type} (h : heap) (st : option (loc * T))
    (stp : option (event * T)) : Prop :=
  match st, stp with
  | Some x, Some y => pair_rel h x y
  | None, None => True
  | _, _ => False
  end.

(** The run [r] of a heap version from [h0] computes [pure]: the same
    exception, or a fresh array of fresh objects that reads back as the
    log [pure] returns. *)
Definition refines (h0 : heap) (pure : result (list event))
    (r : result loc * heap) : Prop :=
  match pure with
  | Ok out =>
      exists n,
        fst r = Ok n /\ tracks (fresh_object h0) n out (snd r) /\
        fresh_array h0 n
  | Throw err => fst r = Throw err
  end.

End Heap.

(** ** Sample recordings *)

Definition fullSnapshotAt (t : Q) : event :=
  mkEvent 2 (VObj [("node", VObj [])]) t None.

(** An incremental snapshot of source 0 (a DOM mutation). *)
Definition mutationAt (t : Q) : event :=
  mkEvent 3 (VObj [("source", VNum 0)]) t None.

(** An incremental snapshot of source 1 (a mouse move). *)
Definition mouseMoveAt (t : Q) : event :=
  mkEvent 3 (VObj [("source", VNum 1)]) t None.

Definition metaAt (t : Q) : event :=
  mkEvent 4
    (VObj [("href", VStr "https://example.com"); ("width", VNum 1200);
           ("height", VNum 800)])
    t None.

(** The scenario of the specification: snapshots at 1000 and 11000. *)
Definition recording_scenario : list event :=
  [fullSnapshotAt 1000; mouseMoveAt 5000; fullSnapshotAt 11000;
   mouseMoveAt 21000].

(** A recording that opens with its Meta event, as rrweb records them. *)
Definition recording_meta_first : list event :=
  [metaAt 0; fullSnapshotAt 10; mouseMoveAt 20].

Definition recording_two : list event :=
  [fullSnapshotAt 0; mouseMoveAt 1000].

Definition recording_short : list event :=
  [fullSnapshotAt 0; mouseMoveAt 50].

(** A mutation between the base snapshot and the start of the trim. *)
Definition recording_pre_trim : list event :=
  [fullSnapshotAt 1000; mutationAt 1010; mouseMoveAt 1040; mouseMoveAt 2000].

(** Two snapshots half a second apart. *)
Definition recording_close_snapshots : list event :=
  [fullSnapshotAt 500; fullSnapshotAt 1000; mouseMoveAt 2000].


(** A replay that times out, and one that captures a document. *)
Definition failing_replay : list event -> Q -> result value :=
  fun _ _ => Throw (ReplayError "Timeout waiting for playback to reach target").

Definition working_replay : list event -> Q -> result value :=
  fun _ _ => Ok (VObj [("type", VNum 0); ("childNodes", VArr [])]).

(** A serialization that prints the type tag only. *)
Definition sample_stringify (e : event) : string :=
  if (type e =? 2)%Z then "{type:2}" else "{type:other}".

(** ** The EventLog invariants *)

Definition ts_le (a b : event) : Prop := timestamp a <= timestamp b.

(** Timestamps are non-decreasing in list order. *)
Definition nondecreasing (l : list event) : Prop := Sorted ts_le l.

Definition isFullSnapshot (e : event) : Prop := type e = 2%Z.

Definition keyframe_first (l : list event) : Prop :=
  exists k rest, l = k :: rest /\ isFullSnapshot k.

Definition EventLog_invariants (l : list event) : Prop :=
  nondecreasing l /\ (2 <= List.length l)%nat /\ keyframe_first l.

(** Order of the entries of [fullSnapshots]. *)
Definition snap_le (a b : event * nat) : Prop :=
  timestamp (fst a) <= timestamp (fst b).

(** A snapshot at or before [startMs] and within the lookback window. *)
Definition in_window (startMs : Q) (si : event * nat) : Prop :=
  timestamp (fst si) <= startMs /\ startMs - threshold <= timestamp (fst si).

(** What the walk keeps. *)
Definition kept_event (startMs endMs : Q) (l : list event) (e : event)
  : Prop :=
  In e l /\ type e <> 2%Z /\ timestamp e <= endMs /\
  (timestamp e < startMs ->
   type e = 3%Z /\
   exists src, get_prop (data e) "source" = Ok src /\ is_zero src = true).

(** Errors other than the invalid-range error. *)
Definition not_range_error (e : error) : Prop :=
  forall a b, e <> InvalidTimeRange a b.

(** The errors a computation can raise all satisfy [P]. *)
Definition raises_only {A : Type} (P : error -> Prop) (r : result A) : Prop :=
  match r with
  | Ok _ => True
  | Throw e => P e
  end.

(** What the scan has established after a prefix of the log. *)
Definition closest_inv (c : Q) (scanned : list event)
    (st : option (event * Q)) : Prop :=
  match st with
  | None => forall k, In k scanned -> type k <> 2%Z
  | Some (s, d) =>
      exists pre post,
        scanned = pre ++ s :: post /\ type s = 2%Z /\
        d = Qabs (timestamp s - c) /\
        (forall k, In k pre -> type k = 2%Z ->
                   d < Qabs (timestamp k - c)) /\
        (forall k, In k post -> type k = 2%Z ->
                   d <= Qabs (timestamp k - c))
  end.

(** What cutRecording keeps beside its anchor [s]: the events of the
    range that are not a full snapshot at the anchor's timestamp. *)
Definition cut_keeps (events : list event) (s : event)
    (rangeStart rangeEnd : Q) (e : event) : Prop :=
  In e events /\ rangeStart <= timestamp e /\ timestamp e <= rangeEnd /\
  ~ (timestamp e == timestamp s /\ type e = 2%Z).

(** The number of occurrences of a character. *)
Fixpoint occurrences (c : ascii) (s : string) : nat :=
  match s with
  | EmptyString => O
  | String c' rest =>
      if Ascii.eqb c' c then S (occurrences c rest) else occurrences c rest
  end.

(** [counts[t]] on the object of [eventTypeCounts]; [None] is
    [undefined]. *)
Fixpoint count_of (t : Z) (counts : list (Z * nat)) : option nat :=
  match counts with
  | [] => None
  | (t', n) :: rest => if (t =? t')%Z then Some n else count_of t rest
  end.

(** The number of events of type [t] in a log. *)
Definition count_type (t : Z) (events : list event) : nat :=
  List.length (filter (fun e => (type e =? t)%Z) events).

(** * Properties *)

(** ** Number comparisons *)

Lemma num_eq_iff a b : num_eq a b = true <-> a == b.
Proof. apply Qeq_bool_iff. Qed.

Lemma num_le_iff a b : num_le a b = true <-> a <= b.
Proof. apply Qle_bool_iff. Qed.

Lemma num_lt_iff a b : num_lt a b = true <-> a < b.
Proof.
  unfold num_lt. rewrite negb_true_iff.
  split; intro H.
  - apply Qnot_le_lt. intro Hle. apply Qle_bool_iff in Hle. congruence.
  - destruct (Qle_bool b a) eqn:E; [|reflexivity].
    apply Qle_bool_iff in E. exfalso. apply (Qlt_not_le _ _ H E).
Qed.

Lemma num_lt_false_iff a b : num_lt a b = false <-> b <= a.
Proof.
  unfold num_lt. rewrite negb_false_iff. apply Qle_bool_iff.
Qed.

Lemma num_le_false_iff a b : num_le a b = false <-> b < a.
Proof.
  rewrite <- num_lt_iff. unfold num_lt, num_le.
  destruct (Qle_bool a b); simpl; split; congruence.
Qed.

Lemma num_eq_false_iff a b : num_eq a b = false <-> ~ a == b.
Proof.
  rewrite <- num_eq_iff. destruct (num_eq a b); split; congruence.
Qed.

(** ** The stable sort *)

Lemma insert_by_timestamp_perm x l :
  Permutation (insert_by_timestamp x l) (x :: l).
Proof.
  induction l as [|y l IH]; simpl.
  - apply Permutation_refl.
  - destruct (num_le (timestamp x) (timestamp y)).
    + apply Permutation_refl.
    + eapply perm_trans; [apply perm_skip, IH | apply perm_swap].
Qed.

Lemma sort_by_timestamp_perm l : Permutation (sort_by_timestamp l) l.
Proof.
  induction l as [|x l IH]; simpl.
  - constructor.
  - eapply perm_trans; [apply insert_by_timestamp_perm | now apply perm_skip].
Qed.

Lemma sort_by_timestamp_length l :
  List.length (sort_by_timestamp l) = List.length l.
Proof. apply Permutation_length, sort_by_timestamp_perm. Qed.

Lemma sort_by_timestamp_In e l : In e (sort_by_timestamp l) <-> In e l.
Proof.
  split; apply Permutation_in;
    [|apply Permutation_sym]; apply sort_by_timestamp_perm.
Qed.

Lemma insert_by_timestamp_HdRel a x l :
  ts_le a x -> HdRel ts_le a l -> HdRel ts_le a (insert_by_timestamp x l).
Proof.
  intros Hax Hal. destruct l as [|y l]; simpl.
  - now constructor.
  - destruct (num_le (timestamp x) (timestamp y)); constructor; auto.
    now inversion Hal.
Qed.

Lemma insert_by_timestamp_sorted x l :
  nondecreasing l -> nondecreasing (insert_by_timestamp x l).
Proof.
  unfold nondecreasing.
  induction l as [|y l IH]; simpl; intros Hs.
  - repeat constructor.
  - destruct (num_le (timestamp x) (timestamp y)) eqn:E.
    + constructor; [assumption|]. constructor. now apply num_le_iff.
    + inversion Hs as [|? ? Hl Hhd]; subst.
      constructor; [now apply IH|].
      apply insert_by_timestamp_HdRel; [|assumption].
      apply num_le_false_iff in E. unfold ts_le. now apply Qlt_le_weak.
Qed.

Lemma sort_by_timestamp_sorted l : nondecreasing (sort_by_timestamp l).
Proof.
  induction l as [|x l IH]; simpl.
  - constructor.
  - now apply insert_by_timestamp_sorted.
Qed.

(** Stability: an array already in order is left as it is. *)
Lemma sort_by_timestamp_id l : nondecreasing l -> sort_by_timestamp l = l.
Proof.
  unfold nondecreasing.
  induction l as [|x l IH]; simpl; intros Hs; [reflexivity|].
  inversion Hs as [|? ? Hl Hhd]; subst.
  rewrite (IH Hl).
  destruct Hhd as [|y l' Hxy]; simpl; [reflexivity|].
  apply num_le_iff in Hxy. now rewrite Hxy.
Qed.

(** Stability: an element not after any other stays in front. *)
Lemma sort_by_timestamp_head x l :
  Forall (ts_le x) l ->
  sort_by_timestamp (x :: l) = x :: sort_by_timestamp l.
Proof.
  intros Hall. simpl.
  assert (Hs : Forall (ts_le x) (sort_by_timestamp l)).
  { rewrite Forall_forall in *. intros e He. apply Hall.
    now apply sort_by_timestamp_In. }
  destruct (sort_by_timestamp l) as [|y l']; simpl; [reflexivity|].
  inversion Hs as [|? ? Hxy _]; subst.
  apply num_le_iff in Hxy. now rewrite Hxy.
Qed.

Lemma ts_le_trans a b c : ts_le a b -> ts_le b c -> ts_le a c.
Proof. unfold ts_le. apply Qle_trans. Qed.

Lemma nondecreasing_Forall x l :
  nondecreasing (x :: l) -> Forall (ts_le x) l.
Proof.
  intros Hs. apply Sorted_StronglySorted in Hs.
  - now inversion Hs.
  - intros a b c. apply ts_le_trans.
Qed.

Lemma nondecreasing_tail x l : nondecreasing (x :: l) -> nondecreasing l.
Proof. intros Hs. now inversion Hs. Qed.

(** ** The scan of cutRecording *)

Lemma closest_step_inv c scanned st e :
  closest_inv c scanned st ->
  closest_inv c (scanned ++ [e]) (closest_step c st e).
Proof.
  unfold closest_step. intros Hinv.
  destruct (type e =? 2)%Z eqn:Et.
  - apply Z.eqb_eq in Et.
    destruct st as [[s d]|]; cbn [closest_inv] in *.
    + destruct Hinv as (pre & post & -> & Hs & Hd & Hpre & Hpost).
      destruct (num_lt (Qabs (timestamp e - c)) d) eqn:El;
        cbn [closest_inv].
      * apply num_lt_iff in El.
        exists (pre ++ s :: post), [].
        split; [reflexivity|]. split; [assumption|].
        split; [reflexivity|]. split.
        -- intros k Hk Hk2. apply in_app_or in Hk.
           destruct Hk as [Hk|[<-|Hk]].
           ++ eapply Qlt_trans; [exact El|]. now apply Hpre.
           ++ now rewrite <- Hd.
           ++ eapply Qlt_le_trans; [exact El|]. now apply Hpost.
        -- intros k [].
      * apply num_lt_false_iff in El.
        exists pre, (post ++ [e]).
        split; [now rewrite <- app_assoc|]. split; [assumption|].
        split; [assumption|]. split; [assumption|].
        intros k Hk Hk2. apply in_app_or in Hk.
        destruct Hk as [Hk|[<-|[]]]; auto.
    + exists scanned, [].
      split; [reflexivity|]. split; [assumption|].
      split; [reflexivity|]. split.
      * intros k Hk Hk2. exfalso. now apply (Hinv k).
      * intros k [].
  - apply Z.eqb_neq in Et.
    destruct st as [[s d]|]; cbn [closest_inv] in *.
    + destruct Hinv as (pre & post & -> & Hs & Hd & Hpre & Hpost).
      exists pre, (post ++ [e]).
      split; [now rewrite <- app_assoc|]. split; [assumption|].
      split; [assumption|]. split; [assumption|].
      intros k Hk Hk2. apply in_app_or in Hk.
      destruct Hk as [Hk|[<-|[]]]; auto. contradiction.
    + intros k Hk. apply in_app_or in Hk.
      destruct Hk as [Hk|[<-|[]]]; auto.
Qed.

Lemma closest_fold_inv c l : forall scanned st,
  closest_inv c scanned st ->
  closest_inv c (scanned ++ l) (fold_left (closest_step c) l st).
Proof.
  induction l as [|e l IH]; intros scanned st Hinv; simpl.
  - now rewrite app_nil_r.
  - replace (scanned ++ e :: l) with ((scanned ++ [e]) ++ l)
      by (now rewrite <- app_assoc).
    apply IH. now apply closest_step_inv.
Qed.

Lemma closestFullSnapshot_inv events c :
  closest_inv c events (closestFullSnapshot events c).
Proof.
  unfold closestFullSnapshot.
  apply (closest_fold_inv c events [] None).
  intros k [].
Qed.

Lemma with_timestamp_same e : with_timestamp e (timestamp e) = e.
Proof. now destruct e. Qed.

Lemma map_with_timestamp_same l :
  map (fun e => with_timestamp e (timestamp e)) l = l.
Proof.
  induction l as [|e l IH]; simpl; [reflexivity|].
  now rewrite with_timestamp_same, IH.
Qed.

Section CutRecording.

Variable href : string.

(** The array [newEvents] of cutRecording before the final sort. *)
Lemma cutRecording_selected first rest c b a s d :
  closestFullSnapshot (first :: rest)
    (timestamp first + c * 1000 - b * 1000) = Some (s, d) ->
  exists others filler,
    cutRecording href (first :: rest) c b a
      = Ok (sort_by_timestamp (s :: others ++ filler)) /\
    (forall e, In e others ->
       In e (first :: rest) /\
       Qmin (timestamp s) (timestamp first + c * 1000 - b * 1000)
         <= timestamp e /\
       timestamp e <= timestamp first + c * 1000 + a * 1000 /\
       (~ timestamp e == timestamp s \/ type e <> 2%Z)) /\
    (filler = [] /\ others <> [] \/
     others = [] /\
     filler = [mkEvent 4 (VObj [("href", VStr href)])
                       (timestamp s + 100) None]).
Proof.
  intros Hsel. unfold cutRecording. rewrite Hsel.
  cbv zeta. rewrite with_timestamp_same, map_with_timestamp_same.
  set (cutStart := timestamp first + c * 1000 - b * 1000).
  set (needed := filter _ (first :: rest)).
  set (others := filter _ needed).
  assert (Hothers : forall e, In e others ->
            In e (first :: rest) /\
            Qmin (timestamp s) cutStart <= timestamp e /\
            timestamp e <= timestamp first + c * 1000 + a * 1000 /\
            (~ timestamp e == timestamp s \/ type e <> 2%Z)).
  { intros e He. unfold others, needed in He.
    apply filter_In in He. destruct He as [He Hkeep].
    apply filter_In in He. destruct He as [He Hrange].
    apply andb_true_iff in Hrange. destruct Hrange as [H1 H2].
    apply num_le_iff in H1. apply num_le_iff in H2.
    split; [assumption|]. split; [assumption|]. split; [assumption|].
    apply orb_true_iff in Hkeep. destruct Hkeep as [Hk|Hk].
    - left. apply negb_true_iff in Hk. now apply num_eq_false_iff.
    - right. apply negb_true_iff in Hk. now apply Z.eqb_neq. }
  destruct others as [|o others'] eqn:Eo.
  - exists [], [mkEvent 4 (VObj [("href", VStr href)])
                        (timestamp s + 100) None].
    simpl. split; [reflexivity|]. split; [intros e []|]. now right.
  - exists (o :: others'), []. rewrite app_nil_r.
    split; [reflexivity|]. split; [assumption|]. left. split; congruence.
Qed.

End CutRecording.

(** ** Errors that a computation can raise *)

Lemma raises_only_bind {A B : Type} (P : error -> Prop)
    (m : result A) (k : A -> result B) :
  raises_only P m -> (forall a, m = Ok a -> raises_only P (k a)) ->
  raises_only P (bind m k).
Proof.
  destruct m as [a|e]; simpl; intros Hm Hk; [now apply Hk | assumption].
Qed.

Lemma raises_only_mapM {A B : Type} (P : error -> Prop)
    (f : A -> result B) (l : list A) :
  (forall a, In a l -> raises_only P (f a)) -> raises_only P (mapM f l).
Proof.
  induction l as [|a l IH]; simpl; intros Hf; [exact I|].
  apply raises_only_bind; [apply Hf; now left|].
  intros b _. apply raises_only_bind; [apply IH; intros; apply Hf; now right|].
  intros bs _. exact I.
Qed.

Lemma mapM_Ok {A B : Type} (f : A -> result B) (g : A -> B) (l : list A) :
  (forall a, In a l -> f a = Ok (g a)) -> mapM f l = Ok (map g l).
Proof.
  induction l as [|a l IH]; simpl; intros Hf; [reflexivity|].
  rewrite (Hf a) by now left. simpl.
  rewrite IH by (intros; apply Hf; now right). reflexivity.
Qed.

Lemma mapM_length {A B : Type} (f : A -> result B) (l : list A) :
  forall bs, mapM f l = Ok bs -> List.length bs = List.length l.
Proof.
  induction l as [|a l IH]; simpl; intros bs H.
  - injection H as <-. reflexivity.
  - destruct (f a) as [b|]; [|discriminate]. simpl in H.
    destruct (mapM f l) as [bs'|]; [|discriminate]. simpl in H.
    injection H as <-. simpl. now rewrite (IH bs' eq_refl).
Qed.

Lemma mapM_In {A B : Type} (f : A -> result B) (l : list A) :
  forall bs a, mapM f l = Ok bs -> In a l ->
  exists b, f a = Ok b /\ In b bs.
Proof.
  induction l as [|x l IH]; simpl; intros bs a H Ha; [destruct Ha|].
  destruct (f x) as [b|] eqn:Hb; [|discriminate]. simpl in H.
  destruct (mapM f l) as [bs'|]; [|discriminate]. simpl in H.
  injection H as <-. destruct Ha as [<-|Ha].
  - exists b. split; [assumption|now left].
  - destruct (IH bs' a eq_refl Ha) as (b' & Hb' & Hin).
    exists b'. split; [assumption|now right].
Qed.

(** ** Order-preserving list operations *)

Lemma nondecreasing_strongly l :
  nondecreasing l <-> StronglySorted ts_le l.
Proof.
  split.
  - apply Sorted_StronglySorted. intros a b c. apply ts_le_trans.
  - apply StronglySorted_Sorted.
Qed.

Lemma StronglySorted_filter_ts (f : event -> bool) l :
  StronglySorted ts_le l -> StronglySorted ts_le (filter f l).
Proof.
  induction 1 as [|x l Hl IH Hx]; simpl; [constructor|].
  destruct (f x); [|assumption].
  constructor; [assumption|].
  rewrite Forall_forall in *. intros e He. apply Hx.
  apply filter_In in He. tauto.
Qed.

Lemma nondecreasing_filter (f : event -> bool) l :
  nondecreasing l -> nondecreasing (filter f l).
Proof.
  rewrite !nondecreasing_strongly. apply StronglySorted_filter_ts.
Qed.

(** Re-timestamping by a monotone function keeps the order. *)
Lemma nondecreasing_map (g : event -> event) l :
  (forall a b, In a l -> In b l -> ts_le a b -> ts_le (g a) (g b)) ->
  nondecreasing l -> nondecreasing (map g l).
Proof.
  rewrite !nondecreasing_strongly. intros Hg Hs.
  induction Hs as [|x l Hl IH Hx]; simpl; [constructor|].
  constructor.
  - apply IH. intros a b Ha Hb. apply Hg; now right.
  - rewrite Forall_forall in *. intros e He.
    apply in_map_iff in He. destruct He as (a & <- & Ha).
    apply Hg; [now left | now right | now apply Hx].
Qed.

Lemma last_cons_default {A : Type} (x d d' : A) l :
  last (x :: l) d = last (x :: l) d'.
Proof.
  revert x. induction l as [|y l IH]; intros x; [reflexivity|].
  change (last (x :: y :: l) d) with (last (y :: l) d).
  change (last (x :: y :: l) d') with (last (y :: l) d').
  apply IH.
Qed.

Lemma last_In {A : Type} (x d : A) l : In (last (x :: l) d) (x :: l).
Proof.
  revert x. induction l as [|y l IH]; intros x; [now left|].
  change (last (x :: y :: l) d) with (last (y :: l) d).
  right. apply IH.
Qed.

Lemma nondecreasing_last first l :
  nondecreasing (first :: l) ->
  forall e, In e (first :: l) ->
            timestamp e <= timestamp (last (first :: l) first).
Proof.
  rewrite nondecreasing_strongly.
  revert first. induction l as [|x l IH]; intros first Hs e He.
  - destruct He as [<-|[]]. simpl. apply Qle_refl.
  - inversion Hs as [|? ? Hl Hx]; subst.
    change (last (first :: x :: l) first) with (last (x :: l) first).
    rewrite (last_cons_default x first x).
    destruct He as [<-|He].
    + eapply Qle_trans; [|apply (IH x Hl x); now left].
      rewrite Forall_forall in Hx. apply Hx. now left.
    + now apply IH.
Qed.

Lemma nondecreasing_first first l :
  nondecreasing (first :: l) ->
  forall e, In e (first :: l) -> timestamp first <= timestamp e.
Proof.
  intros Hs e [<-|He]; [apply Qle_refl|].
  apply nondecreasing_Forall in Hs. rewrite Forall_forall in Hs.
  now apply Hs.
Qed.

(** ** The reconstruction path of trimRecording *)

Section TrimRecording.

Variable href : string.
Variable replay_and_snapshot : list event -> Q -> result value.

Lemma buildTrimmed_shape events startMs endMs snap :
  buildTrimmed href events startMs endMs snap
  = metaEventFor href events snap
      :: with_timestamp snap 1
      :: sort_by_timestamp
           (map (fun e => with_timestamp e (timestamp e - startMs + 2))
              (filter (fun e => num_lt startMs (timestamp e)
                                && num_le (timestamp e) endMs) events)).
Proof.
  unfold buildTrimmed. cbv zeta.
  set (adjusted := map _ (filter _ events)).
  assert (Hadj : forall e, In e adjusted -> 2 < timestamp e).
  { intros e He. unfold adjusted in He.
    apply in_map_iff in He. destruct He as (o & <- & Ho).
    apply filter_In in Ho. destruct Ho as [_ Ho].
    apply andb_true_iff in Ho. destruct Ho as [Ho _].
    apply num_lt_iff in Ho. simpl. lra. }
  rewrite sort_by_timestamp_head.
  - rewrite sort_by_timestamp_head; [reflexivity|].
    apply Forall_forall. intros e He.
    specialize (Hadj e He). unfold ts_le. simpl. lra.
  - apply Forall_forall. intros e [<-|He]; unfold ts_le; simpl.
    + lra.
    + specialize (Hadj e He). lra.
Qed.

Lemma find_filter_first {A : Type} (p q : A -> bool) (l : list A) :
  match find p (filter q l) with
  | Some x =>
      exists pre post,
        l = pre ++ x :: post /\ q x = true /\ p x = true /\
        forall e, In e pre -> q e = true -> p e = false
  | None => forall e, In e l -> q e = true -> p e = false
  end.
Proof.
  induction l as [|a l IH]; simpl; [intros e []|].
  destruct (q a) eqn:Eq; simpl.
  - destruct (p a) eqn:Ep.
    + exists [], l. split; [reflexivity|]. split; [assumption|].
      split; [assumption|]. intros e [].
    + destruct (find p (filter q l)) as [x|].
      * destruct IH as (pre & post & -> & Hq & Hp & Hpre).
        exists (a :: pre), post. split; [reflexivity|].
        split; [assumption|]. split; [assumption|].
        intros e [<-|He] Hqe; auto.
      * intros e [<-|He] Hqe; auto.
  - destruct (find p (filter q l)) as [x|].
    + destruct IH as (pre & post & -> & Hq & Hp & Hpre).
      exists (a :: pre), post. split; [reflexivity|].
      split; [assumption|]. split; [assumption|].
      intros e [<-|He] Hqe; [congruence|auto].
    + intros e [<-|He] Hqe; [congruence|auto].
Qed.

(** The exact match is taken only from the first full snapshot within one
    second of [startMs]: a snapshot at [startMs] behind another one less
    than a second away is not found. *)
Lemma exactSnapshot_spec events startMs :
  match exactSnapshot events startMs with
  | Some k =>
      exists pre post,
        events = pre ++ k :: post /\ type k = 2%Z /\
        timestamp k == startMs /\
        forall e, In e pre -> type e = 2%Z ->
                  1000 <= Qabs (timestamp e - startMs)
  | None =>
      (forall e, In e events -> type e = 2%Z ->
                 1000 <= Qabs (timestamp e - startMs)) \/
      exists pre c post,
        events = pre ++ c :: post /\ type c = 2%Z /\
        Qabs (timestamp c - startMs) < 1000 /\
        ~ timestamp c == startMs /\
        forall e, In e pre -> type e = 2%Z ->
                  1000 <= Qabs (timestamp e - startMs)
  end.
Proof.
  unfold exactSnapshot.
  pose proof (find_filter_first
                (fun s => num_lt (Qabs (timestamp s - startMs)) 1000)
                (fun e => (type e =? 2)%Z) events) as H.
  cbv beta in H.
  destruct (find _ (filter _ events)) as [c|].
  - destruct H as (pre & post & Hev & Ht & Hc & Hpre).
    apply Z.eqb_eq in Ht. apply num_lt_iff in Hc.
    assert (Hpre' : forall e, In e pre -> type e = 2%Z ->
                      1000 <= Qabs (timestamp e - startMs)).
    { intros e He Het. apply num_lt_false_iff, Hpre; [assumption|].
      now apply Z.eqb_eq. }
    destruct (num_eq (timestamp c) startMs) eqn:Ee.
    + apply num_eq_iff in Ee. now exists pre, post.
    + apply num_eq_false_iff in Ee. right. now exists pre, c, post.
  - left. intros e He Het. apply num_lt_false_iff, H; [assumption|].
    now apply Z.eqb_eq.
Qed.

Lemma exactSnapshot_Some events startMs snap :
  exactSnapshot events startMs = Some snap ->
  In snap events /\ type snap = 2%Z /\ timestamp snap == startMs.
Proof.
  unfold exactSnapshot.
  destruct (find _ (filter _ events)) as [c|] eqn:Hf; [|discriminate].
  destruct (num_eq (timestamp c) startMs) eqn:He; [|discriminate].
  intros [= <-]. apply find_some in Hf. destruct Hf as [Hin _].
  apply filter_In in Hin. destruct Hin as [Hin Ht].
  apply Z.eqb_eq in Ht. apply num_eq_iff in He. auto.
Qed.

Lemma createTrueSyntheticSnapshot_Ok events target snap :
  createTrueSyntheticSnapshot replay_and_snapshot events target = Ok snap ->
  type snap = 2%Z /\ timestamp snap = target.
Proof.
  unfold createTrueSyntheticSnapshot.
  destruct events as [|first rest]; [discriminate|].
  destruct (replay_and_snapshot _ _) as [dom|err]; simpl; [|discriminate].
  destruct (truthy dom); [|discriminate].
  intros [= <-]. auto.
Qed.

Lemma boundarySnapshot_type events startMs snap :
  boundarySnapshot replay_and_snapshot events startMs = Ok snap ->
  type snap = 2%Z.
Proof.
  unfold boundarySnapshot.
  destruct (exactSnapshot events startMs) as [c|] eqn:He.
  - intros [= <-]. now apply exactSnapshot_Some in He.
  - intros H. now apply createTrueSyntheticSnapshot_Ok in H.
Qed.

Lemma trimRecording_unfold first rest startMs endMs :
  let events := first :: rest in
  let startMs' := clampStart (timestamp first) startMs in
  let endMs' := clampEnd (timestamp (last events first)) endMs in
  trimRecording href replay_and_snapshot events startMs endMs
  = if num_le endMs' startMs' then Throw (InvalidTimeRange startMs' endMs')
    else match boundarySnapshot replay_and_snapshot events startMs' with
         | Ok snap => Ok (buildTrimmed href events startMs' endMs' snap)
         | Throw _ => trimRecordingFallback events startMs' endMs'
         end.
Proof.
  intros events startMs' endMs'. unfold trimRecording, events. cbv zeta.
  fold events. fold startMs' endMs'.
  destruct (num_le endMs' startMs'); [reflexivity|].
  destruct (boundarySnapshot _ _ _); reflexivity.
Qed.

(** When the exact match is found the replay is not consulted. *)
Lemma trimRecording_exact replay first rest startMs endMs snap :
  exactSnapshot (first :: rest) (clampStart (timestamp first) startMs)
  = Some snap ->
  trimRecording href replay (first :: rest) startMs endMs
  = trimRecording href replay_and_snapshot (first :: rest) startMs endMs.
Proof.
  intros Hexact.
  pose proof (trimRecording_unfold first rest startMs endMs) as Hu.
  cbv zeta in Hu. rewrite Hu. clear Hu.
  unfold trimRecording. cbv zeta. unfold boundarySnapshot.
  rewrite Hexact. reflexivity.
Qed.

End TrimRecording.

(** ** The base snapshot of the fallback *)

(** A loop that overwrites its result at every element satisfying [p]
    ends with the last such element. *)
Lemma fold_left_last {A : Type} (p : A -> bool) (l : list A) :
  match fold_left (fun st x => if p x then Some x else st) l None with
  | None => forall x, In x l -> p x = false
  | Some x =>
      exists pre post,
        l = pre ++ x :: post /\ p x = true /\
        forall y, In y post -> p y = false
  end.
Proof.
  induction l as [|a l IH] using rev_ind; simpl.
  - intros x [].
  - rewrite fold_left_app. simpl.
    destruct (p a) eqn:Ea.
    + exists l, []. split; [reflexivity|]. split; [assumption|].
      intros y [].
    + destruct (fold_left _ l None) as [x|].
      * destruct IH as (pre & post & -> & Hx & Hpost).
        exists pre, (post ++ [a]). rewrite <- app_assoc.
        split; [reflexivity|]. split; [assumption|].
        intros y Hy. apply in_app_or in Hy.
        destruct Hy as [Hy|[<-|[]]]; auto.
      * intros x Hx. apply in_app_or in Hx.
        destruct Hx as [Hx|[<-|[]]]; auto.
Qed.

Lemma fullSnapshotsFrom_In i events s k :
  In (s, k) (fullSnapshotsFrom i events) ->
  type s = 2%Z /\ (i <= k)%nat /\ nth_error events (k - i) = Some s.
Proof.
  revert i. induction events as [|e rest IH]; intros i; simpl; [tauto|].
  assert (Hrest : In (s, k) (fullSnapshotsFrom (S i) rest) ->
                  type s = 2%Z /\ (i <= k)%nat /\
                  nth_error (e :: rest) (k - i) = Some s).
  { intros H. apply IH in H. destruct H as (Ht & Hk & Hn).
    split; [assumption|]. split; [lia|].
    replace (k - i)%nat with (S (k - S i)) by lia. exact Hn. }
  destruct (type e =? 2)%Z eqn:Et; [|exact Hrest].
  intros [[= <- <-]|H]; [|now apply Hrest].
  apply Z.eqb_eq in Et. rewrite Nat.sub_diag. auto.
Qed.

Lemma fullSnapshotsFrom_complete i events s :
  In s events -> type s = 2%Z ->
  exists k, In (s, k) (fullSnapshotsFrom i events).
Proof.
  revert i. induction events as [|e rest IH]; intros i; simpl; [tauto|].
  intros [<-|Hin] Ht.
  - apply Z.eqb_eq in Ht. rewrite Ht. exists i. now left.
  - destruct (IH (S i) Hin Ht) as [k Hk]. exists k.
    destruct (type e =? 2)%Z; [now right | assumption].
Qed.

Lemma fullSnapshotsFrom_nil i events :
  fullSnapshotsFrom i events = [] <-> forall e, In e events -> type e <> 2%Z.
Proof.
  split.
  - intros Hnil e He Ht.
    destruct (fullSnapshotsFrom_complete i events e He Ht) as [k Hk].
    now rewrite Hnil in Hk.
  - intros Hno. destruct (fullSnapshotsFrom i events) as [|[s k] l] eqn:E;
      [reflexivity|].
    assert (Hin : In (s, k) (fullSnapshotsFrom i events))
      by (rewrite E; now left).
    apply fullSnapshotsFrom_In in Hin. destruct Hin as (Ht & _ & Hn).
    apply nth_error_In in Hn. now apply Hno in Hn.
Qed.

(** The head of [fullSnapshots] is the first type-2 event of the log. *)
Lemma fullSnapshotsFrom_hd i events s k :
  hd_error (fullSnapshotsFrom i events) = Some (s, k) ->
  exists pre post,
    events = pre ++ s :: post /\ type s = 2%Z /\
    (forall e, In e pre -> type e <> 2%Z) /\ k = (i + List.length pre)%nat.
Proof.
  revert i. induction events as [|e rest IH]; intros i; simpl; [discriminate|].
  destruct (type e =? 2)%Z eqn:Et.
  - simpl. intros [= <- <-]. apply Z.eqb_eq in Et.
    exists [], rest. simpl. split; [reflexivity|]. split; [assumption|].
    split; [intros x []|lia].
  - intros H. apply IH in H.
    destruct H as (pre & post & -> & Ht & Hpre & ->).
    exists (e :: pre), post. simpl. split; [reflexivity|].
    split; [assumption|]. split; [|lia].
    intros x [<-|Hx]; [now apply Z.eqb_neq | now apply Hpre].
Qed.

Lemma fullSnapshotsFrom_sorted i events :
  nondecreasing events ->
  StronglySorted snap_le (fullSnapshotsFrom i events).
Proof.
  rewrite nondecreasing_strongly. intros Hs. revert i.
  induction Hs as [|e rest Hrest IH He]; intros i; simpl; [constructor|].
  destruct (type e =? 2)%Z; [|apply IH].
  constructor; [apply IH|].
  apply Forall_forall. intros [s k] Hin.
  apply fullSnapshotsFrom_In in Hin. destruct Hin as (_ & _ & Hn).
  apply nth_error_In in Hn. rewrite Forall_forall in He.
  unfold snap_le. simpl. now apply He.
Qed.

Lemma StronglySorted_app_inv {A : Type} (R : A -> A -> Prop) pre x post :
  StronglySorted R (pre ++ x :: post) ->
  (forall y, In y pre -> R y x) /\ (forall y, In y post -> R x y).
Proof.
  induction pre as [|a pre IH]; simpl; intros Hs.
  - inversion Hs as [|? ? _ Hx]; subst. rewrite Forall_forall in Hx.
    split; [intros y []|assumption].
  - inversion Hs as [|? ? Hrest Ha]; subst.
    destruct (IH Hrest) as [Hpre Hpost]. split; [|assumption].
    intros y [<-|Hy]; [|now apply Hpre].
    rewrite Forall_forall in Ha. apply Ha. apply in_or_app. right. now left.
Qed.

Lemma within_threshold_fold startMs fs :
  match fold_left (within_threshold_step startMs) fs None with
  | None => forall si, In si fs -> ~ in_window startMs si
  | Some b =>
      exists pre post,
        fs = pre ++ b :: post /\ in_window startMs b /\
        forall si, In si post -> ~ in_window startMs si
  end.
Proof.
  pose proof (fold_left_last
    (fun si : event * nat =>
       num_le (timestamp (fst si)) startMs
       && num_le (startMs - threshold) (timestamp (fst si))) fs) as H.
  assert (Hp : forall si : event * nat,
    num_le (timestamp (fst si)) startMs
    && num_le (startMs - threshold) (timestamp (fst si)) = true
    <-> in_window startMs si).
  { intros si. unfold in_window.
    now rewrite andb_true_iff, !num_le_iff. }
  change (fold_left (within_threshold_step startMs) fs None)
    with (fold_left (fun st (si : event * nat) =>
            if num_le (timestamp (fst si)) startMs
               && num_le (startMs - threshold) (timestamp (fst si))
            then Some si else st) fs None).
  destruct (fold_left _ fs None) as [b|].
  - destruct H as (pre & post & Hfs & Hb & Hpost).
    exists pre, post. split; [assumption|]. split; [now apply Hp|].
    intros si Hsi Hw. apply Hp in Hw. rewrite (Hpost si Hsi) in Hw.
    discriminate.
  - intros si Hsi Hw. apply Hp in Hw. rewrite (H si Hsi) in Hw.
    discriminate.
Qed.

Lemma before_start_fold startMs fs :
  match fold_left (before_start_step startMs) fs None with
  | None => forall si, In si fs -> startMs < timestamp (fst si)
  | Some b =>
      exists pre post,
        fs = pre ++ b :: post /\ timestamp (fst b) <= startMs /\
        forall si, In si post -> startMs < timestamp (fst si)
  end.
Proof.
  pose proof (fold_left_last
    (fun si : event * nat => num_le (timestamp (fst si)) startMs) fs) as H.
  change (fold_left (before_start_step startMs) fs None)
    with (fold_left (fun st (si : event * nat) =>
            if num_le (timestamp (fst si)) startMs
            then Some si else st) fs None).
  destruct (fold_left _ fs None) as [b|].
  - destruct H as (pre & post & Hfs & Hb & Hpost).
    exists pre, post. split; [assumption|].
    split; [now apply num_le_iff|].
    intros si Hsi. apply num_le_false_iff. now apply Hpost.
  - intros si Hsi. apply num_le_false_iff. now apply H.
Qed.

(** The three tiers of the selection, on snapshots in timestamp order. *)
Lemma selectBaseSnapshot_spec fs startMs :
  StronglySorted snap_le fs ->
  match selectBaseSnapshot fs startMs with
  | None => fs = []
  | Some b =>
      In b fs /\
      ((exists si, In si fs /\ in_window startMs si) ->
       in_window startMs b /\
       forall si, In si fs -> timestamp (fst si) <= startMs -> snap_le si b) /\
      ((forall si, In si fs -> ~ in_window startMs si) ->
       (exists si, In si fs /\ timestamp (fst si) <= startMs) ->
       timestamp (fst b) <= startMs /\
       forall si, In si fs -> timestamp (fst si) <= startMs -> snap_le si b) /\
      ((forall si, In si fs -> startMs < timestamp (fst si)) ->
       hd_error fs = Some b)
  end.
Proof.
  intros Hsorted. unfold selectBaseSnapshot.
  pose proof (within_threshold_fold startMs fs) as H1.
  pose proof (before_start_fold startMs fs) as H2.
  destruct (fold_left (within_threshold_step startMs) fs None) as [b|].
  - destruct H1 as (pre & post & Hfs & Hb & Hpost).
    assert (Hin : In b fs) by (rewrite Hfs; apply in_or_app; right; now left).
    rewrite Hfs in Hsorted.
    destruct (StronglySorted_app_inv _ _ _ _ Hsorted) as [Hpre Hpo].
    split; [assumption|]. split; [|split].
    + intros _. split; [assumption|].
      intros si Hsi Hle. rewrite Hfs in Hsi. apply in_app_or in Hsi.
      destruct Hsi as [Hsi|[<-|Hsi]].
      * now apply Hpre.
      * apply Qle_refl.
      * exfalso. apply (Hpost si Hsi). split; [assumption|].
        destruct Hb as [_ Hb]. specialize (Hpo si Hsi).
        unfold snap_le in Hpo. lra.
    + intros Hno. exfalso. now apply (Hno b).
    + intros Hall. specialize (Hall b Hin). destruct Hb as [Hb _]. lra.
  - destruct (fold_left (before_start_step startMs) fs None) as [b|].
    + destruct H2 as (pre & post & Hfs & Hb & Hpost).
      assert (Hin : In b fs)
        by (rewrite Hfs; apply in_or_app; right; now left).
      rewrite Hfs in Hsorted.
      destruct (StronglySorted_app_inv _ _ _ _ Hsorted) as [Hpre Hpo].
      split; [assumption|]. split; [|split].
      * intros (si & Hsi & Hw). exfalso. now apply (H1 si).
      * intros _ _. split; [assumption|].
        intros si Hsi Hle. rewrite Hfs in Hsi. apply in_app_or in Hsi.
        destruct Hsi as [Hsi|[<-|Hsi]].
        -- now apply Hpre.
        -- apply Qle_refl.
        -- specialize (Hpost si Hsi). lra.
      * intros Hall. specialize (Hall b Hin). lra.
    + destruct fs as [|b fs']; simpl; [reflexivity|].
      split; [now left|]. split; [|split].
      * intros (si & Hsi & Hw). exfalso. now apply (H1 si).
      * intros _ (si & Hsi & Hle). specialize (H2 si Hsi). lra.
      * reflexivity.
Qed.

(** ** The walk and the shift of the fallback *)

Lemma mapM_Forall2 {A B : Type} (f : A -> result B) (l : list A) :
  (forall a, In a l -> exists b, f a = Ok b) ->
  exists bs, mapM f l = Ok bs /\ Forall2 (fun a b => f a = Ok b) l bs.
Proof.
  induction l as [|a l IH]; simpl; intros Hf.
  - exists []. split; [reflexivity|constructor].
  - destruct (Hf a) as [b Hb]; [now left|].
    destruct IH as (bs & Hbs & Hall); [intros; apply Hf; now right|].
    exists (b :: bs). rewrite Hb, Hbs. simpl.
    split; [reflexivity|]. now constructor.
Qed.

Lemma truthy_get_prop v k :
  truthy v = true -> exists w, get_prop v k = Ok w.
Proof.
  destruct v; simpl; try discriminate; intros _; eexists; reflexivity.
Qed.

Lemma collectEvents_Ok startMs endMs l :
  exists kept,
    collectEvents startMs endMs l = Ok kept /\
    (List.length kept <= List.length l)%nat /\
    forall e, In e kept -> kept_event startMs endMs l e.
Proof.
  induction l as [|e rest IH]; simpl.
  - exists []. split; [reflexivity|]. split; [simpl; lia|]. intros e [].
  - destruct IH as (kept & Hk & Hlen & Hall).
    assert (Hall' : forall x, In x kept ->
              kept_event startMs endMs (e :: rest) x).
    { intros x Hx. destruct (Hall x Hx) as (H1 & H2 & H3 & H4).
      split; [now right|]. auto. }
    destruct (num_lt endMs (timestamp e)) eqn:Eend.
    { exists []. split; [reflexivity|]. split; [simpl; lia|]. intros x []. }
    apply num_lt_false_iff in Eend.
    destruct (type e =? 2)%Z eqn:Et.
    { exists kept. split; [assumption|]. split; [lia|]. assumption. }
    apply Z.eqb_neq in Et.
    destruct (num_lt (timestamp e) startMs) eqn:Es.
    + apply num_lt_iff in Es. unfold isMutation.
      destruct (type e =? 3)%Z eqn:E3.
      * apply Z.eqb_eq in E3.
        destruct (truthy (data e)) eqn:Etr.
        -- destruct (truthy_get_prop _ "source" Etr) as [src Hsrc].
           rewrite Hsrc, Hk. simpl.
           destruct (is_zero src) eqn:Ez.
           ++ exists (e :: kept). split; [reflexivity|].
              split; [simpl; lia|].
              intros x [<-|Hx]; [|now apply Hall'].
              split; [now left|]. split; [assumption|].
              split; [assumption|]. intros _. split; [assumption|].
              now exists src.
           ++ exists kept. split; [reflexivity|]. split; [lia|]. assumption.
        -- rewrite Hk. simpl. exists kept.
           split; [reflexivity|]. split; [lia|]. assumption.
      * rewrite Hk. simpl. exists kept.
        split; [reflexivity|]. split; [lia|]. assumption.
    + apply num_lt_false_iff in Es. rewrite Hk. simpl.
      exists (e :: kept). split; [reflexivity|]. split; [simpl; lia|].
      intros x [<-|Hx]; [|now apply Hall'].
      split; [now left|]. split; [assumption|]. split; [assumption|].
      intros Hlt. lra.
Qed.

Lemma sorted_skipn l : forall i x,
  StronglySorted ts_le l -> nth_error l i = Some x ->
  Forall (ts_le x) (skipn (S i) l).
Proof.
  induction l as [|a l IH]; intros i x Hs Hn.
  - destruct i; discriminate.
  - inversion Hs as [|? ? Hl Ha]; subst.
    destruct i as [|i]; simpl in *.
    + now injection Hn as <-.
    + destruct l as [|b l']; [destruct i; discriminate|].
      now apply IH.
Qed.

Lemma In_skipn {A : Type} (x : A) n l : In x (skipn n l) -> In x l.
Proof.
  revert l. induction n as [|n IH]; intros l; simpl; [auto|].
  destruct l as [|a l]; [auto|]. intros H. right. now apply IH.
Qed.

(** A shift that does not compress. *)
Lemma shiftEvent_plain startMs timeShift baseTime e :
  type e <> 3%Z \/ startMs <= timestamp e ->
  shiftEvent startMs timeShift baseTime e
  = Ok (with_timestamp e (timestamp e - startMs + 100)).
Proof.
  unfold shiftEvent. intros [Ht|Hs].
  - apply Z.eqb_neq in Ht. rewrite Ht.
    destruct (num_lt (timestamp e) startMs); reflexivity.
  - apply num_lt_false_iff in Hs. now rewrite Hs.
Qed.

(** A shift that compresses, away from the zero [timeShift]. *)
Lemma shiftEvent_compress startMs timeShift baseTime e src :
  timestamp e < startMs -> type e = 3%Z ->
  get_prop (data e) "source" = Ok src -> is_zero src = true ->
  ~ timeShift == 0 ->
  shiftEvent startMs timeShift baseTime e
  = Ok (with_timestamp e
          (Qmin ((timestamp e - baseTime) / timeShift) 1 * 100)).
Proof.
  unfold shiftEvent. intros Hs Ht Hsrc Hz Hshift.
  apply num_lt_iff in Hs. apply Z.eqb_eq in Ht.
  apply num_eq_false_iff in Hshift.
  rewrite Hs, Ht, Hsrc. simpl. rewrite Hz.
  unfold compressedTimestamp. rewrite Hshift. reflexivity.
Qed.

Lemma selectBaseSnapshot_In fs startMs b :
  selectBaseSnapshot fs startMs = Some b -> In b fs.
Proof.
  unfold selectBaseSnapshot.
  pose proof (within_threshold_fold startMs fs) as H1.
  pose proof (before_start_fold startMs fs) as H2.
  destruct (fold_left (within_threshold_step startMs) fs None) as [b1|].
  - intros [= <-]. destruct H1 as (pre & post & -> & _).
    apply in_or_app. right. now left.
  - destruct (fold_left (before_start_step startMs) fs None) as [b2|].
    + intros [= <-]. destruct H2 as (pre & post & -> & _).
      apply in_or_app. right. now left.
    + destruct fs; simpl; [discriminate|]. intros [= <-]. now left.
Qed.

Lemma selectBaseSnapshot_None fs startMs :
  selectBaseSnapshot fs startMs = None -> fs = [].
Proof.
  unfold selectBaseSnapshot.
  destruct (fold_left (within_threshold_step startMs) fs None);
    [discriminate|].
  destruct (fold_left (before_start_step startMs) fs None); [discriminate|].
  destruct fs; [reflexivity|discriminate].
Qed.



(** On a log in timestamp order the fallback returns: its output starts
    with the base snapshot, shifted like an in-range event, followed by
    the shifted [tail]: the Meta copy, the events kept by the walk, or the
    minimal event alone. *)
Lemma trimRecordingFallback_sorted_shape events startMs endMs base idx :
  nondecreasing events ->
  selectBaseSnapshot (fullSnapshotsFrom 0 events) startMs = Some (base, idx) ->
  exists tail rest,
    trimRecordingFallback events startMs endMs
    = Ok (with_timestamp base (timestamp base - startMs + 100) :: rest) /\
    (1 <= List.length rest <= List.length events)%nat /\
    Forall2 (fun e b => shiftEvent startMs (startMs - timestamp base)
                          (timestamp base) e = Ok b) tail rest /\
    forall e, In e tail ->
      (type e = 4%Z /\ timestamp e = timestamp base + 1) \/
      (kept_event startMs endMs (skipn (idx + 1) events) e /\
       timestamp base <= timestamp e) \/
      e = minimalEvent (timestamp base + 10).
Proof.
  intros Hsorted Hsel.
  pose proof (selectBaseSnapshot_In _ _ _ Hsel) as Hin.
  apply fullSnapshotsFrom_In in Hin. destruct Hin as (Hbt & _ & Hnth).
  rewrite Nat.sub_0_r in Hnth.
  unfold trimRecordingFallback. rewrite Hsel.
  destruct (collectEvents_Ok startMs endMs (skipn (idx + 1) events))
    as (kept & Hk & Hlen & Hall).
  rewrite Hk. cbn [bind]. cbv zeta.
  set (metaEvents := match find (fun e => (type e =? 4)%Z) events with
                     | Some m => [with_timestamp m (timestamp base + 1)]
                     | None => []
                     end).
  assert (Hmeta : forall e, In e metaEvents ->
            type e = 4%Z /\ timestamp e = timestamp base + 1).
  { intros e He. unfold metaEvents in He.
    destruct (find _ events) as [m|] eqn:Hf; [|destruct He].
    destruct He as [<-|[]]. apply find_some in Hf.
    destruct Hf as [_ Hf]. apply Z.eqb_eq in Hf. now split. }
  assert (Hmlen : (List.length metaEvents <= 1)%nat).
  { unfold metaEvents. destruct (find _ events); simpl; lia. }
  assert (Hafter : forall e, In e kept -> timestamp base <= timestamp e).
  { intros e He. destruct (Hall e He) as (Hes & _).
    apply nondecreasing_strongly in Hsorted.
    pose proof (sorted_skipn events idx base Hsorted Hnth) as Hf.
    rewrite Forall_forall in Hf. apply Hf.
    now replace (S idx) with (idx + 1)%nat by lia. }
  assert (Hklen : (List.length kept + 1 <= List.length events)%nat).
  { rewrite length_skipn in Hlen.
    assert (idx < List.length events)%nat
      by (apply nth_error_Some; congruence).
    lia. }
  rewrite with_timestamp_same.
  rewrite sort_by_timestamp_head.
  2:{ apply Forall_forall. intros e He. apply in_app_or in He.
      destruct He as [He|He]; unfold ts_le.
      - destruct (Hmeta e He) as [_ ->]. lra.
      - now apply Hafter. }
  set (X := sort_by_timestamp (metaEvents ++ kept)).
  assert (HX : forall e, In e X -> In e metaEvents \/ In e kept).
  { intros e He. unfold X in He.
    apply (proj1 (sort_by_timestamp_In _ _)) in He. now apply in_app_or. }
  assert (HXlen : (List.length X <= List.length events)%nat).
  { unfold X. rewrite sort_by_timestamp_length, length_app. lia. }
  assert (Hshift : forall e,
            In e metaEvents \/ In e kept \/
            e = minimalEvent (timestamp base + 10) ->
            exists b, shiftEvent startMs (startMs - timestamp base)
                        (timestamp base) e = Ok b).
  { intros e [He|[He| ->]].
    - destruct (Hmeta e He) as [Ht _].
      eexists. apply shiftEvent_plain. left. rewrite Ht. discriminate.
    - destruct (Hall e He) as (_ & _ & _ & Hpre).
      specialize (Hafter e He).
      destruct (Qlt_le_dec (timestamp e) startMs) as [Hlt|Hge].
      + destruct (Hpre Hlt) as (Ht & src & Hsrc & Hz).
        eexists. eapply shiftEvent_compress; eauto. lra.
      + eexists. apply shiftEvent_plain. now right.
    - destruct (Qlt_le_dec (timestamp base + 10) startMs) as [Hlt|Hge].
      + eexists. eapply shiftEvent_compress with (src := VNum 0);
          try reflexivity; simpl; [assumption|lra].
      + eexists. apply shiftEvent_plain. now right. }
  assert (Hbase : shiftEvent startMs (startMs - timestamp base)
                    (timestamp base) base
                  = Ok (with_timestamp base
                          (timestamp base - startMs + 100))).
  { apply shiftEvent_plain. left. rewrite Hbt. discriminate. }
  destruct X as [|x X'] eqn:EX.
  - cbn [List.length Nat.eqb app hd mapM].
    rewrite Hbase. cbn [bind].
    destruct (Hshift (minimalEvent (timestamp base + 10))) as [b Hb];
      [now right; right|].
    rewrite Hb. cbn [bind mapM List.length Nat.ltb Nat.leb].
    exists [minimalEvent (timestamp base + 10)], [b].
    split; [reflexivity|]. split.
    { simpl. assert (1 <= List.length events)%nat; [|lia].
      destruct events; [destruct idx; discriminate|simpl; lia]. }
    split; [repeat constructor; assumption|].
    intros e [<-|[]]. now right; right.
  - cbn [List.length Nat.eqb hd mapM].
    rewrite Hbase. cbn [bind].
    destruct (mapM_Forall2
                (shiftEvent startMs (startMs - timestamp base)
                   (timestamp base)) (x :: X'))
      as (bs & Hbs & Hf2).
    { intros e He. apply Hshift. destruct (HX e He); auto. }
    cbn [mapM] in Hbs. rewrite Hbs. cbn [bind].
    pose proof (Forall2_length Hf2) as Hlen2. simpl in Hlen2.
    destruct bs as [|b bs']; [discriminate|].
    cbn [List.length Nat.ltb Nat.leb].
    exists (x :: X'), (b :: bs'). split; [reflexivity|].
    split; [simpl in *; lia|]. split; [assumption|].
    intros e He. destruct (HX e He) as [Hm|Hkept].
    + left. now apply Hmeta.
    + right. left. split; [now apply Hall|now apply Hafter].
Qed.

Lemma trimRecordingFallback_sorted events startMs endMs base idx :
  nondecreasing events ->
  selectBaseSnapshot (fullSnapshotsFrom 0 events) startMs = Some (base, idx) ->
  exists rest,
    trimRecordingFallback events startMs endMs
    = Ok (with_timestamp base (timestamp base - startMs + 100) :: rest) /\
    (1 <= List.length rest <= List.length events)%nat.
Proof.
  intros Hsorted Hsel.
  destruct (trimRecordingFallback_sorted_shape events startMs endMs base idx
              Hsorted Hsel) as (tail & rest & Hfb & Hlen & _).
  now exists rest.
Qed.

Lemma shiftEvent_raises startMs timeShift baseTime e :
  raises_only not_range_error (shiftEvent startMs timeShift baseTime e).
Proof.
  unfold shiftEvent. apply raises_only_bind.
  - destruct (num_lt (timestamp e) startMs); [|exact I].
    destruct (type e =? 3)%Z; [|exact I].
    destruct (data e); simpl; try exact I; intros a b; discriminate.
  - intros [|] _; [|exact I].
    unfold compressedTimestamp.
    destruct (num_eq timeShift 0); [|exact I].
    destruct (num_lt 0 (timestamp e - baseTime)); [exact I|].
    intros a b. discriminate.
Qed.

Lemma trimRecordingFallback_raises events startMs endMs :
  raises_only not_range_error (trimRecordingFallback events startMs endMs).
Proof.
  unfold trimRecordingFallback.
  destruct (selectBaseSnapshot _ _) as [[base idx]|];
    [|intros a b; discriminate].
  destruct (collectEvents_Ok startMs endMs (skipn (idx + 1) events))
    as (kept & -> & _). cbn [bind]. cbv zeta.
  apply raises_only_bind.
  - apply raises_only_mapM. intros e _. apply shiftEvent_raises.
  - intros out _. destruct (_ <? 2)%nat; [|exact I].
    intros a b. discriminate.
Qed.



(** ** Substring search *)

Lemma prefix_spec t : forall s,
  String.prefix t s = true <-> exists post, s = (t ++ post)%string.
Proof.
  induction t as [|a t IH]; intros s.
  - split; [intros _; now exists s | intros _; now destruct s].
  - destruct s as [|b s]; simpl.
    + split; [discriminate | intros [post H]; discriminate].
    + destruct (ascii_dec a b) as [->|Hab].
      * rewrite IH. split; intros [post H]; exists post; congruence.
      * split; [discriminate|]. intros [post H]. congruence.
Qed.

Lemma includes_spec s : forall t,
  includes s t = true <->
  exists pre post, s = (pre ++ t ++ post)%string.
Proof.
  induction s as [|c s IH]; intros t.
  - cbn [includes]. rewrite orb_false_r, prefix_spec. split.
    + intros [post H]. now exists EmptyString, post.
    + intros (pre & post & H). destruct pre; [|discriminate].
      now exists post.
  - cbn [includes]. rewrite orb_true_iff, prefix_spec, IH. split.
    + intros [[post H]|(pre & post & H)].
      * now exists EmptyString, post.
      * exists (String c pre), post. simpl. now rewrite H.
    + intros (pre & post & H). destruct pre as [|c' pre].
      * left. now exists post.
      * right. exists pre, post. simpl in H. congruence.
Qed.

(** Linear arithmetic with durations, which divide by the constant 1000. *)
Ltac duration_lra :=
  unfold Qdiv in *; change (/ 1000) with (1 # 1000) in *; lra.

(** ** The clamped range *)

Lemma clampStart_ge recordingStart startMs :
  recordingStart <= clampStart recordingStart startMs /\
  startMs <= clampStart recordingStart startMs.
Proof.
  unfold clampStart. destruct (num_lt startMs recordingStart) eqn:E.
  - apply num_lt_iff in E. lra.
  - apply num_lt_false_iff in E. lra.
Qed.

Lemma clampEnd_le recordingEnd endMs :
  clampEnd recordingEnd endMs <= recordingEnd /\
  clampEnd recordingEnd endMs <= endMs.
Proof.
  unfold clampEnd. destruct (num_lt recordingEnd endMs) eqn:E.
  - apply num_lt_iff in E. lra.
  - apply num_lt_false_iff in E. lra.
Qed.

(** ** What the heap versions write *)

Lemma set_nth_app_r {A : Type} (v : A) (l1 : list A) : forall l2 n,
  (List.length l1 <= n)%nat ->
  Heap.set_nth n v (l1 ++ l2) = l1 ++ Heap.set_nth (n - List.length l1) v l2.
Proof.
  induction l1 as [|x l1 IH]; intros l2 n Hn; simpl.
  - now rewrite Nat.sub_0_r.
  - destruct n as [|n]; simpl in Hn; [lia|].
    simpl. rewrite IH by lia. reflexivity.
Qed.

Lemma preserved_refl h : Heap.preserved h h.
Proof. split; exists []; now rewrite app_nil_r. Qed.

Lemma preserved_lookup h0 h :
  Heap.preserved h0 h ->
  (forall l e, nth_error (Heap.objects h0) l = Some e ->
               nth_error (Heap.objects h) l = Some e) /\
  (forall a items, nth_error (Heap.arrays h0) a = Some items ->
                   nth_error (Heap.arrays h) a = Some items).
Proof.
  intros [[os Ho] [ars Ha]]. split.
  - intros l e Hl. rewrite Ho, nth_error_app1; [assumption|].
    apply nth_error_Some. congruence.
  - intros a items Hl. rewrite Ha, nth_error_app1; [assumption|].
    apply nth_error_Some. congruence.
Qed.

Section Keeps.

Variable h0 : Heap.heap.

Lemma keeps_ret {A : Type} (a : A) (P : A -> Prop) :
  P a -> Heap.keeps h0 (Heap.ret a) P.
Proof. intros Ha h Hh. split; [assumption|]. now intros ? [= <-]. Qed.

Lemma keeps_raise {A : Type} (e : error) (P : A -> Prop) :
  Heap.keeps h0 (Heap.raise e) P.
Proof. intros h Hh. split; [assumption|discriminate]. Qed.

Lemma keeps_lift {A : Type} (r : result A) :
  Heap.keeps h0 (Heap.lift r) (fun _ => True).
Proof. intros h Hh. split; [assumption|auto]. Qed.

Lemma keeps_bind {A B : Type} (m : Heap.M A) (k : A -> Heap.M B)
    (P : A -> Prop) (Q : B -> Prop) :
  Heap.keeps h0 m P ->
  (forall a, P a -> Heap.keeps h0 (k a) Q) ->
  Heap.keeps h0 (Heap.bindM m k) Q.
Proof.
  intros Hm Hk h Hh. unfold Heap.bindM.
  destruct (Hm h Hh) as [Hpres HP].
  destruct (m h) as [[a|e] h']; simpl in *.
  - apply Hk; auto.
  - split; [assumption|discriminate].
Qed.

Lemma keeps_weaken {A : Type} (m : Heap.M A) (P Q : A -> Prop) :
  Heap.keeps h0 m P -> (forall a, P a -> Q a) -> Heap.keeps h0 m Q.
Proof.
  intros Hm HPQ h Hh. destruct (Hm h Hh) as [Hpres HP]. split; auto.
Qed.

Lemma keeps_get_object l :
  Heap.keeps h0 (Heap.get_object l) (fun _ => True).
Proof.
  intros h Hh. unfold Heap.get_object.
  destruct (nth_error _ l); simpl; auto.
Qed.

Lemma keeps_get_array a :
  Heap.keeps h0 (Heap.get_array a) (fun _ => True).
Proof.
  intros h Hh. unfold Heap.get_array.
  destruct (nth_error _ a); simpl; auto.
Qed.

Lemma keeps_new_object e :
  Heap.keeps h0 (Heap.new_object e) (Heap.fresh_object h0).
Proof.
  intros h [[os Ho] Ha]. unfold Heap.new_object. simpl. split.
  - split; [|assumption]. exists (os ++ [e]). now rewrite Ho, app_assoc.
  - intros l [= <-]. unfold Heap.fresh_object.
    rewrite Ho, length_app. lia.
Qed.

Lemma keeps_new_array items :
  Heap.keeps h0 (Heap.new_array items) (Heap.fresh_array h0).
Proof.
  intros h [Ho [ars Ha]]. unfold Heap.new_array. simpl. split.
  - split; [assumption|]. exists (ars ++ [items]).
    now rewrite Ha, app_assoc.
  - intros l [= <-]. unfold Heap.fresh_array.
    rewrite Ha, length_app. lia.
Qed.

(** The in-place writes keep [h0] when their target was allocated after
    it. *)
Lemma keeps_set_array a items :
  Heap.fresh_array h0 a ->
  Heap.keeps h0 (Heap.set_array a items) (fun _ => True).
Proof.
  intros Hfresh h Hh. pose proof Hh as [Ho [ars Ha]].
  unfold Heap.set_array.
  destruct (nth_error _ a); simpl; [|split; [assumption|auto]].
  split; [|auto]. split; [assumption|]. simpl.
  rewrite Ha, set_nth_app_r by assumption. eexists. reflexivity.
Qed.

Lemma keeps_set_tabId l t :
  Heap.fresh_object h0 l ->
  Heap.keeps h0 (Heap.set_tabId l t) (fun _ => True).
Proof.
  intros Hfresh h Hh. pose proof Hh as [[os Ho] Ha].
  unfold Heap.set_tabId.
  destruct (nth_error _ l); simpl; [|split; [assumption|auto]].
  split; [|auto]. split; [|assumption]. simpl.
  rewrite Ho, set_nth_app_r by assumption. eexists. reflexivity.
Qed.

Lemma keeps_push a l :
  Heap.fresh_array h0 a -> Heap.keeps h0 (Heap.push a l) (fun _ => True).
Proof.
  intros Hfresh. unfold Heap.push.
  eapply keeps_bind; [apply keeps_get_array|].
  intros items _. now apply keeps_set_array.
Qed.

Lemma keeps_sort_in_place a :
  Heap.fresh_array h0 a ->
  Heap.keeps h0 (Heap.sort_in_place a) (fun _ => True).
Proof.
  intros Hfresh. unfold Heap.sort_in_place.
  eapply keeps_bind; [apply keeps_get_array|].
  intros items _ h Hh. now apply keeps_set_array.
Qed.

Lemma keeps_for_each {A : Type} (f : A -> Heap.M unit) (l : list A) :
  (forall a, Heap.keeps h0 (f a) (fun _ => True)) ->
  Heap.keeps h0 (Heap.for_each f l) (fun _ => True).
Proof.
  intros Hf. induction l as [|a l IH]; simpl.
  - now apply keeps_ret.
  - eapply keeps_bind; [apply Hf|]. intros _ _. exact IH.
Qed.

Lemma keeps_fold_each {A S : Type} (f : S -> A -> Heap.M S) (l : list A) :
  (forall s a, Heap.keeps h0 (f s a) (fun _ => True)) ->
  forall s, Heap.keeps h0 (Heap.fold_each f l s) (fun _ => True).
Proof.
  intros Hf. induction l as [|a l IH]; intros s; simpl.
  - now apply keeps_ret.
  - eapply keeps_bind; [apply Hf|]. intros s' _. apply IH.
Qed.

Lemma keeps_map_each {A B : Type} (f : A -> Heap.M B) (l : list A)
    (P : B -> Prop) :
  (forall a, Heap.keeps h0 (f a) P) ->
  Heap.keeps h0 (Heap.map_each f l) (Forall P).
Proof.
  intros Hf. induction l as [|a l IH]; simpl.
  - apply keeps_ret. constructor.
  - eapply keeps_bind; [apply Hf|]. intros b Hb.
    eapply keeps_bind; [exact IH|]. intros bs Hbs.
    apply keeps_ret. now constructor.
Qed.

Lemma keeps_select p l :
  Heap.keeps h0 (Heap.select p l) (fun _ => True).
Proof.
  induction l as [|x l IH]; simpl.
  - now apply keeps_ret.
  - eapply keeps_bind; [apply keeps_get_object|]. intros e _.
    eapply keeps_bind; [exact IH|]. intros kept _. now apply keeps_ret.
Qed.

Lemma keeps_filter_array a p :
  Heap.keeps h0 (Heap.filter_array a p) (Heap.fresh_array h0).
Proof.
  unfold Heap.filter_array.
  eapply keeps_bind; [apply keeps_get_array|]. intros items _.
  eapply keeps_bind; [apply keeps_select|]. intros kept _.
  apply keeps_new_array.
Qed.

Lemma keeps_find_in_array a p :
  Heap.keeps h0 (Heap.find_in_array a p) (fun _ => True).
Proof.
  unfold Heap.find_in_array.
  eapply keeps_bind; [apply keeps_get_array|]. intros items _.
  eapply keeps_bind; [apply keeps_select|]. intros kept _.
  now apply keeps_ret.
Qed.

End Keeps.

Section KeepsFunctions.

Variable h0 : Heap.heap.

(** A step that reads, or whose result carries no obligation. *)
Tactic Notation "keeps_step" tactic3(tac) "as" ident(x) :=
  apply keeps_bind with (P := fun _ => True); [tac|intros x _].

Ltac keeps_alloc :=
  eapply keeps_weaken;
  [first [apply keeps_new_object | apply keeps_filter_array]|auto].

Lemma keeps_cutRecording href events center before after :
  Heap.keeps h0 (Heap.cutRecording href events center before after)
    (Heap.fresh_array h0).
Proof.
  unfold Heap.cutRecording.
  keeps_step (apply keeps_get_array) as items.
  destruct items as [|first rest]; [apply keeps_raise|].
  keeps_step (apply keeps_get_object) as firstEvent. cbv zeta.
  keeps_step idtac as best.
  { apply keeps_fold_each. intros st l. unfold Heap.closest_step.
    keeps_step (apply keeps_get_object) as e. now apply keeps_ret. }
  destruct best as [[fullSnapshot d]|]; [|apply keeps_raise].
  keeps_step (apply keeps_get_object) as snapshot.
  keeps_step keeps_alloc as neededEvents.
  eapply keeps_bind; [apply keeps_new_array|]. intros newEvents Hnew.
  keeps_step keeps_alloc as copy.
  keeps_step (now apply keeps_push) as u1.
  keeps_step (apply keeps_get_array) as needed.
  keeps_step idtac as u2.
  { apply keeps_for_each. intros l.
    keeps_step (apply keeps_get_object) as e.
    destruct (_ || _); [|now apply keeps_ret].
    keeps_step keeps_alloc as c.
    now apply keeps_push. }
  keeps_step (apply keeps_get_array) as current.
  keeps_step idtac as u3.
  { destruct (_ <? 2)%nat; [|now apply keeps_ret].
    keeps_step (apply keeps_get_object) as lastEvent.
    keeps_step keeps_alloc as filler.
    now apply keeps_push. }
  keeps_step (now apply keeps_sort_in_place) as u4.
  now apply keeps_ret.
Qed.

Lemma keeps_buildTrimmed href events startMs endMs syntheticSnapshot :
  Heap.keeps h0
    (Heap.buildTrimmed href events startMs endMs syntheticSnapshot)
    (Heap.fresh_array h0).
Proof.
  unfold Heap.buildTrimmed.
  keeps_step (apply keeps_get_object) as snapshot.
  eapply keeps_bind; [apply keeps_new_array|]. intros newEvents Hnew.
  keeps_step (apply keeps_find_in_array) as originalMeta.
  keeps_step idtac as metaData.
  { destruct originalMeta as [m|]; [|now apply keeps_ret].
    keeps_step (apply keeps_get_object) as e. now apply keeps_ret. }
  eapply keeps_bind; [apply keeps_new_object|]. intros metaEvent Hmeta.
  keeps_step idtac as u1.
  { destruct (tabId snapshot);
      [now apply keeps_set_tabId|now apply keeps_ret]. }
  keeps_step (now apply keeps_push) as u2.
  keeps_step keeps_alloc as adjustedSnapshot.
  keeps_step (now apply keeps_push) as u3.
  keeps_step keeps_alloc as eventsInRange.
  keeps_step (apply keeps_get_array) as inRange.
  keeps_step idtac as u4.
  { apply keeps_for_each. intros l.
    keeps_step (apply keeps_get_object) as e.
    keeps_step keeps_alloc as adjustedEvent.
    now apply keeps_push. }
  keeps_step (now apply keeps_sort_in_place) as u5.
  now apply keeps_ret.
Qed.

Lemma keeps_fullSnapshotsFrom items : forall i,
  Heap.keeps h0 (Heap.fullSnapshotsFrom i items) (fun _ => True).
Proof.
  induction items as [|l rest IH]; intros i; simpl.
  - now apply keeps_ret.
  - keeps_step (apply keeps_get_object) as e.
    keeps_step (apply IH) as more. now apply keeps_ret.
Qed.

Lemma keeps_selectBaseSnapshot fullSnapshots startMs :
  Heap.keeps h0 (Heap.selectBaseSnapshot fullSnapshots startMs)
    (fun _ => True).
Proof.
  unfold Heap.selectBaseSnapshot.
  keeps_step idtac as st1.
  { apply keeps_fold_each. intros st si.
    unfold Heap.within_threshold_step.
    keeps_step (apply keeps_get_object) as e. now apply keeps_ret. }
  destruct st1; [now apply keeps_ret|].
  keeps_step idtac as st2.
  { apply keeps_fold_each. intros st si.
    unfold Heap.before_start_step.
    keeps_step (apply keeps_get_object) as e. now apply keeps_ret. }
  destruct st2; now apply keeps_ret.
Qed.

Lemma keeps_collectEvents startMs endMs newEvents items :
  Heap.fresh_array h0 newEvents ->
  Heap.keeps h0 (Heap.collectEvents startMs endMs newEvents items)
    (fun _ => True).
Proof.
  intros Hnew. induction items as [|l rest IH]; simpl.
  - now apply keeps_ret.
  - keeps_step (apply keeps_get_object) as e.
    destruct (num_lt endMs (timestamp e)); [now apply keeps_ret|].
    destruct (type e =? 2)%Z; [exact IH|].
    destruct (num_lt (timestamp e) startMs).
    + keeps_step (apply keeps_lift) as m.
      keeps_step idtac as u1; [|exact IH].
      destruct m; [now apply keeps_push|now apply keeps_ret].
    + keeps_step (now apply keeps_push) as u1. exact IH.
Qed.

Lemma keeps_trimRecordingFallback events startMs endMs :
  Heap.keeps h0 (Heap.trimRecordingFallback events startMs endMs)
    (Heap.fresh_array h0).
Proof.
  unfold Heap.trimRecordingFallback.
  keeps_step (apply keeps_get_array) as items.
  keeps_step (apply keeps_fullSnapshotsFrom) as fullSnapshots.
  keeps_step (apply keeps_selectBaseSnapshot) as selected.
  destruct selected as [[baseSnapshot baseSnapshotIndex]|];
    [|apply keeps_raise].
  keeps_step (apply keeps_get_object) as base.
  eapply keeps_bind; [apply keeps_new_array|]. intros newEvents Hnew.
  keeps_step keeps_alloc as copy.
  keeps_step (now apply keeps_push) as u1.
  keeps_step (apply keeps_find_in_array) as metaEvent.
  keeps_step idtac as u2.
  { destruct metaEvent as [m|]; [|now apply keeps_ret].
    keeps_step (apply keeps_get_object) as e.
    keeps_step keeps_alloc as c.
    now apply keeps_push. }
  keeps_step (now apply keeps_collectEvents) as u3.
  keeps_step (now apply keeps_sort_in_place) as u4.
  keeps_step (apply keeps_get_array) as current.
  keeps_step idtac as u5.
  { destruct (_ =? 1)%nat; [|now apply keeps_ret].
    keeps_step keeps_alloc as minimal.
    now apply keeps_push. }
  cbv zeta.
  keeps_step (apply keeps_get_array) as current'.
  keeps_step (apply keeps_get_object) as firstEvent.
  keeps_step idtac as shifted.
  { eapply keeps_weaken; [|auto].
    apply keeps_map_each with (P := fun _ => True). intros l.
    keeps_step (apply keeps_get_object) as e.
    keeps_step (apply keeps_lift) as e'.
    keeps_alloc. }
  eapply keeps_bind; [apply keeps_new_array|]. intros shiftedEvents Hs.
  destruct (_ <? 2)%nat; [apply keeps_raise|now apply keeps_ret].
Qed.

End KeepsFunctions.

Lemma read_all_preserved h0 h items : forall evs,
  Heap.preserved h0 h ->
  Heap.read_all h0 items = Some evs -> Heap.read_all h items = Some evs.
Proof.
  intros evs Hp. destruct (preserved_lookup h0 h Hp) as [Hobj _].
  revert evs. induction items as [|l items IH]; intros evs; simpl; [auto|].
  destruct (nth_error (Heap.objects h0) l) as [e|] eqn:Hl; [|discriminate].
  rewrite (Hobj l e Hl).
  destruct (Heap.read_all h0 items) as [es|]; [|discriminate].
  now rewrite (IH es eq_refl).
Qed.

Lemma read_log_preserved h0 h a evs :
  Heap.preserved h0 h ->
  Heap.read_log h0 a = Some evs -> Heap.read_log h a = Some evs.
Proof.
  intros Hp. destruct (preserved_lookup h0 h Hp) as [_ Harr].
  unfold Heap.read_log.
  destruct (nth_error (Heap.arrays h0) a) as [items|] eqn:Ha;
    [|discriminate].
  rewrite (Harr a items Ha). now apply read_all_preserved.
Qed.

Lemma Forall2_last {A B : Type} (R : A -> B -> Prop) l1 l2 :
  Forall2 R l1 l2 -> l2 <> [] ->
  forall d, exists a, In a l1 /\ R a (last l2 d).
Proof.
  induction 1 as [|a b l1 l2 Hab Hrest IH]; intros Hne d; [congruence|].
  destruct l2 as [|b' l2'].
  - exists a. split; [now left|assumption].
  - destruct (IH ltac:(discriminate) d) as (a' & Hin & Ha').
    exists a'. split; [now right|exact Ha'].
Qed.

(** The timestamp a shift gives: the plain shift, or for a compressed
    event at most 100. *)
Lemma shiftEvent_timestamp startMs timeShift baseTime e b :
  shiftEvent startMs timeShift baseTime e = Ok b ->
  timestamp b = timestamp e - startMs + 100 \/
  (timestamp e < startMs /\ timestamp b <= 100).
Proof.
  unfold shiftEvent.
  destruct (num_lt (timestamp e) startMs) eqn:Es;
    [|simpl; intros [= <-]; now left].
  apply num_lt_iff in Es.
  destruct (type e =? 3)%Z; [|simpl; intros [= <-]; now left].
  destruct (get_prop (data e) "source") as [src|]; simpl; [|discriminate].
  destruct (is_zero src); [|intros [= <-]; now left].
  unfold compressedTimestamp.
  destruct (num_eq timeShift 0).
  - destruct (num_lt 0 _); simpl; [|discriminate].
    intros [= <-]. right. split; [assumption|]. simpl. lra.
  - simpl. intros [= <-]. right. split; [assumption|]. simpl.
    pose proof (Q.le_min_r ((timestamp e - baseTime) / timeShift) 1). lra.
Qed.

(** ** The heap versions compute the versions on lists *)

Lemma nth_error_set_nth_eq {A : Type} (v : A) : forall l n,
  (n < List.length l)%nat -> nth_error (Heap.set_nth n v l) n = Some v.
Proof.
  induction l as [|x l IH]; intros n Hn; simpl in *; [lia|].
  destruct n as [|n]; simpl; [reflexivity|]. apply IH. lia.
Qed.

Lemma nth_error_set_nth_neq {A : Type} (v : A) : forall l n a,
  a <> n -> nth_error (Heap.set_nth n v l) a = nth_error l a.
Proof.
  induction l as [|x l IH]; intros n a Hne.
  - now destruct n.
  - destruct n as [|n], a as [|a]; simpl; try reflexivity; try congruence.
    apply IH. congruence.
Qed.

Lemma length_set_nth {A : Type} (v : A) : forall l n,
  List.length (Heap.set_nth n v l) = List.length l.
Proof.
  induction l as [|x l IH]; intros n; [now destruct n|].
  destruct n; simpl; [reflexivity|]. now rewrite IH.
Qed.

Lemma grows_refl n h : Heap.grows n h h.
Proof.
  split; [exists []; now rewrite app_nil_r|]. split; [lia|auto].
Qed.

Lemma grows_trans n h1 h2 h3 :
  Heap.grows n h1 h2 -> Heap.grows n h2 h3 -> Heap.grows n h1 h3.
Proof.
  intros ([o1 Ho1] & Hl1 & Ha1) ([o2 Ho2] & Hl2 & Ha2).
  split; [exists (o1 ++ o2); now rewrite Ho2, Ho1, app_assoc|].
  split; [lia|].
  intros a Hne Hlt. rewrite Ha2 by (auto; lia). now apply Ha1.
Qed.

Lemma grows_points n h h' l e :
  Heap.grows n h h' -> Heap.points h l e -> Heap.points h' l e.
Proof.
  intros ([os Ho] & _) Hp. unfold Heap.points in *.
  rewrite Ho, nth_error_app1; [assumption|].
  apply nth_error_Some. congruence.
Qed.

Lemma grows_holds n h h' a items :
  Heap.grows n h h' -> a <> n -> Heap.holds h a items ->
  Heap.holds h' a items.
Proof.
  intros (_ & _ & Ha) Hne Hh. unfold Heap.holds in *.
  rewrite Ha; [assumption|assumption|].
  apply nth_error_Some. congruence.
Qed.

Lemma grows_read_all n h h' items : forall evs,
  Heap.grows n h h' ->
  Heap.read_all h items = Some evs -> Heap.read_all h' items = Some evs.
Proof.
  intros evs Hg. revert evs.
  induction items as [|l items IH]; intros evs; simpl; [auto|].
  destruct (nth_error (Heap.objects h) l) as [e|] eqn:Hl; [|discriminate].
  rewrite (grows_points n h h' l e Hg Hl).
  destruct (Heap.read_all h items) as [es|]; [|discriminate].
  now rewrite (IH es eq_refl).
Qed.

Lemma read_all_cons h l items evs :
  Heap.read_all h (l :: items) = Some evs ->
  exists e es,
    evs = e :: es /\ Heap.points h l e /\ Heap.read_all h items = Some es.
Proof.
  simpl. unfold Heap.points.
  destruct (nth_error (Heap.objects h) l) as [e|]; [|discriminate].
  destruct (Heap.read_all h items) as [es|]; [|discriminate].
  intros [= <-]. now exists e, es.
Qed.

Lemma read_all_intro h l items e es :
  Heap.points h l e -> Heap.read_all h items = Some es ->
  Heap.read_all h (l :: items) = Some (e :: es).
Proof. unfold Heap.points. simpl. now intros -> ->. Qed.

Lemma read_all_app h l1 l2 e1 e2 :
  Heap.read_all h l1 = Some e1 -> Heap.read_all h l2 = Some e2 ->
  Heap.read_all h (l1 ++ l2) = Some (e1 ++ e2).
Proof.
  revert e1. induction l1 as [|l l1 IH]; intros e1 H1 H2.
  - injection H1 as <-. exact H2.
  - apply read_all_cons in H1. destruct H1 as (e & es & -> & Hp & Hes).
    simpl app. apply read_all_intro; [assumption|]. now apply IH.
Qed.

Lemma read_all_In h items evs l :
  Heap.read_all h items = Some evs -> In l items ->
  exists e, Heap.points h l e /\ In e evs.
Proof.
  revert evs. induction items as [|x items IH]; intros evs Hr Hin;
    [destruct Hin|].
  apply read_all_cons in Hr. destruct Hr as (e & es & -> & Hp & Hes).
  destruct Hin as [<-|Hin].
  - exists e. split; [assumption|now left].
  - destruct (IH es Hes Hin) as (e' & Hp' & Hin').
    exists e'. split; [assumption|now right].
Qed.

Lemma read_all_length h items evs :
  Heap.read_all h items = Some evs -> List.length evs = List.length items.
Proof.
  revert evs. induction items as [|x items IH]; intros evs Hr.
  - now injection Hr as <-.
  - apply read_all_cons in Hr. destruct Hr as (e & es & -> & _ & Hes).
    simpl. now rewrite (IH es Hes).
Qed.

(** Reading steps leave the heap as it is. *)
Lemma get_array_run h a items :
  Heap.holds h a items -> Heap.get_array a h = (Ok items, h).
Proof. unfold Heap.holds, Heap.get_array. now intros ->. Qed.

Lemma get_object_run h l e :
  Heap.points h l e -> Heap.get_object l h = (Ok e, h).
Proof. unfold Heap.points, Heap.get_object. now intros ->. Qed.

Lemma select_run p h items : forall evs,
  Heap.read_all h items = Some evs ->
  exists kept,
    Heap.select p items h = (Ok kept, h) /\
    Heap.read_all h kept = Some (filter p evs) /\
    forall l, In l kept -> In l items.
Proof.
  induction items as [|x items IH]; intros evs Hr.
  - injection Hr as <-. exists []. simpl. auto.
  - apply read_all_cons in Hr. destruct Hr as (e & es & -> & Hp & Hes).
    destruct (IH es Hes) as (kept & Hrun & Hkept & Hsub).
    cbn [Heap.select]. unfold Heap.bindM.
    rewrite (get_object_run h x e Hp), Hrun. cbn [filter Heap.ret].
    destruct (p e).
    + exists (x :: kept). split; [reflexivity|].
      split; [now apply read_all_intro|].
      intros l [<-|Hl]; [now left|right; auto].
    + exists kept. split; [reflexivity|]. split; [assumption|].
      intros l Hl. right. auto.
Qed.

(** The in-place steps. *)
Lemma set_array_run h n old items :
  Heap.holds h n old ->
  Heap.set_array n items h
  = (Ok tt, Heap.mkHeap (Heap.objects h)
              (Heap.set_nth n items (Heap.arrays h))).
Proof. unfold Heap.holds, Heap.set_array. now intros ->. Qed.

Lemma set_array_grows h n items :
  Heap.grows n h
    (Heap.mkHeap (Heap.objects h) (Heap.set_nth n items (Heap.arrays h))).
Proof.
  split; [exists []; simpl; now rewrite app_nil_r|]. simpl.
  split; [rewrite length_set_nth; lia|].
  intros a Hne _. now apply nth_error_set_nth_neq.
Qed.

Lemma set_array_holds h n old items :
  Heap.holds h n old ->
  Heap.holds
    (Heap.mkHeap (Heap.objects h) (Heap.set_nth n items (Heap.arrays h)))
    n items.
Proof.
  unfold Heap.holds. simpl. intros Hh. apply nth_error_set_nth_eq.
  apply nth_error_Some. congruence.
Qed.

Lemma push_run h n accl l :
  Heap.holds h n accl ->
  exists h',
    Heap.push n l h = (Ok tt, h') /\ Heap.grows n h h' /\
    Heap.objects h' = Heap.objects h /\
    List.length (Heap.arrays h') = List.length (Heap.arrays h) /\
    Heap.holds h' n (accl ++ [l]).
Proof.
  intros Hh. eexists. unfold Heap.push, Heap.bindM.
  rewrite (get_array_run h n accl Hh).
  rewrite (set_array_run h n accl _ Hh).
  split; [reflexivity|]. split; [apply set_array_grows|].
  split; [reflexivity|]. split; [apply length_set_nth|].
  now apply set_array_holds with (old := accl).
Qed.

Lemma insert_loc_read h x e : forall l es,
  Heap.points h x e -> Heap.read_all h l = Some es ->
  Heap.read_all h (Heap.insert_loc (Heap.timestamp_at h) x l)
  = Some (insert_by_timestamp e es).
Proof.
  induction l as [|y l IH]; intros es Hx Hr.
  - injection Hr as <-. cbn [Heap.insert_loc insert_by_timestamp].
    now apply read_all_intro.
  - apply read_all_cons in Hr. destruct Hr as (ey & es' & -> & Hy & Hes).
    cbn [Heap.insert_loc insert_by_timestamp].
    assert (Hkx : Heap.timestamp_at h x = timestamp e)
      by (unfold Heap.timestamp_at; now rewrite Hx).
    assert (Hky : Heap.timestamp_at h y = timestamp ey)
      by (unfold Heap.timestamp_at; now rewrite Hy).
    rewrite Hkx, Hky.
    destruct (num_le (timestamp e) (timestamp ey)).
    + apply read_all_intro; [assumption|]. now apply read_all_intro.
    + apply read_all_intro; [assumption|]. now apply IH.
Qed.

Lemma sort_locs_read h : forall l es,
  Heap.read_all h l = Some es ->
  Heap.read_all h (Heap.sort_locs (Heap.timestamp_at h) l)
  = Some (sort_by_timestamp es).
Proof.
  induction l as [|x l IH]; intros es Hr.
  - now injection Hr as <-.
  - apply read_all_cons in Hr. destruct Hr as (e & es' & -> & Hx & Hes).
    cbn [Heap.sort_locs sort_by_timestamp].
    apply insert_loc_read; [assumption|]. now apply IH.
Qed.

Lemma insert_loc_In key x l y :
  In y (Heap.insert_loc key x l) -> y = x \/ In y l.
Proof.
  induction l as [|z l IH]; simpl.
  - intros [<-|[]]. now left.
  - destruct (num_le (key x) (key z)); simpl.
    + intros [<-|[<-|H]]; auto.
    + intros [<-|H]; auto. destruct (IH H); auto.
Qed.

Lemma sort_locs_In key l y : In y (Heap.sort_locs key l) -> In y l.
Proof.
  induction l as [|x l IH]; simpl; [auto|].
  intros H. apply insert_loc_In in H. destruct H as [->|H]; auto.
Qed.

Lemma sort_in_place_run h n accl acc :
  Heap.holds h n accl -> Heap.read_all h accl = Some acc ->
  exists h' accl',
    Heap.sort_in_place n h = (Ok tt, h') /\ Heap.grows n h h' /\
    Heap.objects h' = Heap.objects h /\
    Heap.holds h' n accl' /\
    Heap.read_all h' accl' = Some (sort_by_timestamp acc) /\
    forall l, In l accl' -> In l accl.
Proof.
  intros Hh Hr. do 2 eexists. unfold Heap.sort_in_place, Heap.bindM.
  rewrite (get_array_run h n accl Hh).
  rewrite (set_array_run h n accl _ Hh).
  split; [reflexivity|]. split; [apply set_array_grows|].
  split; [reflexivity|].
  split; [now apply set_array_holds with (old := accl)|].
  split.
  - apply grows_read_all with (n := n) (h := h);
      [apply set_array_grows|]. now apply sort_locs_read.
  - intros l. apply sort_locs_In.
Qed.

Lemma tracks_grows F n k acc h h' :
  Heap.grows k h h' -> n <> k ->
  Heap.tracks F n acc h -> Heap.tracks F n acc h'.
Proof.
  intros Hg Hne (accl & Hh & Hr & HF). exists accl.
  split; [now apply (grows_holds k h h')|].
  split; [now apply (grows_read_all k h h')|assumption].
Qed.

(** Allocation grows the heap whatever array is being filled. *)
Lemma new_object_run h e :
  exists h',
    Heap.new_object e h = (Ok (List.length (Heap.objects h)), h') /\
    (forall k, Heap.grows k h h') /\
    Heap.arrays h' = Heap.arrays h /\
    List.length (Heap.objects h') = S (List.length (Heap.objects h)) /\
    Heap.points h' (List.length (Heap.objects h)) e.
Proof.
  eexists. split; [reflexivity|]. simpl. split; [|split; [reflexivity|]].
  - intros k. split; [now exists [e]|]. simpl. split; [lia|auto].
  - split; [rewrite length_app; simpl; lia|].
    unfold Heap.points. simpl.
    rewrite nth_error_app2, Nat.sub_diag; [reflexivity|lia].
Qed.

Lemma new_array_run h items :
  exists h',
    Heap.new_array items h = (Ok (List.length (Heap.arrays h)), h') /\
    (forall k, Heap.grows k h h') /\
    Heap.objects h' = Heap.objects h /\
    List.length (Heap.arrays h') = S (List.length (Heap.arrays h)) /\
    Heap.holds h' (List.length (Heap.arrays h)) items.
Proof.
  eexists. split; [reflexivity|]. simpl. split; [|split; [reflexivity|]].
  - intros k. split; [exists []; simpl; now rewrite app_nil_r|]. simpl.
    split; [rewrite length_app; lia|].
    intros a _ Ha. now apply nth_error_app1.
  - split; [rewrite length_app; simpl; lia|].
    unfold Heap.holds. simpl.
    rewrite nth_error_app2, Nat.sub_diag; [reflexivity|lia].
Qed.

Lemma filter_array_run p h a items evs :
  Heap.holds h a items -> Heap.read_all h items = Some evs ->
  exists h' kept,
    Heap.filter_array a p h = (Ok (List.length (Heap.arrays h)), h') /\
    (forall k, Heap.grows k h h') /\
    Heap.objects h' = Heap.objects h /\
    List.length (Heap.arrays h') = S (List.length (Heap.arrays h)) /\
    Heap.holds h' (List.length (Heap.arrays h)) kept /\
    Heap.read_all h' kept = Some (filter p evs).
Proof.
  intros Hh Hr.
  destruct (select_run p h items evs Hr) as (kept & Hsel & Hkept & _).
  destruct (new_array_run h kept) as (h' & Hnew & Hg & Ho & Hl & Hk).
  exists h', kept. unfold Heap.filter_array, Heap.bindM.
  rewrite (get_array_run h a items Hh), Hsel, Hnew.
  split; [reflexivity|]. split; [assumption|]. split; [assumption|].
  split; [assumption|]. split; [assumption|].
  now apply (grows_read_all 0%nat h h').
Qed.

Lemma find_in_array_run p h a items evs :
  Heap.holds h a items -> Heap.read_all h items = Some evs ->
  exists found,
    Heap.find_in_array a p h = (Ok found, h) /\
    match found, find p evs with
    | Some l, Some e => Heap.points h l e
    | None, None => True
    | _, _ => False
    end.
Proof.
  intros Hh Hr.
  destruct (select_run p h items evs Hr) as (kept & Hsel & Hkept & _).
  exists (hd_error kept). unfold Heap.find_in_array, Heap.bindM.
  rewrite (get_array_run h a items Hh), Hsel.
  split; [reflexivity|].
  assert (Hfind : find p evs = hd_error (filter p evs)).
  { clear. induction evs as [|e evs IH]; simpl; [reflexivity|].
    destruct (p e); [reflexivity|assumption]. }
  rewrite Hfind. destruct kept as [|l kept].
  - injection Hkept as <-. exact I.
  - apply read_all_cons in Hkept.
    destruct Hkept as (e & es & -> & Hp & _). exact Hp.
Qed.

Lemma push_tracks F n acc h l e :
  Heap.tracks F n acc h -> Heap.points h l e -> F l ->
  exists h',
    Heap.push n l h = (Ok tt, h') /\ Heap.grows n h h' /\
    Heap.objects h' = Heap.objects h /\
    List.length (Heap.arrays h') = List.length (Heap.arrays h) /\
    Heap.tracks F n (acc ++ [e]) h'.
Proof.
  intros (accl & Hh & Hr & HF) Hp HFl.
  destruct (push_run h n accl l Hh) as (h' & Hrun & Hg & Ho & Hl & Hh').
  exists h'. split; [assumption|]. split; [assumption|].
  split; [assumption|]. split; [assumption|].
  exists (accl ++ [l]). split; [assumption|]. split.
  - apply read_all_app; [now apply (grows_read_all n h h')|].
    apply read_all_intro; [now apply (grows_points n h h')|reflexivity].
  - apply Forall_app. split; [assumption|]. now constructor.
Qed.

Lemma sort_tracks F n acc h :
  Heap.tracks F n acc h ->
  exists h',
    Heap.sort_in_place n h = (Ok tt, h') /\ Heap.grows n h h' /\
    Heap.objects h' = Heap.objects h /\
    Heap.tracks F n (sort_by_timestamp acc) h'.
Proof.
  intros (accl & Hh & Hr & HF).
  destruct (sort_in_place_run h n accl acc Hh Hr)
    as (h' & accl' & Hrun & Hg & Ho & Hh' & Hr' & Hsub).
  exists h'. split; [assumption|]. split; [assumption|].
  split; [assumption|].
  exists accl'. split; [assumption|]. split; [assumption|].
  rewrite Forall_forall in *. auto.
Qed.

(** A new object, then its push. *)
Lemma copy_push_tracks (F : Heap.loc -> Prop) n acc h e :
  Heap.tracks F n acc h ->
  (forall l, (List.length (Heap.objects h) <= l)%nat -> F l) ->
  exists h',
    Heap.bindM (Heap.new_object e) (fun c => Heap.push n c) h = (Ok tt, h') /\
    Heap.grows n h h' /\
    List.length (Heap.arrays h') = List.length (Heap.arrays h) /\
    (List.length (Heap.objects h) <= List.length (Heap.objects h'))%nat /\
    Heap.tracks F n (acc ++ [e]) h'.
Proof.
  intros Ht HF.
  destruct (new_object_run h e) as (h1 & Hnew & Hg1 & Ha1 & Hl1 & Hp1).
  assert (Ht1 : Heap.tracks F n acc h1).
  { destruct Ht as (accl & Hh & Hr & HFa). exists accl.
    split; [unfold Heap.holds in *; now rewrite Ha1|].
    split; [now apply (grows_read_all n h h1)|assumption]. }
  destruct (push_tracks F n acc h1 _ e Ht1 Hp1 (HF _ (Nat.le_refl _)))
    as (h2 & Hpush & Hg2 & Ho2 & Hl2 & Ht2).
  exists h2. unfold Heap.bindM. rewrite Hnew, Hpush.
  split; [reflexivity|].
  split; [apply (grows_trans n h h1 h2); auto|].
  split; [now rewrite Hl2, Ha1|]. split; [rewrite Ho2; lia|assumption].
Qed.

(** The loop that pushes a copy of each event passing [c]. *)
Lemma copy_loop_tracks (F : Heap.loc -> Prop) n (c : event -> bool)
    (g : event -> event) items : forall evs acc h,
  Heap.tracks F n acc h ->
  Heap.read_all h items = Some evs ->
  (forall l, (List.length (Heap.objects h) <= l)%nat -> F l) ->
  exists h',
    Heap.for_each
      (fun l =>
         Heap.bindM (Heap.get_object l)
           (fun e =>
              if c e
              then Heap.bindM (Heap.new_object (g e))
                     (fun x => Heap.push n x)
              else Heap.ret tt))
      items h
    = (Ok tt, h') /\
    Heap.grows n h h' /\
    List.length (Heap.arrays h') = List.length (Heap.arrays h) /\
    (List.length (Heap.objects h) <= List.length (Heap.objects h'))%nat /\
    Heap.tracks F n (acc ++ map g (filter c evs)) h'.
Proof.
  induction items as [|l items IH]; intros evs acc h Ht Hr HF.
  - injection Hr as <-. exists h. simpl. rewrite app_nil_r.
    split; [reflexivity|]. split; [apply grows_refl|]. auto.
  - apply read_all_cons in Hr. destruct Hr as (e & es & -> & Hp & Hes).
    cbn [Heap.for_each filter]. unfold Heap.bindM at 1.
    unfold Heap.bindM at 1. rewrite (get_object_run h l e Hp).
    destruct (c e).
    + destruct (copy_push_tracks F n acc h (g e) Ht HF)
        as (h1 & Hrun1 & Hg1 & Hl1 & Ho1 & Ht1).
      rewrite Hrun1.
      destruct (IH es (acc ++ [g e]) h1 Ht1
                  (grows_read_all n h h1 items es Hg1 Hes))
        as (h2 & Hrun2 & Hg2 & Hl2 & Ho2 & Ht2).
      { intros x Hx. apply HF. lia. }
      exists h2. split; [exact Hrun2|].
      split; [apply (grows_trans n h h1 h2); auto|].
      split; [congruence|]. split; [lia|].
      cbn [map]. now rewrite <- app_assoc in Ht2.
    + cbn [Heap.ret].
      destruct (IH es acc h Ht Hes HF) as (h2 & Hrun2 & Hrest).
      exists h2. split; [exact Hrun2|exact Hrest].
Qed.

Lemma read_all_last h : forall items evs d d',
  Heap.read_all h items = Some evs -> items <> [] ->
  Heap.points h (last items d) (last evs d').
Proof.
  induction items as [|l items IH]; intros evs d d' Hr Hne; [congruence|].
  apply read_all_cons in Hr. destruct Hr as (e & es & -> & Hp & Hes).
  destruct items as [|l' items'].
  - injection Hes as <-. exact Hp.
  - destruct es as [|e' es'];
      [apply read_all_length in Hes; discriminate|].
    change (last (l :: l' :: items') d) with (last (l' :: items') d).
    change (last (e :: e' :: es') d') with (last (e' :: es') d').
    apply IH; [assumption|discriminate].
Qed.

Lemma closest_fold_run c h items : forall evs st stp,
  Heap.read_all h items = Some evs -> Heap.opt_rel h st stp ->
  exists st',
    Heap.fold_each (Heap.closest_step c) items st h = (Ok st', h) /\
    Heap.opt_rel h st' (fold_left (closest_step c) evs stp).
Proof.
  induction items as [|l items IH]; intros evs st stp Hr Hrel.
  - injection Hr as <-. exists st. split; [reflexivity|exact Hrel].
  - apply read_all_cons in Hr. destruct Hr as (e & es & -> & Hp & Hes).
    cbn [Heap.fold_each fold_left]. unfold Heap.bindM at 1.
    unfold Heap.closest_step at 1. unfold Heap.bindM at 1.
    rewrite (get_object_run h l e Hp). cbn [Heap.ret].
    apply IH; [assumption|].
    unfold closest_step. destruct (type e =? 2)%Z; [|exact Hrel].
    destruct st as [[l1 d1]|], stp as [[e1 d1']|]; simpl in Hrel;
      try contradiction.
    + destruct Hrel as [Hp1 Hd]. simpl in Hp1, Hd. subst d1'.
      destruct (num_lt _ d1); simpl; split; auto.
    + simpl. split; auto.
Qed.

Section Refinement.

Variable href : string.

(** Executes the step whose run is [H]. *)
Ltac run H := unfold Heap.bindM at 1; rewrite H; cbv beta iota.

Lemma heap_cutRecording_refines h events items evs center before after :
  Heap.holds h events items -> Heap.read_all h items = Some evs ->
  Heap.refines h (cutRecording href evs center before after)
    (Heap.cutRecording href events center before after h).
Proof.
  intros Hh Hr. unfold Heap.cutRecording.
  run (get_array_run h events items Hh).
  destruct items as [|l0 litems].
  { injection Hr as <-. reflexivity. }
  pose proof Hr as Hr0.
  apply read_all_cons in Hr0.
  destruct Hr0 as (first & rest & -> & Hp0 & _).
  run (get_object_run h l0 first Hp0). cbv zeta.
  set (cutStart := timestamp first + center * 1000 - before * 1000).
  set (cutEnd := timestamp first + center * 1000 + after * 1000).
  destruct (closest_fold_run cutStart h (l0 :: litems) (first :: rest)
              None None Hr I) as (st' & Hfold & Hrel).
  run Hfold.
  unfold cutRecording. cbv zeta. fold cutStart cutEnd.
  unfold closestFullSnapshot.
  destruct (fold_left (closest_step cutStart) (first :: rest) None)
    as [[fs d]|]; destruct st' as [[lfs d']|]; simpl in Hrel;
    try contradiction; [|reflexivity].
  destruct Hrel as [Hpfs _]. simpl in Hpfs.
  run (get_object_run h lfs fs Hpfs).
  set (inRange := fun e : event =>
         num_le (Qmin (timestamp fs) cutStart) (timestamp e)
         && num_le (timestamp e) cutEnd).
  set (isOther := fun e : event =>
         negb (num_eq (timestamp e) (timestamp fs)) || negb (type e =? 2)%Z).
  set (copy := fun e : event => with_timestamp e (timestamp e)).
  destruct (filter_array_run inRange h events _ _ Hh Hr)
    as (h1 & kept & Hrun1 & Hg1 & Ho1 & Hl1 & Hk1 & Hrk1).
  run Hrun1.
  destruct (new_array_run h1 []) as (h2 & Hrun2 & Hg2 & Ho2 & Hl2 & Hn2).
  run Hrun2.
  set (k1 := List.length (Heap.arrays h)) in *.
  set (n := List.length (Heap.arrays h1)) in *.
  assert (Hkn : k1 <> n) by lia.
  destruct (new_object_run h2 (with_timestamp fs (timestamp fs)))
    as (h3 & Hrun3 & Hg3 & Ha3 & Hl3 & Hp3).
  run Hrun3.
  assert (HF : forall hx, (List.length (Heap.objects h)
                           <= List.length (Heap.objects hx))%nat ->
               forall l, (List.length (Heap.objects hx) <= l)%nat ->
                         Heap.fresh_object h l).
  { intros hx Hx l Hl. unfold Heap.fresh_object. lia. }
  assert (Ht3 : Heap.tracks (Heap.fresh_object h) n [] h3).
  { exists []. split; [apply (grows_holds k1 h2 h3); auto|].
    split; [reflexivity|constructor]. }
  destruct (push_tracks _ n [] h3 _ _ Ht3 Hp3)
    as (h4 & Hrun4 & Hg4 & Ho4 & Hl4 & Ht4).
  { apply (HF h2); [rewrite Ho2, Ho1|]; lia. }
  run Hrun4.
  assert (Hk4 : Heap.holds h4 k1 kept).
  { apply (grows_holds n h3 h4); auto.
    apply (grows_holds n h2 h3); auto.
    apply (grows_holds n h1 h2); auto. }
  run (get_array_run h4 k1 kept Hk4).
  assert (Hrk4 : Heap.read_all h4 kept = Some (filter inRange (first :: rest))).
  { apply (grows_read_all n h3 h4); auto.
    apply (grows_read_all n h2 h3); auto.
    apply (grows_read_all n h1 h2); auto. }
  destruct (copy_loop_tracks _ n isOther copy kept _ _ h4 Ht4 Hrk4)
    as (h5 & Hrun5 & Hg5 & Hl5 & Ho5 & Ht5).
  { apply HF. rewrite Ho4, Hl3, Ho2, Ho1. lia. }
  unfold isOther at 1, copy at 1 in Hrun5. cbv beta in Hrun5. run Hrun5.
  pose proof Ht5 as (accl & Hh5 & Hr5 & HF5).
  run (get_array_run h5 n accl Hh5).
  rewrite <- (read_all_length h5 accl _ Hr5).
  cbn [app] in *.
  set (newEvents := with_timestamp fs (timestamp fs)
                      :: map copy (filter isOther
                                     (filter inRange (first :: rest)))) in *.
  assert (Hfinish : forall hx acc,
            Heap.tracks (Heap.fresh_object h) n acc hx ->
            Heap.refines h (Ok (sort_by_timestamp acc))
              (Heap.bindM (Heap.sort_in_place n)
                 (fun _ => Heap.ret n) hx)).
  { intros hx acc Htx.
    destruct (sort_tracks _ n acc hx Htx) as (hy & Hruny & _ & _ & Hty).
    run Hruny. exists n. split; [reflexivity|].
    split; [exact Hty|]. unfold Heap.fresh_array. fold k1. lia. }
  destruct (List.length newEvents <? 2)%nat.
  - assert (Hlast : Heap.points h5 (last accl lfs) (last newEvents fs)).
    { apply read_all_last; [assumption|].
      intros ->. discriminate Hr5. }
    destruct (copy_push_tracks _ n newEvents h5
                (mkEvent 4 (VObj [("href", VStr href)])
                   (timestamp (last newEvents fs) + 100) None) Ht5)
      as (h6 & Hrun6 & Hg6 & Hl6 & Ho6 & Ht6).
    { apply HF. rewrite Ho4, Hl3, Ho2, Ho1 in Ho5. lia. }
    unfold Heap.bindM at 1. unfold Heap.bindM at 1.
    rewrite (get_object_run h5 _ _ Hlast). cbv beta iota.
    rewrite Hrun6. now apply Hfinish.
  - unfold Heap.bindM at 1. cbn [Heap.ret]. now apply Hfinish.
Qed.

Lemma filter_all {A : Type} (l : list A) : filter (fun _ => true) l = l.
Proof. induction l as [|x l IH]; simpl; [reflexivity|now rewrite IH]. Qed.

Lemma set_tabId_run h l e t :
  Heap.points h l e ->
  Heap.set_tabId l t h
  = (Ok tt,
     Heap.mkHeap
       (Heap.set_nth l (mkEvent (type e) (data e) (timestamp e) t)
          (Heap.objects h))
       (Heap.arrays h)).
Proof. unfold Heap.points, Heap.set_tabId. now intros ->. Qed.

Lemma heap_buildTrimmed_refines h events items evs startMs endMs lsnap snap :
  Heap.holds h events items -> Heap.read_all h items = Some evs ->
  Heap.points h lsnap snap ->
  Heap.refines h (Ok (buildTrimmed href evs startMs endMs snap))
    (Heap.buildTrimmed href events startMs endMs lsnap h).
Proof.
  intros Hh Hr Hsnap. unfold Heap.buildTrimmed.
  run (get_object_run h lsnap snap Hsnap).
  destruct (new_array_run h []) as (h1 & Hrun1 & Hg1 & Ho1 & Hl1 & Hn1).
  run Hrun1.
  set (n := List.length (Heap.arrays h)) in *.
  assert (Hen : events <> n).
  { intros Heq. unfold Heap.holds in Hh. rewrite Heq in Hh.
    assert (Hnone : nth_error (Heap.arrays h) n = None)
      by (apply nth_error_None; unfold n; lia).
    congruence. }
  assert (Hh1 : Heap.holds h1 events items)
    by (apply (grows_holds n h h1); auto).
  assert (Hr1 : Heap.read_all h1 items = Some evs)
    by (apply (grows_read_all n h h1); auto).
  destruct (find_in_array_run (fun e => (type e =? 4)%Z) h1 events items evs
              Hh1 Hr1) as (found & Hrun2 & Hfound).
  run Hrun2.
  set (metaData := match find (fun e => (type e =? 4)%Z) evs with
                   | Some m => data m
                   | None => VUndefined
                   end).
  assert (Hmeta : (match found with
                   | Some m =>
                       Heap.bindM (Heap.get_object m)
                         (fun e => Heap.ret (data e))
                   | None => Heap.ret VUndefined
                   end) h1 = (Ok metaData, h1)).
  { unfold metaData.
    destruct found as [m|], (find _ evs) as [e|]; try contradiction.
    - unfold Heap.bindM. now rewrite (get_object_run h1 m e Hfound).
    - reflexivity. }
  run Hmeta.
  set (metaFields :=
         VObj [("href", js_or (get_prop_opt metaData "href") (VStr href));
               ("width", js_or (get_prop_opt metaData "width") (VNum 1920));
               ("height", js_or (get_prop_opt metaData "height")
                                (VNum 1080))]).
  destruct (new_object_run h1 (mkEvent 4 metaFields 0 None))
    as (h2 & Hrun3 & Hg2 & Ha2 & Hl2 & Hp2).
  run Hrun3.
  set (lmeta := List.length (Heap.objects h1)) in *.
  assert (Hstep : exists h3,
            (match tabId snap with
             | Some t => Heap.set_tabId lmeta (Some t)
             | None => Heap.ret tt
             end) h2 = (Ok tt, h3) /\
            (forall k, Heap.grows k h1 h3) /\
            Heap.arrays h3 = Heap.arrays h1 /\
            List.length (Heap.objects h3) = S (List.length (Heap.objects h1)) /\
            Heap.points h3 lmeta (mkEvent 4 metaFields 0 (tabId snap))).
  { destruct (tabId snap) as [t|] eqn:Et.
    - eexists. split; [apply (set_tabId_run h2 lmeta _ (Some t) Hp2)|].
      assert (Hobj : Heap.objects h2
                     = Heap.objects h1 ++ [mkEvent 4 metaFields 0 None]).
      { clear -Hrun3. unfold Heap.new_object in Hrun3.
        now injection Hrun3 as <-. }
      cbn [Heap.objects Heap.arrays type data timestamp].
      rewrite Hobj, set_nth_app_r by (unfold lmeta; lia).
      unfold lmeta. rewrite Nat.sub_diag. cbn [Heap.set_nth].
      split.
      { intros k. split; [eexists; reflexivity|]. cbn [Heap.arrays].
        rewrite Ha2. split; [lia|auto]. }
      split; [assumption|]. split; [rewrite length_app; simpl; lia|].
      unfold Heap.points. cbn [Heap.objects].
      rewrite nth_error_app2, Nat.sub_diag; [reflexivity|lia].
    - exists h2. split; [reflexivity|]. split; [assumption|].
      split; [assumption|]. split; assumption. }
  destruct Hstep as (h3 & Hrun4 & Hg3 & Ha3 & Hl3 & Hp3).
  run Hrun4.
  assert (HF : forall hx, (List.length (Heap.objects h)
                           <= List.length (Heap.objects hx))%nat ->
               forall l, (List.length (Heap.objects hx) <= l)%nat ->
                         Heap.fresh_object h l).
  { intros hx Hx l Hl. unfold Heap.fresh_object. lia. }
  assert (Ht3 : Heap.tracks (Heap.fresh_object h) n [] h3).
  { exists []. split; [|split; [reflexivity|constructor]].
    unfold Heap.holds. rewrite Ha3. exact Hn1. }
  destruct (push_tracks _ n [] h3 _ _ Ht3 Hp3)
    as (h4 & Hrun5 & Hg4 & Ho4 & Hl4 & Ht4).
  { apply (HF h1); [rewrite Ho1|unfold lmeta]; lia. }
  run Hrun5.
  destruct (copy_push_tracks _ n _ h4 (with_timestamp snap 1) Ht4)
    as (h5 & Hrun6 & Hg5 & Hl5 & Ho5 & Ht5).
  { apply HF. rewrite Ho4, Hl3, Ho1. lia. }
  assert (Hrun6' : forall B (k : unit -> Heap.M B),
            Heap.bindM (Heap.new_object (with_timestamp snap 1))
              (fun c => Heap.bindM (Heap.push n c) k) h4
            = k tt h5).
  { intros B k. unfold Heap.bindM in *.
    destruct (Heap.new_object (with_timestamp snap 1) h4) as [[c|err] hx];
      [|discriminate].
    destruct (Heap.push n c hx) as [[[]|err] hy]; [|discriminate].
    now injection Hrun6 as <-. }
  rewrite Hrun6'.
  set (inRange := fun e : event =>
         num_lt startMs (timestamp e) && num_le (timestamp e) endMs).
  assert (Hh5 : Heap.holds h5 events items).
  { apply (grows_holds n h4 h5); auto.
    apply (grows_holds n h3 h4); auto.
    apply (grows_holds n h1 h3); auto. }
  assert (Hr5 : Heap.read_all h5 items = Some evs).
  { apply (grows_read_all n h4 h5); auto.
    apply (grows_read_all n h3 h4); auto.
    apply (grows_read_all n h1 h3); auto. }
  destruct (filter_array_run inRange h5 events _ _ Hh5 Hr5)
    as (h6 & kept & Hrun7 & Hg6 & Ho6 & Hl6 & Hk6 & Hrk6).
  run Hrun7.
  assert (Hlen5 : List.length (Heap.arrays h5) = S n)
    by (rewrite Hl5, Hl4, Ha3, Hl1; reflexivity).
  set (k6 := List.length (Heap.arrays h5)) in *.
  assert (Hnk : n <> k6) by lia.
  assert (Ht6 : Heap.tracks (Heap.fresh_object h) n
                  ([mkEvent 4 metaFields 0 (tabId snap)]
                     ++ [with_timestamp snap 1]) h6)
    by (apply (tracks_grows _ n k6 _ h5 h6); auto).
  run (get_array_run h6 k6 kept Hk6).
  destruct (copy_loop_tracks _ n (fun _ => true)
              (fun e => with_timestamp e (timestamp e - startMs + 2))
              kept _ _ h6 Ht6 Hrk6)
    as (h7 & Hrun8 & Hg7 & Hl7 & Ho7 & Ht7).
  { apply HF. rewrite Ho6. rewrite Ho4, Hl3, Ho1 in Ho5. lia. }
  cbv beta iota in Hrun8. run Hrun8.
  rewrite filter_all in Ht7.
  destruct (sort_tracks _ n _ h7 Ht7) as (h8 & Hrun9 & _ & _ & Ht8).
  run Hrun9.
  exists n. split; [reflexivity|]. split; [exact Ht8|].
  unfold Heap.fresh_array, n. lia.
Qed.

Lemma fullSnapshotsFrom_run h items : forall evs i,
  Heap.read_all h items = Some evs ->
  exists fsl,
    Heap.fullSnapshotsFrom i items h = (Ok fsl, h) /\
    Forall2 (Heap.pair_rel h) fsl (fullSnapshotsFrom i evs).
Proof.
  induction items as [|l items IH]; intros evs i Hr.
  - injection Hr as <-. exists []. split; [reflexivity|constructor].
  - apply read_all_cons in Hr. destruct Hr as (e & es & -> & Hp & Hes).
    destruct (IH es (S i) Hes) as (fsl & Hrun & Hrel).
    cbn [Heap.fullSnapshotsFrom fullSnapshotsFrom].
    run (get_object_run h l e Hp). run Hrun. cbn [Heap.ret].
    destruct (type e =? 2)%Z.
    + exists ((l, i) :: fsl). split; [reflexivity|].
      constructor; [now split|assumption].
    + exists fsl. now split.
Qed.

(** A scan that keeps the last entry whose snapshot passes [p]. *)
Lemma last_passing_run {T : Type} (p : event -> bool) h
    (fsl : list (Heap.loc * T)) : forall fs st stp,
  Forall2 (Heap.pair_rel h) fsl fs -> Heap.opt_rel h st stp ->
  exists st',
    Heap.fold_each
      (fun st si =>
         Heap.bindM (Heap.get_object (fst si))
           (fun snapshot => Heap.ret (if p snapshot then Some si else st)))
      fsl st h
    = (Ok st', h) /\
    Heap.opt_rel h st'
      (fold_left (fun st si => if p (fst si) then Some si else st) fs stp).
Proof.
  induction fsl as [|x fsl IH]; intros fs st stp Hrel Hst.
  - inversion Hrel; subst. exists st. split; [reflexivity|exact Hst].
  - inversion Hrel as [|? y ? fs' Hxy Hrest]; subst.
    cbn [Heap.fold_each fold_left]. unfold Heap.bindM at 1.
    unfold Heap.bindM at 1.
    rewrite (get_object_run h (fst x) (fst y) (proj1 Hxy)). cbn [Heap.ret].
    apply IH; [assumption|].
    destruct (p (fst y)); [exact Hxy|exact Hst].
Qed.

Lemma selectBaseSnapshot_run h fsl fs startMs :
  Forall2 (Heap.pair_rel h) fsl fs ->
  exists sel,
    Heap.selectBaseSnapshot fsl startMs h = (Ok sel, h) /\
    Heap.opt_rel h sel (selectBaseSnapshot fs startMs).
Proof.
  intros Hrel. unfold Heap.selectBaseSnapshot, selectBaseSnapshot.
  destruct (last_passing_run
              (fun s => num_le (timestamp s) startMs
                        && num_le (startMs - threshold) (timestamp s))
              h fsl fs None None Hrel I) as (st1 & Hrun1 & Hrel1).
  change (Heap.fold_each (Heap.within_threshold_step startMs) fsl None h
          = (Ok st1, h)) in Hrun1.
  change (Heap.opt_rel h st1
            (fold_left (within_threshold_step startMs) fs None)) in Hrel1.
  run Hrun1.
  destruct st1 as [x|],
           (fold_left (within_threshold_step startMs) fs None) as [y|];
    try contradiction.
  { exists (Some x). split; [reflexivity|exact Hrel1]. }
  destruct (last_passing_run
              (fun s => num_le (timestamp s) startMs)
              h fsl fs None None Hrel I) as (st2 & Hrun2 & Hrel2).
  change (Heap.fold_each (Heap.before_start_step startMs) fsl None h
          = (Ok st2, h)) in Hrun2.
  change (Heap.opt_rel h st2
            (fold_left (before_start_step startMs) fs None)) in Hrel2.
  run Hrun2.
  destruct st2 as [x|],
           (fold_left (before_start_step startMs) fs None) as [y|];
    try contradiction.
  { exists (Some x). split; [reflexivity|exact Hrel2]. }
  exists (hd_error fsl). split; [reflexivity|].
  destruct Hrel; simpl; auto.
Qed.

Lemma isMutation_Ok e : exists m, isMutation e = Ok m.
Proof.
  unfold isMutation. destruct (type e =? 3)%Z; [|now eexists].
  destruct (truthy (data e)) eqn:Et; [|now eexists].
  destruct (truthy_get_prop _ "source" Et) as [src ->]. now eexists.
Qed.

Lemma collectEvents_run n startMs endMs items : forall evs acc h,
  Heap.tracks Heap.anything n acc h ->
  Heap.read_all h items = Some evs ->
  exists kept h',
    collectEvents startMs endMs evs = Ok kept /\
    Heap.collectEvents startMs endMs n items h = (Ok tt, h') /\
    Heap.grows n h h' /\ Heap.objects h' = Heap.objects h /\
    List.length (Heap.arrays h') = List.length (Heap.arrays h) /\
    Heap.tracks Heap.anything n (acc ++ kept) h'.
Proof.
  induction items as [|l items IH]; intros evs acc h Ht Hr.
  - injection Hr as <-. exists [], h. rewrite app_nil_r.
    split; [reflexivity|]. split; [reflexivity|].
    split; [apply grows_refl|]. auto.
  - apply read_all_cons in Hr. destruct Hr as (e & es & -> & Hp & Hes).
    cbn [Heap.collectEvents collectEvents].
    run (get_object_run h l e Hp).
    destruct (num_lt endMs (timestamp e)).
    { exists [], h. rewrite app_nil_r.
      split; [reflexivity|]. split; [reflexivity|].
      split; [apply grows_refl|]. auto. }
    destruct (type e =? 2)%Z; [now apply IH|].
    assert (Hpush : forall hx accx,
              Heap.tracks Heap.anything n accx hx -> Heap.points hx l e ->
              Heap.read_all hx items = Some es ->
              exists kept h',
                collectEvents startMs endMs es = Ok kept /\
                Heap.bindM (Heap.push n l)
                  (fun _ => Heap.collectEvents startMs endMs n items) hx
                = (Ok tt, h') /\
                Heap.grows n hx h' /\ Heap.objects h' = Heap.objects hx /\
                List.length (Heap.arrays h') = List.length (Heap.arrays hx) /\
                Heap.tracks Heap.anything n (accx ++ e :: kept) h').
    { intros hx accx Htx Hpx Hesx.
      destruct (push_tracks Heap.anything n accx hx l e Htx Hpx I)
        as (h1 & Hrun1 & Hg1 & Ho1 & Hl1 & Ht1).
      destruct (IH es (accx ++ [e]) h1 Ht1
                  (grows_read_all n hx h1 items es Hg1 Hesx))
        as (kept & h2 & Hpure & Hrun2 & Hg2 & Ho2 & Hl2 & Ht2).
      exists kept, h2. split; [assumption|].
      split; [run Hrun1; exact Hrun2|].
      split; [apply (grows_trans n hx h1 h2); auto|].
      split; [congruence|]. split; [congruence|].
      now rewrite <- app_assoc in Ht2. }
    destruct (num_lt (timestamp e) startMs).
    + destruct (isMutation_Ok e) as [m Hm]. rewrite Hm.
      unfold Heap.bindM at 1. unfold Heap.lift. cbv beta iota.
      cbn [bind].
      destruct m.
      * destruct (Hpush h acc Ht Hp Hes)
          as (kept & h' & Hpure & Hrun & Hrest).
        exists (e :: kept), h'. rewrite Hpure. cbn [bind].
        split; [reflexivity|]. split; [exact Hrun|exact Hrest].
      * destruct (IH es acc h Ht Hes)
          as (kept & h' & Hpure & Hrun & Hrest).
        exists kept, h'. rewrite Hpure. cbn [bind].
        split; [reflexivity|]. split; [|exact Hrest].
        unfold Heap.bindM at 1. cbn [Heap.ret]. exact Hrun.
    + destruct (Hpush h acc Ht Hp Hes)
        as (kept & h' & Hpure & Hrun & Hrest).
      exists (e :: kept), h'. rewrite Hpure. cbn [bind].
      split; [reflexivity|]. split; [exact Hrun|exact Hrest].
Qed.

Lemma read_all_skipn h : forall k items evs,
  Heap.read_all h items = Some evs ->
  Heap.read_all h (skipn k items) = Some (skipn k evs).
Proof.
  induction k as [|k IH]; intros items evs Hr; [exact Hr|].
  destruct items as [|l items].
  - now injection Hr as <-.
  - apply read_all_cons in Hr. destruct Hr as (e & es & -> & _ & Hes).
    simpl. now apply IH.
Qed.

Lemma read_all_hd h items evs d d' :
  Heap.read_all h items = Some evs -> Heap.points h d d' ->
  Heap.points h (hd d items) (hd d' evs).
Proof.
  intros Hr Hd. destruct items as [|l items].
  - now injection Hr as <-.
  - apply read_all_cons in Hr. now destruct Hr as (e & es & -> & Hp & _).
Qed.

(** [newEvents.map]: a fresh object for each shifted event. *)
Lemma shift_map_run (f : event -> result event) cur : forall evs h,
  Heap.read_all h cur = Some evs ->
  match mapM f evs with
  | Ok outs =>
      exists locs h',
        Heap.map_each
          (fun l =>
             Heap.bindM (Heap.get_object l)
               (fun e => Heap.bindM (Heap.lift (f e))
                           (fun e' => Heap.new_object e')))
          cur h
        = (Ok locs, h') /\
        (forall k, Heap.grows k h h') /\
        Heap.arrays h' = Heap.arrays h /\
        Heap.read_all h' locs = Some outs /\
        Forall (fun l => (List.length (Heap.objects h) <= l)%nat) locs
  | Throw err =>
      exists h',
        Heap.map_each
          (fun l =>
             Heap.bindM (Heap.get_object l)
               (fun e => Heap.bindM (Heap.lift (f e))
                           (fun e' => Heap.new_object e')))
          cur h
        = (Throw err, h')
  end.
Proof.
  induction cur as [|l cur IH]; intros evs h Hr.
  - injection Hr as <-. simpl. exists [], h.
    split; [reflexivity|]. split; [intros k; apply grows_refl|].
    split; [reflexivity|]. split; [reflexivity|constructor].
  - apply read_all_cons in Hr. destruct Hr as (e & es & -> & Hp & Hes).
    cbn [Heap.map_each mapM].
    assert (Hstep :
      Heap.bindM (Heap.get_object l)
        (fun e => Heap.bindM (Heap.lift (f e))
                    (fun e' => Heap.new_object e')) h
      = match f e with
        | Ok e' => Heap.new_object e' h
        | Throw err => (Throw err, h)
        end).
    { unfold Heap.bindM, Heap.lift. rewrite (get_object_run h l e Hp).
      now destruct (f e). }
    destruct (f e) as [e'|err]; cbn [bind].
    + destruct (new_object_run h e')
        as (h1 & Hrun1 & Hg1 & Ha1 & Hl1 & Hp1).
      specialize (IH es h1
                    (grows_read_all 0%nat h h1 cur es (Hg1 0%nat) Hes)).
      destruct (mapM f es) as [outs|err]; cbn [bind].
      * destruct IH as (locs & h2 & Hrun2 & Hg2 & Ha2 & Hr2 & Hf2).
        exists (List.length (Heap.objects h) :: locs), h2.
        split; [run Hstep; rewrite Hrun1; cbv beta iota; run Hrun2;
                reflexivity|].
        split; [intros k; apply (grows_trans k h h1 h2); auto|].
        split; [congruence|]. split.
        -- apply read_all_intro; [|assumption].
           now apply (grows_points 0%nat h1 h2).
        -- constructor; [lia|].
           rewrite Forall_forall in *. intros x Hx.
           specialize (Hf2 x Hx). lia.
      * destruct IH as (h2 & Hrun2). exists h2.
        run Hstep. rewrite Hrun1. cbv beta iota. run Hrun2. reflexivity.
    + exists h. run Hstep. reflexivity.
Qed.

Lemma heap_trimRecordingFallback_refines h events items evs startMs endMs :
  Heap.holds h events items -> Heap.read_all h items = Some evs ->
  Heap.refines h (trimRecordingFallback evs startMs endMs)
    (Heap.trimRecordingFallback events startMs endMs h).
Proof.
  intros Hh Hr. unfold Heap.trimRecordingFallback, trimRecordingFallback.
  run (get_array_run h events items Hh).
  destruct (fullSnapshotsFrom_run h items evs 0 Hr) as (fsl & Hrun0 & Hfs).
  run Hrun0.
  destruct (selectBaseSnapshot_run h fsl _ startMs Hfs)
    as (sel & Hrun1 & Hsel).
  run Hrun1.
  destruct sel as [[lbase idx']|],
           (selectBaseSnapshot (fullSnapshotsFrom 0 evs) startMs)
             as [[base idx]|];
    try contradiction; [|reflexivity].
  destruct Hsel as [Hpb Hidx]. simpl in Hpb, Hidx. subst idx'.
  run (get_object_run h lbase base Hpb).
  destruct (new_array_run h []) as (h1 & Hrun2 & Hg1 & Ho1 & Hl1 & Hn1).
  run Hrun2.
  set (n := List.length (Heap.arrays h)) in *.
  assert (Hen : events <> n).
  { intros Heq. unfold Heap.holds in Hh. rewrite Heq in Hh.
    assert (Hnone : nth_error (Heap.arrays h) n = None)
      by (apply nth_error_None; unfold n; lia).
    congruence. }
  assert (Ht1 : Heap.tracks Heap.anything n [] h1).
  { exists []. split; [assumption|]. split; [reflexivity|constructor]. }
  destruct (copy_push_tracks Heap.anything n [] h1
              (with_timestamp base (timestamp base)) Ht1)
    as (h2 & Hrun3 & Hg2 & Hl2 & Ho2 & Ht2); [intros; exact I|].
  assert (Hrun3' : forall B (k : unit -> Heap.M B),
            Heap.bindM (Heap.new_object (with_timestamp base (timestamp base)))
              (fun c => Heap.bindM (Heap.push n c) k) h1
            = k tt h2).
  { intros B k. unfold Heap.bindM in *.
    destruct (Heap.new_object _ h1) as [[c|err] hx]; [|discriminate].
    destruct (Heap.push n c hx) as [[[]|err] hy]; [|discriminate].
    now injection Hrun3 as <-. }
  rewrite Hrun3'.
  assert (Hg02 : Heap.grows n h h2)
    by (apply (grows_trans n h h1 h2); auto).
  assert (Hh2 : Heap.holds h2 events items)
    by (apply (grows_holds n h h2); auto).
  assert (Hr2 : Heap.read_all h2 items = Some evs)
    by (apply (grows_read_all n h h2); auto).
  destruct (find_in_array_run (fun e => (type e =? 4)%Z) h2 events items evs
              Hh2 Hr2) as (found & Hrun4 & Hfound).
  run Hrun4.
  set (metaEvents := match find (fun e => (type e =? 4)%Z) evs with
                     | Some m => [with_timestamp m (timestamp base + 1)]
                     | None => []
                     end).
  assert (Hmeta : exists h3,
            (match found with
             | Some m =>
                 Heap.bindM (Heap.get_object m)
                   (fun e =>
                      Heap.bindM
                        (Heap.new_object
                           (with_timestamp e (timestamp base + 1)))
                        (fun c => Heap.push n c))
             | None => Heap.ret tt
             end) h2 = (Ok tt, h3) /\
            Heap.grows n h2 h3 /\
            Heap.tracks Heap.anything n
              ([with_timestamp base (timestamp base)] ++ metaEvents) h3).
  { unfold metaEvents.
    destruct found as [m|], (find _ evs) as [e|]; try contradiction.
    - destruct (copy_push_tracks Heap.anything n _ h2
                  (with_timestamp e (timestamp base + 1)) Ht2)
        as (h3 & Hrun5 & Hg3 & _ & _ & Ht3); [intros; exact I|].
      exists h3. unfold Heap.bindM at 1.
      rewrite (get_object_run h2 m e Hfound). cbv beta iota.
      split; [exact Hrun5|]. split; assumption.
    - exists h2. rewrite app_nil_r.
      split; [reflexivity|]. split; [apply grows_refl|assumption]. }
  destruct Hmeta as (h3 & Hrun5 & Hg3 & Ht3).
  run Hrun5.
  assert (Hg03 : Heap.grows n h h3)
    by (apply (grows_trans n h h2 h3); auto).
  assert (Hr3 : Heap.read_all h3 (skipn (idx + 1) items)
                = Some (skipn (idx + 1) evs)).
  { apply read_all_skipn. apply (grows_read_all n h h3); auto. }
  destruct (collectEvents_run n startMs endMs _ _ _ h3 Ht3 Hr3)
    as (kept & h4 & Hpure & Hrun6 & Hg4 & Ho4 & Hl4 & Ht4).
  run Hrun6. rewrite Hpure. cbn [bind]. cbv zeta.
  fold metaEvents.
  rewrite <- app_assoc in Ht4. cbn [app] in Ht4.
  destruct (sort_tracks Heap.anything n _ h4 Ht4) as (h5 & Hrun7 & Hg5 & Ho5 & Ht5).
  run Hrun7.
  set (sorted := sort_by_timestamp
                   (with_timestamp base (timestamp base)
                      :: metaEvents ++ kept)) in *.
  pose proof Ht5 as (accl & Hh5 & Hr5 & _).
  run (get_array_run h5 n accl Hh5).
  rewrite <- (read_all_length h5 accl _ Hr5).
  assert (Hfill : exists h6,
            (if (List.length sorted =? 1)%nat
             then Heap.bindM
                    (Heap.new_object (minimalEvent (timestamp base + 10)))
                    (fun minimal => Heap.push n minimal)
             else Heap.ret tt) h5 = (Ok tt, h6) /\
            Heap.grows n h5 h6 /\
            Heap.tracks Heap.anything n
              (if (List.length sorted =? 1)%nat
               then sorted ++ [minimalEvent (timestamp base + 10)]
               else sorted) h6).
  { destruct (List.length sorted =? 1)%nat.
    - destruct (copy_push_tracks Heap.anything n sorted h5
                  (minimalEvent (timestamp base + 10)) Ht5)
        as (h6 & Hrun8 & Hg6 & _ & _ & Ht6); [intros; exact I|].
      exists h6. auto.
    - exists h5. split; [reflexivity|]. split; [apply grows_refl|assumption]. }
  destruct Hfill as (h6 & Hrun8 & Hg6 & Ht6).
  run Hrun8.
  set (newEvents := if (List.length sorted =? 1)%nat
                    then sorted ++ [minimalEvent (timestamp base + 10)]
                    else sorted) in *.
  destruct Ht6 as (accl6 & Hh6 & Hr6 & _).
  run (get_array_run h6 n accl6 Hh6).
  assert (Hg06 : Heap.grows n h h6).
  { apply (grows_trans n h h3 h6); auto.
    apply (grows_trans n h3 h4 h6); auto.
    apply (grows_trans n h4 h5 h6); auto. }
  assert (Hhd : Heap.points h6 (hd lbase accl6) (hd base newEvents)).
  { apply read_all_hd; [assumption|]. now apply (grows_points n h h6). }
  run (get_object_run h6 _ _ Hhd).
  pose proof (shift_map_run
                (shiftEvent startMs (startMs - timestamp base)
                   (timestamp (hd base newEvents)))
                accl6 newEvents h6 Hr6) as Hmap.
  destruct (mapM _ newEvents) as [outs|err]; cbn [bind].
  - destruct Hmap as (locs & h7 & Hrun9 & Hg7 & Ha7 & Hr7 & Hf7).
    run Hrun9.
    destruct (new_array_run h7 locs) as (h8 & Hrun10 & Hg8 & Ho8 & Hl8 & Hn8).
    run Hrun10.
    rewrite (read_all_length h7 locs outs Hr7).
    destruct (List.length locs <? 2)%nat; [reflexivity|].
    exists (List.length (Heap.arrays h7)). split; [reflexivity|].
    split.
    + exists locs. split; [assumption|].
      split; [now apply (grows_read_all 0%nat h7 h8)|].
      rewrite Forall_forall in *. intros l Hl. specialize (Hf7 l Hl).
      unfold Heap.fresh_object.
      destruct Hg06 as ([os Hos] & _). rewrite Hos, length_app in Hf7. lia.
    + unfold Heap.fresh_array. rewrite Ha7.
      destruct Hg06 as (_ & Hlen & _). lia.
  - destruct Hmap as (h7 & Hrun9). run Hrun9. reflexivity.
Qed.

(** Read back, the run of a heap version is the result of the version on
    lists. *)
Lemma refines_outcome h pure r :
  Heap.refines h pure r -> Heap.outcome r = pure.
Proof.
  destruct r as [res h']. unfold Heap.refines, Heap.outcome.
  destruct pure as [out|err]; simpl.
  - intros (n & -> & (accl & Hh & Hr & _) & _).
    unfold Heap.read_log. unfold Heap.holds in Hh. now rewrite Hh, Hr.
  - now intros ->.
Qed.

End Refinement.

(** * The properties of the specification *)

Section Specification.

Variable href : string.
Variable replay_and_snapshot : list event -> Q -> result value.


(** C6.  On a non-empty log trimRecording works on the clamped range: a
    start before the first event's timestamp is raised to it, an end after
    the last event's timestamp is lowered to it, and the call is the call
    on the clamped range.  It throws the invalid-range error (carrying the
    clamped bounds) when the clamped start is at or after the clamped end,
    and throws no invalid-range error otherwise. *)
Theorem C6_trimRecording_clamp (first : event) (rest : list event)
    (startMs endMs : Q) :
  let events := first :: rest in
  let recordingStart := timestamp first in
  let recordingEnd := timestamp (last events first) in
  let startMs' := clampStart recordingStart startMs in
  let endMs' := clampEnd recordingEnd endMs in
  (startMs < recordingStart -> startMs' = recordingStart) /\
  (recordingStart <= startMs -> startMs' = startMs) /\
  (recordingEnd < endMs -> endMs' = recordingEnd) /\
  (endMs <= recordingEnd -> endMs' = endMs) /\
  trimRecording href replay_and_snapshot events startMs endMs
  = trimRecording href replay_and_snapshot events startMs' endMs' /\
  (endMs' <= startMs' ->
   trimRecording href replay_and_snapshot events startMs endMs
   = Throw (InvalidTimeRange startMs' endMs')) /\
  (startMs' < endMs' ->
   forall a b,
     trimRecording href replay_and_snapshot events startMs endMs
     <> Throw (InvalidTimeRange a b)).
Proof.
  intros events recordingStart recordingEnd startMs' endMs'.
  assert (Hs1 : startMs < recordingStart -> startMs' = recordingStart).
  { intros H. unfold startMs', clampStart.
    apply num_lt_iff in H. now rewrite H. }
  assert (Hs2 : recordingStart <= startMs -> startMs' = startMs).
  { intros H. unfold startMs', clampStart.
    apply num_lt_false_iff in H. now rewrite H. }
  assert (He1 : recordingEnd < endMs -> endMs' = recordingEnd).
  { intros H. unfold endMs', clampEnd.
    apply num_lt_iff in H. now rewrite H. }
  assert (He2 : endMs <= recordingEnd -> endMs' = endMs).
  { intros H. unfold endMs', clampEnd.
    apply num_lt_false_iff in H. now rewrite H. }
  assert (Hidem_s : clampStart recordingStart startMs' = startMs').
  { unfold startMs', clampStart.
    destruct (num_lt startMs recordingStart) eqn:E; [|now rewrite E].
    assert (H : num_lt recordingStart recordingStart = false)
      by (apply num_lt_false_iff, Qle_refl).
    now rewrite H. }
  assert (Hidem_e : clampEnd recordingEnd endMs' = endMs').
  { unfold endMs', clampEnd.
    destruct (num_lt recordingEnd endMs) eqn:E; [|now rewrite E].
    assert (H : num_lt recordingEnd recordingEnd = false)
      by (apply num_lt_false_iff, Qle_refl).
    now rewrite H. }
  pose proof (trimRecording_unfold href replay_and_snapshot
                first rest startMs endMs) as Hu.
  pose proof (trimRecording_unfold href replay_and_snapshot
                first rest startMs' endMs') as Hu'.
  cbv zeta in Hu, Hu'.
  fold events recordingStart recordingEnd in Hu, Hu'.
  fold startMs' endMs' in Hu.
  rewrite Hidem_s, Hidem_e in Hu'.
  repeat (split; [assumption|]).
  split; [now rewrite Hu, Hu'|]. split.
  - intros Hle. rewrite Hu. apply num_le_iff in Hle. now rewrite Hle.
  - intros Hlt a b. rewrite Hu. apply num_le_false_iff in Hlt. rewrite Hlt.
    destruct (boundarySnapshot _ _ _); [discriminate|].
    pose proof (trimRecordingFallback_raises events startMs' endMs') as Hr.
    destruct (trimRecordingFallback events startMs' endMs');
      [discriminate|].
    simpl in Hr. intros [= ->]. now apply (Hr a b).
Qed.

(** C7.  On the reconstruction success path (the clamped range is valid
    and the boundary snapshot [snap] was obtained, by exact match or by
    reconstruction) the output of trimRecording is exactly: the type-4
    Meta event at timestamp 0, whose href, width and height are those of
    the first Meta event of the log where they are present (truthy) and
    the defaults (window.location.href, 1920, 1080) otherwise; the
    boundary snapshot, of type 2, at timestamp 1; then the events [kept]
    of the log with timestamp in (startMs', endMs'], each re-timestamped
    to [timestamp - startMs' + 2], sorted ascending, which on a log in
    timestamp order is their original order. *)
Theorem C7_trimRecording_success (first : event) (rest : list event)
    (startMs endMs : Q) (snap : event) :
  let events := first :: rest in
  let startMs' := clampStart (timestamp first) startMs in
  let endMs' := clampEnd (timestamp (last events first)) endMs in
  startMs' < endMs' ->
  boundarySnapshot replay_and_snapshot events startMs' = Ok snap ->
  exists metaEvent kept,
    trimRecording href replay_and_snapshot events startMs endMs
    = Ok (metaEvent :: with_timestamp snap 1
            :: sort_by_timestamp
                 (map (fun e => with_timestamp e (timestamp e - startMs' + 2))
                      kept)) /\
    type metaEvent = 4%Z /\ timestamp metaEvent = 0 /\
    (exists h w ht,
       data metaEvent = VObj [("href", h); ("width", w); ("height", ht)] /\
       (forall m, find (fun e => (type e =? 4)%Z) events = Some m ->
          h = js_or (get_prop_opt (data m) "href") (VStr href) /\
          w = js_or (get_prop_opt (data m) "width") (VNum 1920) /\
          ht = js_or (get_prop_opt (data m) "height") (VNum 1080)) /\
       (find (fun e => (type e =? 4)%Z) events = None ->
          h = VStr href /\ w = VNum 1920 /\ ht = VNum 1080)) /\
    type snap = 2%Z /\
    (exists keep : event -> bool,
       kept = filter keep events /\
       forall e, keep e = true <->
                 startMs' < timestamp e /\ timestamp e <= endMs') /\
    nondecreasing
      (sort_by_timestamp
         (map (fun e => with_timestamp e (timestamp e - startMs' + 2)) kept)) /\
    (nondecreasing events ->
     sort_by_timestamp
       (map (fun e => with_timestamp e (timestamp e - startMs' + 2)) kept)
     = map (fun e => with_timestamp e (timestamp e - startMs' + 2)) kept).
Proof.
  intros events startMs' endMs' Hrange Hsnap.
  pose proof (trimRecording_unfold href replay_and_snapshot
                first rest startMs endMs) as Hu.
  cbv zeta in Hu. fold events startMs' endMs' in Hu.
  apply num_le_false_iff in Hrange. rewrite Hrange, Hsnap in Hu.
  rewrite buildTrimmed_shape in Hu.
  exists (metaEventFor href events snap).
  exists (filter (fun e => num_lt startMs' (timestamp e)
                           && num_le (timestamp e) endMs') events).
  split; [exact Hu|]. split; [reflexivity|]. split; [reflexivity|].
  split.
  { unfold metaEventFor. cbv zeta.
    do 3 eexists. split; [reflexivity|]. split.
    - intros m Hm. now rewrite Hm.
    - intros Hm. now rewrite Hm. }
  split; [now apply boundarySnapshot_type in Hsnap|].
  split.
  { eexists. split; [reflexivity|]. intros e. cbv beta.
    now rewrite andb_true_iff, num_lt_iff, num_le_iff. }
  split; [apply sort_by_timestamp_sorted|].
  intros Hsorted. apply sort_by_timestamp_id.
  apply nondecreasing_map; [|now apply nondecreasing_filter].
  intros a b _ _. unfold ts_le. simpl. lra.
Qed.

(** C2.  On a non-empty log with a valid clamped range, whenever the
    reconstruction fails, whatever the error, trimRecording returns what
    trimRecordingFallback returns on the clamped range; an error reaches
    the caller only as the fallback's own error; and on a log in timestamp
    order that has a type-2 event the fallback, hence trimRecording,
    returns a log. *)
Theorem C2_trimRecording_fallback (first : event) (rest : list event)
    (startMs endMs : Q) :
  let events := first :: rest in
  let startMs' := clampStart (timestamp first) startMs in
  let endMs' := clampEnd (timestamp (last events first)) endMs in
  startMs' < endMs' ->
  (forall err,
     boundarySnapshot replay_and_snapshot events startMs' = Throw err ->
     trimRecording href replay_and_snapshot events startMs endMs
     = trimRecordingFallback events startMs' endMs') /\
  (forall err,
     trimRecording href replay_and_snapshot events startMs endMs = Throw err ->
     trimRecordingFallback events startMs' endMs' = Throw err) /\
  (nondecreasing events ->
   (exists k, In k events /\ type k = 2%Z) ->
   (exists out, trimRecordingFallback events startMs' endMs' = Ok out) /\
   (exists out,
      trimRecording href replay_and_snapshot events startMs endMs = Ok out)).
Proof.
  intros events startMs' endMs' Hrange.
  pose proof (trimRecording_unfold href replay_and_snapshot
                first rest startMs endMs) as Hu.
  cbv zeta in Hu. fold events startMs' endMs' in Hu.
  apply num_le_false_iff in Hrange. rewrite Hrange in Hu.
  split; [|split].
  - intros err Herr. now rewrite Hu, Herr.
  - intros err. rewrite Hu.
    destruct (boundarySnapshot _ _ _); [discriminate|auto].
  - intros Hsorted (k & Hk & Hk2).
    assert (Hfb : exists out,
               trimRecordingFallback events startMs' endMs' = Ok out).
    { pose proof (selectBaseSnapshot_spec (fullSnapshotsFrom 0 events)
                    startMs' (fullSnapshotsFrom_sorted 0 events Hsorted))
        as Hspec.
      destruct (selectBaseSnapshot _ _) as [[base idx]|] eqn:Hsel.
      - destruct (trimRecordingFallback_sorted events startMs' endMs'
                    base idx Hsorted Hsel) as (tl & Hfb & _).
        eexists. exact Hfb.
      - exfalso.
        apply (proj1 (fullSnapshotsFrom_nil 0 events) Hspec k Hk Hk2). }
    split; [assumption|]. rewrite Hu.
    destruct (boundarySnapshot _ _ _); [eexists; reflexivity|assumption].
Qed.


(** C1.  For every log in timestamp order: the output of
    cutRecording has non-decreasing timestamps, at least two events and
    contains a type-2 event; the output of trimRecording has at least two
    events, and on the reconstruction path it has non-decreasing
    timestamps and starts with the type-4 Meta event at timestamp 0
    followed by the type-2 boundary snapshot at timestamp 1, while on the
    fallback path its first event is the type-2 base snapshot. *)
Theorem C1_output_invariants (first : event) (rest : list event) :
  let events := first :: rest in
  nondecreasing events ->
  (forall center before after out,
     cutRecording href events center before after = Ok out ->
     nondecreasing out /\ (2 <= List.length out)%nat /\
     exists k, In k out /\ isFullSnapshot k) /\
  (forall startMs endMs out,
     let startMs' := clampStart (timestamp first) startMs in
     trimRecording href replay_and_snapshot events startMs endMs = Ok out ->
     (2 <= List.length out)%nat /\
     (forall snap,
        boundarySnapshot replay_and_snapshot events startMs' = Ok snap ->
        nondecreasing out /\
        exists metaEvent tl,
          out = metaEvent :: with_timestamp snap 1 :: tl /\
          type metaEvent = 4%Z /\ timestamp metaEvent = 0 /\
          isFullSnapshot (with_timestamp snap 1)) /\
     (forall err,
        boundarySnapshot replay_and_snapshot events startMs' = Throw err ->
        keyframe_first out)).
Proof.
  intros events Hsorted. split.
  - intros c b a out Hcut.
    pose proof (closestFullSnapshot_inv events
                  (timestamp first + c * 1000 - b * 1000)) as Hinv.
    destruct (closestFullSnapshot events _) as [[s d]|] eqn:Hsel.
    + cbn [closest_inv] in Hinv.
      destruct Hinv as (_ & _ & _ & Hs & _).
      destruct (cutRecording_selected href first rest c b a s d Hsel)
        as (others & filler & Hout & _ & Hfill).
      fold events in Hout.
      assert (Hout' : out = sort_by_timestamp (s :: others ++ filler))
        by congruence.
      subst out.
      split; [apply sort_by_timestamp_sorted|]. split.
      * rewrite sort_by_timestamp_length. simpl. rewrite length_app.
        destruct Hfill as [[-> Ho]|[-> ->]]; simpl; [|lia].
        destruct others; [congruence|simpl; lia].
      * exists s. split; [|assumption].
        apply sort_by_timestamp_In. now left.
    + unfold events in *. unfold cutRecording in Hcut.
      rewrite Hsel in Hcut. discriminate.
  - intros startMs endMs out startMs' Htrim.
    pose proof (trimRecording_unfold href replay_and_snapshot
                  first rest startMs endMs) as Hu.
    cbv zeta in Hu. fold events startMs' in Hu.
    rewrite Hu in Htrim.
    set (endMs' := clampEnd (timestamp (last events first)) endMs) in *.
    destruct (num_le endMs' startMs'); [discriminate|].
    destruct (boundarySnapshot _ _ _) as [snap|err] eqn:Hb.
    + assert (Hout : out = buildTrimmed href events startMs' endMs' snap)
        by congruence.
      subst out. rewrite buildTrimmed_shape.
      split; [simpl; lia|]. split; [|intros err; discriminate].
      intros snap' [= <-]. split.
      * rewrite <- buildTrimmed_shape. apply sort_by_timestamp_sorted.
      * do 2 eexists. split; [reflexivity|].
        split; [reflexivity|]. split; [reflexivity|].
        now apply boundarySnapshot_type in Hb.
    + destruct (selectBaseSnapshot (fullSnapshotsFrom 0 events) startMs')
        as [[base idx]|] eqn:Hsel.
      * destruct (trimRecordingFallback_sorted events startMs' endMs'
                    base idx Hsorted Hsel) as (tl & Hfb & Hlen).
        assert (Hout : out = with_timestamp base
                                 (timestamp base - startMs' + 100) :: tl)
          by congruence.
        subst out.
        split; [simpl; lia|]. split; [intros snap; discriminate|].
        intros _ _. do 2 eexists. split; [reflexivity|].
        apply selectBaseSnapshot_In, fullSnapshotsFrom_In in Hsel.
        unfold isFullSnapshot. simpl. tauto.
      * unfold trimRecordingFallback in Htrim. rewrite Hsel in Htrim.
        discriminate.
Qed.

(** C4.  For every log in timestamp order, analysing the
    output of trimRecording reports at most one event more than the
    original log has and a duration of at most the original duration plus
    0.002 s on the reconstruction path (the two slots of the Meta event and
    the snapshot), and of at most the larger of the original duration and
    0.01 s on the fallback path; analysing the output of cutRecording
    reports a duration of at most the original duration, except when the
    filler event was appended: the output then has two events and a
    duration of 0.1 s. *)
Theorem C4_roundtrip_stats (first : event) (rest : list event) :
  let events := first :: rest in
  nondecreasing events ->
  exists original,
    analyzeRecording events = Some original /\
    (forall startMs endMs out,
       let startMs' := clampStart (timestamp first) startMs in
       trimRecording href replay_and_snapshot events startMs endMs = Ok out ->
       exists stats,
         analyzeRecording out = Some stats /\
         (totalEvents stats <= totalEvents original + 1)%nat /\
         (forall snap,
            boundarySnapshot replay_and_snapshot events startMs' = Ok snap ->
            duration stats <= duration original + 2 / 1000) /\
         (forall err,
            boundarySnapshot replay_and_snapshot events startMs' = Throw err ->
            duration stats <= duration original \/
            duration stats <= 10 / 1000)) /\
    (forall center before after out,
       cutRecording href events center before after = Ok out ->
       exists stats,
         analyzeRecording out = Some stats /\
         (duration stats <= duration original \/
          totalEvents stats = 2%nat /\ duration stats == 100 / 1000)).
Proof.
  intros events Hsorted.
  eexists. split; [reflexivity|]. cbn [totalEvents duration]. split.
  - intros startMs endMs out Htrim.
    set (startMs' := clampStart (timestamp first) startMs).
    pose proof (trimRecording_unfold href replay_and_snapshot
                  first rest startMs endMs) as Hu.
    cbv zeta in Hu. fold events startMs' in Hu.
    rewrite Hu in Htrim. clear Hu.
    set (recordingEnd := timestamp (last events first)) in *.
    set (endMs' := clampEnd recordingEnd endMs) in *.
    destruct (num_le endMs' startMs') eqn:Hrange; [discriminate|].
    apply num_le_false_iff in Hrange.
    destruct (clampStart_ge (timestamp first) startMs) as [Hs1 _].
    destruct (clampEnd_le recordingEnd endMs) as [He1 _].
    fold startMs' in Hs1. fold endMs' in He1.
    destruct (boundarySnapshot _ _ _) as [snap|err] eqn:Hb.
    + assert (Hout : out = buildTrimmed href events startMs' endMs' snap)
        by congruence.
      subst out. rewrite buildTrimmed_shape.
      set (adj := sort_by_timestamp _).
      assert (Hadj : forall e, In e adj ->
                timestamp e <= endMs' - startMs' + 2).
      { intros e He. unfold adj in He.
        apply (proj1 (sort_by_timestamp_In _ _)) in He.
        apply in_map_iff in He. destruct He as (o & <- & Ho).
        apply filter_In in Ho. destruct Ho as [_ Ho].
        apply andb_true_iff in Ho. destruct Ho as [_ Ho].
        apply num_le_iff in Ho. simpl. lra. }
      assert (Hlen : (List.length adj <= List.length rest)%nat).
      { unfold adj. rewrite sort_by_timestamp_length, length_map.
        unfold events. cbn [filter].
        assert (Hf : num_lt startMs' (timestamp first) = false)
          by now apply num_lt_false_iff.
        rewrite Hf. cbn [andb]. apply filter_length_le. }
      eexists. split; [reflexivity|]. cbn [totalEvents duration].
      split; [simpl; lia|].
      split; [|intros err; discriminate].
      intros snap' _.
      set (lastEvent := last _ _).
      assert (Hlast : timestamp lastEvent <= endMs' - startMs' + 2).
      { pose proof (last_In (metaEventFor href events snap)
                      (metaEventFor href events snap)
                      (with_timestamp snap 1 :: adj)) as Hin.
        fold lastEvent in Hin.
        destruct Hin as [<-|[<-|Hin]]; [simpl; lra|simpl; lra|].
        now apply Hadj. }
      change (timestamp (metaEventFor href events snap)) with 0.
      duration_lra.
    + destruct (selectBaseSnapshot (fullSnapshotsFrom 0 events) startMs')
        as [[base idx]|] eqn:Hsel.
      * destruct (trimRecordingFallback_sorted_shape events startMs' endMs'
                    base idx Hsorted Hsel)
          as (tail & tl & Hfb & Hlen & Hshift & Htail).
        assert (Hout : out = with_timestamp base
                                 (timestamp base - startMs' + 100) :: tl)
          by congruence.
        subst out.
        eexists. split; [reflexivity|]. cbn [totalEvents duration].
        split; [simpl in *; lia|]. split; [intros snap; discriminate|].
        intros _ _.
        assert (Hbase : In base events).
        { apply selectBaseSnapshot_In, fullSnapshotsFrom_In in Hsel.
          destruct Hsel as (_ & _ & Hn). now apply nth_error_In in Hn. }
        pose proof (nondecreasing_first first rest Hsorted base Hbase)
          as Hb1.
        destruct tl as [|t tl']; [simpl in Hlen; lia|].
        change (last (with_timestamp base (timestamp base - startMs' + 100)
                        :: t :: tl') _)
          with (last (t :: tl')
                  (with_timestamp base (timestamp base - startMs' + 100))).
        destruct (Forall2_last _ _ _ Hshift ltac:(discriminate)
                    (with_timestamp base (timestamp base - startMs' + 100)))
          as (e & He & Hsh).
        set (lastEvent := last (t :: tl') _) in *.
        cbn [timestamp with_timestamp].
        destruct (shiftEvent_timestamp _ _ _ _ _ Hsh) as [Hts|[Hpre Hts]].
        -- rewrite Hts.
           destruct (Htail e He) as [[_ Hm]|[[Hk Hge]| ->]].
           ++ right. rewrite Hm. duration_lra.
           ++ left. destruct Hk as (Hin & _).
              apply In_skipn in Hin.
              pose proof (nondecreasing_last first rest Hsorted e Hin)
                as He2.
              fold events recordingEnd in He2. duration_lra.
           ++ right. cbn [timestamp minimalEvent]. duration_lra.
        -- left. fold recordingEnd. duration_lra.
      * unfold trimRecordingFallback in Htrim. rewrite Hsel in Htrim.
        discriminate.
  - intros c b a out Hcut.
    pose proof (closestFullSnapshot_inv events
                  (timestamp first + c * 1000 - b * 1000)) as Hinv.
    destruct (closestFullSnapshot events _) as [[s d]|] eqn:Hsel.
    + cbn [closest_inv] in Hinv.
      destruct Hinv as (pre & post & Hev & _).
      assert (Hsin : In s events)
        by (rewrite Hev; apply in_or_app; right; now left).
      destruct (cutRecording_selected href first rest c b a s d Hsel)
        as (others & filler & Hout & Hothers & Hfill).
      fold events in Hout, Hothers.
      assert (Hout' : out = sort_by_timestamp (s :: others ++ filler))
        by congruence.
      subst out. clear Hout Hcut.
      destruct Hfill as [[-> Ho]|[-> ->]].
      * rewrite app_nil_r.
        assert (Hin : forall e, In e (sort_by_timestamp (s :: others)) ->
                  In e events).
        { intros e He. apply (proj1 (sort_by_timestamp_In _ _)) in He.
          destruct He as [<-|He]; [assumption|]. now apply Hothers. }
        destruct (sort_by_timestamp (s :: others)) as [|o out'] eqn:Eo.
        { apply (f_equal (@List.length event)) in Eo.
          rewrite sort_by_timestamp_length in Eo. discriminate. }
        eexists. split; [reflexivity|]. cbn [totalEvents duration].
        left.
        pose proof (nondecreasing_first first rest Hsorted o
                      (Hin o (or_introl eq_refl))) as H1.
        pose proof (nondecreasing_last first rest Hsorted
                      (last (o :: out') o)
                      (Hin _ (last_In o o out'))) as H2.
        fold events in H2. duration_lra.
      * cbn [app sort_by_timestamp insert_by_timestamp].
        assert (Hle : num_le (timestamp s) (timestamp s + 100) = true)
          by (apply num_le_iff; lra).
        cbn [timestamp]. rewrite Hle.
        eexists. split; [reflexivity|]. cbn [totalEvents duration].
        right. split; [reflexivity|]. cbn [last timestamp]. duration_lra.
    + unfold events in *. unfold cutRecording in Hcut.
      rewrite Hsel in Hcut. discriminate.
Qed.

End Specification.

(** C10.  On the heap model of the three functions, where [push], [sort]
    and field assignment write in place: for every heap [h] and every
    address [events] of the input array, after a call of cutRecording, of
    the part of trimRecording that follows the reconstruction, or of
    trimRecordingFallback, whether it returns or throws, every object and
    every array of [h] is in the final heap unchanged, so the input log
    reads back element for element as before, and the array returned is
    one allocated by the call.  When [events] holds the log [log], each
    call moreover throws what the function on lists throws on [log], or
    returns a new array of objects all allocated by the call (copies, none
    of them an input event) that reads back as the log the function on
    lists returns. *)
Theorem C10_input_not_mutated (h : Heap.heap) (events : Heap.loc) :
  (forall call : Heap.M Heap.loc,
     (exists href center before after,
        call = Heap.cutRecording href events center before after) \/
     (exists href startMs endMs syntheticSnapshot,
        call = Heap.buildTrimmed href events startMs endMs
                 syntheticSnapshot) \/
     (exists startMs endMs,
        call = Heap.trimRecordingFallback events startMs endMs) ->
     let after := snd (call h) in
     Heap.preserved h after /\
     (forall l e, nth_error (Heap.objects h) l = Some e ->
                  nth_error (Heap.objects after) l = Some e) /\
     (forall items, nth_error (Heap.arrays h) events = Some items ->
                    nth_error (Heap.arrays after) events = Some items) /\
     (forall log, Heap.read_log h events = Some log ->
                  Heap.read_log after events = Some log) /\
     (forall newEvents, fst (call h) = Ok newEvents ->
                        Heap.fresh_array h newEvents)) /\
  (forall items log,
     Heap.holds h events items -> Heap.read_all h items = Some log ->
     (forall href center before after,
        Heap.refines h (cutRecording href log center before after)
          (Heap.cutRecording href events center before after h)) /\
     (forall href startMs endMs syntheticSnapshot snapshot,
        Heap.points h syntheticSnapshot snapshot ->
        Heap.refines h (Ok (buildTrimmed href log startMs endMs snapshot))
          (Heap.buildTrimmed href events startMs endMs syntheticSnapshot h)) /\
     (forall startMs endMs,
        Heap.refines h (trimRecordingFallback log startMs endMs)
          (Heap.trimRecordingFallback events startMs endMs h))).
Proof.
  split.
  - intros call Hcall after.
    assert (Hkeeps : Heap.keeps h call (Heap.fresh_array h)).
    { destruct Hcall as [(href & c & b & a & ->)
                        |[(href & s & e & snap & ->)|(s & e & ->)]].
      - apply keeps_cutRecording.
      - apply keeps_buildTrimmed.
      - apply keeps_trimRecordingFallback. }
    destruct (Hkeeps h (preserved_refl h)) as [Hp Hfresh].
    fold after in Hp.
    destruct (preserved_lookup h after Hp) as [Hobj Harr].
    split; [assumption|]. split; [assumption|]. split; [apply Harr|].
    split; [|assumption].
    intros log. now apply read_log_preserved.
  - intros items log Hh Hr. split; [|split].
    + intros href c b a. now apply heap_cutRecording_refines with items.
    + intros href s e lsnap snap Hp.
      now apply heap_buildTrimmed_refines with items.
    + intros s e. now apply heap_trimRecordingFallback_refines with items.
Qed.


Section Search.

Variable JSON_stringify : event -> string.

(** C9.  For every log and every search term,
    findEventsByContent returns, in the order of the log, exactly the
    events whose serialization, in lower case, contains the term in lower
    case; for the empty term that is every event of the log. *)
Theorem C9_findEventsByContent (events : list event) (searchTerm : string) :
  (exists keep : event -> bool,
     findEventsByContent JSON_stringify events searchTerm
     = filter keep events /\
     forall e, keep e = true <->
       exists pre post,
         toLowerCase (JSON_stringify e)
         = (pre ++ toLowerCase searchTerm ++ post)%string) /\
  findEventsByContent JSON_stringify events EmptyString = events.
Proof.
  split.
  - eexists. split; [reflexivity|]. intros e. cbv beta.
    apply includes_spec.
  - unfold findEventsByContent.
    assert (Hall : forall e,
      includes (toLowerCase (JSON_stringify e)) (toLowerCase EmptyString)
      = true).
    { intros e. apply includes_spec.
      now exists EmptyString, (toLowerCase (JSON_stringify e)). }
    induction events as [|e l IH]; [reflexivity|].
    cbn [filter]. now rewrite Hall, IH.
Qed.

End Search.

(** * The properties on sample recordings *)

Ltac sorted_sample :=
  unfold nondecreasing; repeat constructor; unfold ts_le; simpl; lra.

Lemma recording_scenario_sorted : nondecreasing recording_scenario.
Proof. sorted_sample. Qed.

Lemma recording_meta_first_sorted : nondecreasing recording_meta_first.
Proof. sorted_sample. Qed.

Lemma recording_two_sorted : nondecreasing recording_two.
Proof. sorted_sample. Qed.

Lemma recording_short_sorted : nondecreasing recording_short.
Proof. sorted_sample. Qed.

Lemma recording_pre_trim_sorted : nondecreasing recording_pre_trim.
Proof. sorted_sample. Qed.

Lemma recording_close_snapshots_sorted :
  nondecreasing recording_close_snapshots.
Proof. sorted_sample. Qed.

(** C1, as stated, fails on three logs in timestamp order: the output of
    cutRecording on a recording that opens with its Meta event starts with
    that Meta event; the output of trimRecording on the reconstruction
    path starts with the Meta event at timestamp 0; and the output of the
    fallback puts the base snapshot at 60 before a compressed mutation
    at 25. *)
Lemma C1_counterexample :
  (nondecreasing recording_meta_first /\
   exists out,
     cutRecording "about:blank" recording_meta_first 0 0 1 = Ok out /\
     ~ EventLog_invariants out) /\
  (nondecreasing recording_two /\
   exists out,
     trimRecording "about:blank" failing_replay recording_two 0 1000 = Ok out /\
     ~ EventLog_invariants out) /\
  (nondecreasing recording_pre_trim /\
   exists out,
     trimRecording "about:blank" failing_replay recording_pre_trim 1040 2000
     = Ok out /\
     ~ EventLog_invariants out).
Proof.
  split; [|split].
  - split; [apply recording_meta_first_sorted|].
    eexists. split; [compute; reflexivity|].
    intros (_ & _ & k & tl & Heq & Hk).
    injection Heq as <- _. unfold isFullSnapshot in Hk. discriminate.
  - split; [apply recording_two_sorted|].
    eexists. split; [compute; reflexivity|].
    intros (_ & _ & k & tl & Heq & Hk).
    injection Heq as <- _. unfold isFullSnapshot in Hk. discriminate.
  - split; [apply recording_pre_trim_sorted|].
    eexists. split; [compute; reflexivity|].
    intros (Hs & _).
    inversion Hs as [|? ? _ Hhd]; subst.
    inversion Hhd as [|? ? Hle]; subst.
    unfold ts_le, Qle in Hle. simpl in Hle. lia.
Qed.

(** C1 on [recording_pre_trim]. *)
Lemma C1_witness :
  nondecreasing recording_pre_trim /\
  forall center before after out,
    cutRecording "about:blank" recording_pre_trim center before after = Ok out ->
    nondecreasing out /\ (2 <= List.length out)%nat /\
    exists k, In k out /\ isFullSnapshot k.
Proof.
  split; [apply recording_pre_trim_sorted|].
  exact (proj1 (C1_output_invariants "about:blank" failing_replay
                  (fullSnapshotAt 1000)
                  [mutationAt 1010; mouseMoveAt 1040; mouseMoveAt 2000]
                  recording_pre_trim_sorted)).
Defined.

(** C2 on [recording_pre_trim] with a replay that times out. *)
Lemma C2_witness :
  clampStart 1000 1040 < clampEnd 2000 2000 /\
  nondecreasing recording_pre_trim /\
  (exists k, In k recording_pre_trim /\ type k = 2%Z) /\
  trimRecording "about:blank" failing_replay recording_pre_trim 1040 2000
  = trimRecordingFallback recording_pre_trim 1040 2000 /\
  exists out,
    trimRecording "about:blank" failing_replay recording_pre_trim 1040 2000
    = Ok out.
Proof.
  assert (Hrange : clampStart 1000 1040 < clampEnd 2000 2000)
    by (compute; reflexivity).
  assert (Hkf : exists k, In k recording_pre_trim /\ type k = 2%Z)
    by (exists (fullSnapshotAt 1000); split; [now left|reflexivity]).
  pose proof (C2_trimRecording_fallback "about:blank" failing_replay
                (fullSnapshotAt 1000)
                [mutationAt 1010; mouseMoveAt 1040; mouseMoveAt 2000]
                1040 2000 Hrange) as (Hfail & _ & Hok).
  split; [assumption|]. split; [apply recording_pre_trim_sorted|].
  split; [assumption|]. split.
  - apply (Hfail (ReplayError "Timeout waiting for playback to reach target")).
    reflexivity.
  - exact (proj2 (Hok recording_pre_trim_sorted Hkf)).
Defined.


(** C4, as stated, fails: trimming [recording_two] (2 events, 1 s) over
    its whole range returns 3 events spanning 1.002 s, and cutting
    [recording_short] (0.05 s) at its start with no margin returns the
    snapshot and the filler event, 0.1 s apart. *)
Lemma C4_counterexample :
  (nondecreasing recording_two /\
   exists out original stats,
     trimRecording "about:blank" failing_replay recording_two 0 1000 = Ok out /\
     analyzeRecording recording_two = Some original /\
     analyzeRecording out = Some stats /\
     duration original < duration stats /\
     (totalEvents original < totalEvents stats)%nat) /\
  (nondecreasing recording_short /\
   exists out original stats,
     cutRecording "about:blank" recording_short 0 0 0 = Ok out /\
     analyzeRecording recording_short = Some original /\
     analyzeRecording out = Some stats /\
     duration original < duration stats).
Proof.
  split.
  - split; [apply recording_two_sorted|].
    do 3 eexists. split; [compute; reflexivity|].
    split; [reflexivity|]. split; [reflexivity|].
    split; [compute; reflexivity | simpl; lia].
  - split; [apply recording_short_sorted|].
    do 3 eexists. split; [compute; reflexivity|].
    split; [reflexivity|]. split; [reflexivity|].
    compute; reflexivity.
Qed.

(** C4 on [recording_two]. *)
Lemma C4_witness :
  nondecreasing recording_two /\
  exists original,
    analyzeRecording recording_two = Some original /\
    forall center before after out,
      cutRecording "about:blank" recording_two center before after = Ok out ->
      exists stats,
        analyzeRecording out = Some stats /\
        (duration stats <= duration original \/
         totalEvents stats = 2%nat /\ duration stats == 100 / 1000).
Proof.
  split; [apply recording_two_sorted|].
  destruct (C4_roundtrip_stats "about:blank" failing_replay
              (fullSnapshotAt 0) [mouseMoveAt 1000] recording_two_sorted)
    as (original & Ho & _ & Hcut).
  exists original. split; assumption.
Defined.

(** C5 at the failing input: with snapshots at 500 and 1000, a trim that
    starts at 1000 does not find the snapshot at 1000 (the search stops at
    the snapshot at 500, within one second of the start), so the boundary
    snapshot is whatever the reconstruction gives, and when the replay
    fails the caller gets the fallback's output, built on the snapshot at
    1000 shifted to timestamp 100 and without a Meta event. *)
Theorem C5_exact_snapshot_missed :
  In (fullSnapshotAt 1000) recording_close_snapshots /\
  type (fullSnapshotAt 1000) = 2%Z /\
  timestamp (fullSnapshotAt 1000) == clampStart 500 1000 /\
  exactSnapshot recording_close_snapshots 1000 = None /\
  (forall replay,
     boundarySnapshot replay recording_close_snapshots 1000
     = createTrueSyntheticSnapshot replay recording_close_snapshots 1000) /\
  (forall href replay,
     trimRecording href replay recording_close_snapshots 1000 2000
     = match createTrueSyntheticSnapshot replay
               recording_close_snapshots 1000 with
       | Ok snap =>
           Ok (buildTrimmed href recording_close_snapshots 1000 2000 snap)
       | Throw _ => trimRecordingFallback recording_close_snapshots 1000 2000
       end) /\
  trimRecording "about:blank" failing_replay recording_close_snapshots
    1000 2000
  = trimRecordingFallback recording_close_snapshots 1000 2000 /\
  trimRecording "about:blank" failing_replay recording_close_snapshots
    1000 2000
  <> Ok (buildTrimmed "about:blank" recording_close_snapshots 1000 2000
           (fullSnapshotAt 1000)).
Proof.
  split; [simpl; tauto|]. split; [reflexivity|]. split; [reflexivity|].
  split; [reflexivity|]. split; [reflexivity|]. split.
  - intros href replay.
    pose proof (trimRecording_unfold href replay (fullSnapshotAt 500)
                  [fullSnapshotAt 1000; mouseMoveAt 2000] 1000 2000) as Hu.
    exact Hu.
  - split; [reflexivity|]. compute. discriminate.
Qed.

(** C6 on [recording_pre_trim]: a range wider than the recording and a range after its end. *)
Lemma C6_witness :
  clampStart 1000 0 = 1000 /\ clampEnd 2000 5000 = 2000 /\
  trimRecording "about:blank" failing_replay recording_pre_trim 0 5000
  = trimRecording "about:blank" failing_replay recording_pre_trim 1000 2000 /\
  trimRecording "about:blank" failing_replay recording_pre_trim 5000 6000
  = Throw (InvalidTimeRange 5000 2000).
Proof.
  pose proof (C6_trimRecording_clamp "about:blank" failing_replay
                (fullSnapshotAt 1000)
                [mutationAt 1010; mouseMoveAt 1040; mouseMoveAt 2000]
                0 5000) as (Hs & _ & He & _ & Hclamp & _).
  pose proof (C6_trimRecording_clamp "about:blank" failing_replay
                (fullSnapshotAt 1000)
                [mutationAt 1010; mouseMoveAt 1040; mouseMoveAt 2000]
                5000 6000) as (_ & _ & _ & _ & _ & Hthrow & _).
  split; [apply Hs; reflexivity|]. split; [apply He; reflexivity|].
  split; [exact Hclamp|]. apply Hthrow. compute. discriminate.
Defined.

(** C7 on [recording_pre_trim] with a replay that captures a document. *)
Lemma C7_witness :
  clampStart 1000 1040 < clampEnd 2000 2000 /\
  boundarySnapshot working_replay recording_pre_trim 1040
  = Ok (mkEvent 2
          (VObj [("node", VObj [("type", VNum 0); ("childNodes", VArr [])]);
                 ("initialOffset", VObj [("left", VNum 0); ("top", VNum 0)])])
          1040 None) /\
  exists metaEvent kept,
    trimRecording "about:blank" working_replay recording_pre_trim 1040 2000
    = Ok (metaEvent
            :: mkEvent 2
                 (VObj [("node",
                         VObj [("type", VNum 0); ("childNodes", VArr [])]);
                        ("initialOffset",
                         VObj [("left", VNum 0); ("top", VNum 0)])])
                 1 None
            :: sort_by_timestamp
                 (map (fun e => with_timestamp e (timestamp e - 1040 + 2))
                      kept)) /\
    type metaEvent = 4%Z /\ timestamp metaEvent = 0.
Proof.
  assert (Hrange : clampStart 1000 1040 < clampEnd 2000 2000)
    by (compute; reflexivity).
  split; [assumption|]. split; [reflexivity|].
  destruct (C7_trimRecording_success "about:blank" working_replay
              (fullSnapshotAt 1000)
              [mutationAt 1010; mouseMoveAt 1040; mouseMoveAt 2000]
              1040 2000 _ Hrange eq_refl)
    as (metaEvent & kept & Hout & Ht & Hts & _).
  exists metaEvent, kept. split; [exact Hout|]. now split.
Defined.



(** C9, as stated, fails on the empty term: every serialization contains
    the empty string, so the whole log is returned. *)
Lemma C9_counterexample :
  findEventsByContent sample_stringify recording_two EmptyString
  = recording_two /\
  findEventsByContent sample_stringify recording_two EmptyString <> [].
Proof.
  split; [reflexivity|]. compute. discriminate.
Qed.

(** The heap versions and the versions on lists compute the same logs on
    the sample recordings. *)
Lemma heap_versions_agree_on_samples :
  Heap.outcome (Heap.cutRecording "about:blank" 0%nat 10 2 2
                  (Heap.heap_of recording_scenario))
  = cutRecording "about:blank" recording_scenario 10 2 2 /\
  Heap.outcome (Heap.cutRecording "about:blank" 0%nat 0 0 1
                  (Heap.heap_of recording_meta_first))
  = cutRecording "about:blank" recording_meta_first 0 0 1 /\
  Heap.outcome (Heap.buildTrimmed "about:blank" 0%nat 1000 2000 1%nat
                  (Heap.heap_of recording_close_snapshots))
  = Ok (buildTrimmed "about:blank" recording_close_snapshots 1000 2000
          (fullSnapshotAt 1000)) /\
  Heap.outcome (Heap.trimRecordingFallback 0%nat 1040 2000
                  (Heap.heap_of recording_pre_trim))
  = trimRecordingFallback recording_pre_trim 1040 2000 /\
  Heap.outcome (Heap.trimRecordingFallback 0%nat 0 20
                  (Heap.heap_of recording_meta_first))
  = trimRecordingFallback recording_meta_first 0 20.
Proof. repeat split; reflexivity. Qed.

(** C10 on the heap that holds [recording_pre_trim]. *)
Lemma C10_witness :
  (exists startMs endMs,
     Heap.trimRecordingFallback 0%nat 1040 2000
     = Heap.trimRecordingFallback 0%nat startMs endMs) /\
  Heap.holds (Heap.heap_of recording_pre_trim) 0%nat [0; 1; 2; 3]%nat /\
  Heap.read_all (Heap.heap_of recording_pre_trim) [0; 1; 2; 3]%nat
  = Some recording_pre_trim /\
  Heap.read_log
    (snd (Heap.trimRecordingFallback 0%nat 1040 2000
            (Heap.heap_of recording_pre_trim))) 0%nat
  = Some recording_pre_trim /\
  Heap.refines (Heap.heap_of recording_pre_trim)
    (trimRecordingFallback recording_pre_trim 1040 2000)
    (Heap.trimRecordingFallback 0%nat 1040 2000
       (Heap.heap_of recording_pre_trim)).
Proof.
  assert (Hcall : exists startMs endMs,
            Heap.trimRecordingFallback 0%nat 1040 2000
            = Heap.trimRecordingFallback 0%nat startMs endMs)
    by (exists 1040, 2000; reflexivity).
  destruct (C10_input_not_mutated (Heap.heap_of recording_pre_trim) 0%nat)
    as [Hframe Hrefines].
  split; [assumption|]. split; [reflexivity|]. split; [reflexivity|].
  split.
  - apply (Hframe (Heap.trimRecordingFallback 0%nat 1040 2000)).
    + right. right. assumption.
    + reflexivity.
  - apply (Hrefines [0; 1; 2; 3]%nat recording_pre_trim eq_refl eq_refl).
Defined.

(** * The time helpers *)

(** ** Floors and remainders *)

Lemma Qfloor_unique (x : Q) (m : Z) :
  inject_Z m <= x -> x < inject_Z (m + 1) -> Qfloor x = m.
Proof.
  intros Hle Hlt.
  pose proof (Qfloor_resp_le _ _ Hle) as H1. rewrite Qfloor_Z in H1.
  pose proof (Qfloor_le x) as H2.
  assert (H3 : inject_Z (Qfloor x) < inject_Z (m + 1)) by lra.
  rewrite <- Zlt_Qlt in H3. lia.
Qed.

Lemma Qfloor_minus_Z (x : Q) (z : Z) :
  Qfloor (x - inject_Z z) = (Qfloor x - z)%Z.
Proof.
  apply Qfloor_unique.
  - pose proof (Qfloor_le x). unfold Z.sub.
    rewrite inject_Z_plus, inject_Z_opp. lra.
  - pose proof (Qlt_floor x) as H.
    replace (Qfloor x - z + 1)%Z with (Qfloor x + 1 + - z)%Z by lia.
    rewrite (inject_Z_plus (Qfloor x + 1)), inject_Z_opp. lra.
Qed.

Lemma Qfloor_div_pos (x : Q) (k : positive) :
  Qfloor (x / inject_Z (Zpos k)) = (Qfloor x / Zpos k)%Z.
Proof.
  destruct x as [a b]. unfold Qdiv, Qinv, Qmult, inject_Z, Qfloor. simpl.
  rewrite Z.mul_1_r, Pos2Z.inj_mul. symmetry. apply Z.div_div; lia.
Qed.

Lemma Qfloor_nonneg (x : Q) : 0 <= x -> (0 <= Qfloor x)%Z.
Proof.
  intros H. exact (Qfloor_resp_le 0 x H).
Qed.

Lemma Qtruncate_nonneg (x : Q) : 0 <= x -> Qtruncate x = Qfloor x.
Proof.
  intros H. unfold Qtruncate. apply num_le_iff in H. now rewrite H.
Qed.

(** The remainder of a number that is not negative, by a positive
    integer. *)
Lemma js_rem_nonneg (x : Q) (k : positive) :
  0 <= x ->
  js_rem x (inject_Z (Zpos k))
  == x - inject_Z (Zpos k * (Qfloor x / Zpos k)).
Proof.
  intros Hx. unfold js_rem.
  rewrite Qtruncate_nonneg.
  - rewrite Qfloor_div_pos, inject_Z_mult. reflexivity.
  - apply Qle_shift_div_l; [reflexivity|lra].
Qed.

Lemma Math_floor_js_rem (x : Q) (k : positive) :
  0 <= x ->
  Math_floor (js_rem x (inject_Z (Zpos k))) = (Qfloor x mod Zpos k)%Z.
Proof.
  intros Hx. unfold Math_floor.
  rewrite (Qfloor_comp _ _ (js_rem_nonneg x k Hx)), Qfloor_minus_Z.
  rewrite Z.mod_eq by lia. reflexivity.
Qed.

(** The three fields of [formatTime] on a number of seconds that is not
    negative. *)
Lemma formatTime_fields (seconds : Q) :
  0 <= seconds ->
  let n := Qfloor seconds in
  Math_floor (seconds / 3600) = (n / 3600)%Z /\
  Math_floor (js_rem seconds 3600 / 60) = (n mod 3600 / 60)%Z /\
  Math_floor (js_rem seconds 60) = (n mod 60)%Z.
Proof.
  intros Hs n. unfold n. split; [|split].
  - exact (Qfloor_div_pos seconds 3600).
  - unfold Math_floor.
    change (js_rem seconds 3600 / 60)
      with (js_rem seconds (inject_Z (Zpos 3600)) / inject_Z (Zpos 60)).
    rewrite Qfloor_div_pos.
    rewrite (Qfloor_comp _ _ (js_rem_nonneg seconds 3600 Hs)).
    rewrite Qfloor_minus_Z, Z.mod_eq by lia. reflexivity.
  - exact (Math_floor_js_rem seconds 60 Hs).
Qed.

(** ** Decimal digits *)

Lemma is_digit_not_colon c : is_digit c = true -> Ascii.eqb c ":" = false.
Proof.
  destruct c as [[] [] [] [] [] [] [] []]; try discriminate; reflexivity.
Qed.

Lemma all_digits_app a b :
  all_digits (a ++ b)%string = all_digits a && all_digits b.
Proof.
  induction a as [|c a IH]; simpl; [reflexivity|].
  now rewrite IH, andb_assoc.
Qed.

Lemma all_digits_nonempty s : all_digits s = false -> s <> EmptyString.
Proof. intros H ->. discriminate. Qed.

Lemma string_of_uint_digits d :
  all_digits (DecimalString.NilEmpty.string_of_uint d) = true.
Proof. induction d; simpl; auto. Qed.

Lemma digits_value_acc d : forall acc,
  digits_value (DecimalString.NilEmpty.string_of_uint d) (Npos acc)
  = Npos (Pos.of_uint_acc d acc).
Proof.
  induction d; intros acc; cbn [DecimalString.NilEmpty.string_of_uint
    digits_value Pos.of_uint_acc]; [reflexivity|..];
    rewrite <- IHd; f_equal;
    match goal with
    | |- context [(N_of_ascii ?c - 48)%N] =>
        let v := eval vm_compute in (N_of_ascii c - 48)%N in
        change (N_of_ascii c - 48)%N with v
    end; lia.
Qed.

Lemma digits_value_of_uint d :
  digits_value (DecimalString.NilEmpty.string_of_uint d) 0 = Pos.of_uint d.
Proof.
  induction d; cbn [DecimalString.NilEmpty.string_of_uint digits_value
    Pos.of_uint]; [reflexivity|exact IHd|..];
    apply digits_value_acc.
Qed.

(** The decimal digits of an integer that is not negative. *)
Lemma string_of_int_nonneg (n : Z) :
  (0 <= n)%Z ->
  DecimalString.NilZero.string_of_int (Z.to_int n)
  = DecimalString.NilEmpty.string_of_uint (N.to_uint (Z.to_N n)).
Proof.
  destruct n as [|p|p]; intros Hn; [reflexivity| |lia].
  cbn [Z.to_int DecimalString.NilZero.string_of_int Z.to_N N.to_uint].
  unfold DecimalString.NilZero.string_of_uint.
  pose proof (DecimalPos.Unsigned.to_uint_nonnil p) as Hnil.
  destruct (Pos.to_uint p); [congruence|reflexivity..].
Qed.

Lemma Number_toString_nonneg (n : Z) :
  (0 <= n < 10 ^ 21)%Z ->
  exists s,
    Number_toString n = Some s /\ all_digits s = true /\
    digits_value s 0 = Z.to_N n.
Proof.
  intros [H0 H1]. unfold Number_toString.
  replace (Z.abs n <? 10 ^ 21)%Z with true
    by (symmetry; apply Z.ltb_lt; lia).
  eexists. split; [reflexivity|].
  rewrite string_of_int_nonneg by assumption. split.
  - apply string_of_uint_digits.
  - rewrite digits_value_of_uint. apply DecimalN.Unsigned.of_to.
Qed.

Lemma all_digits_repeat_zero n : all_digits (repeat_char "0" n) = true.
Proof. induction n; simpl; auto. Qed.

Lemma digits_value_repeat_zero n s :
  digits_value (repeat_char "0" n ++ s)%string 0 = digits_value s 0.
Proof. induction n; simpl; auto. Qed.

(** Padding with zeros keeps the digits and their value. *)
Lemma padStart_digits s n :
  all_digits s = true ->
  all_digits (padStart s n "0") = true /\
  digits_value (padStart s n "0") 0 = digits_value s 0.
Proof.
  intros Hs. unfold padStart. split.
  - now rewrite all_digits_app, all_digits_repeat_zero.
  - apply digits_value_repeat_zero.
Qed.

(** ** Splitting at the colons *)

Lemma split_digits s : all_digits s = true -> split ":" s = [s].
Proof.
  induction s as [|c s IH]; simpl; [reflexivity|].
  intros H. apply andb_prop in H. destruct H as [Hc Hs].
  now rewrite (is_digit_not_colon c Hc), (IH Hs).
Qed.

Lemma split_digits_colon a b :
  all_digits a = true ->
  split ":" (a ++ String ":" b)%string = a :: split ":" b.
Proof.
  induction a as [|c a IH]; simpl; [reflexivity|].
  intros H. apply andb_prop in H. destruct H as [Hc Ha].
  now rewrite (is_digit_not_colon c Hc), (IH Ha).
Qed.

Lemma all_digits_colon a b : all_digits (a ++ String ":" b)%string = false.
Proof.
  rewrite all_digits_app. simpl. now rewrite andb_false_r.
Qed.

Section TimeStringsProperties.

Variable Number_other : string -> option Q.

Lemma Number_digits s :
  all_digits s = true ->
  Number Number_other s = Some (inject_Z (Z.of_N (digits_value s 0))).
Proof.
  intros H. unfold Number. rewrite H.
  destruct (String.eqb_spec s EmptyString) as [->|_]; reflexivity.
Qed.

(** A text with a colon is read part by part. *)
Lemma parseTimeString_colon (a b : string) :
  parseTimeString Number_other (a ++ String ":" b)
  = match map (Number Number_other) (split ":" (a ++ String ":" b)) with
    | [p0; p1] =>
        match p0, p1 with
        | Some x, Some y => Some (x * 60 + y)
        | _, _ => None
        end
    | [p0; p1; p2] =>
        match p0, p1, p2 with
        | Some x, Some y, Some z => Some (x * 3600 + y * 60 + z)
        | _, _, _ => None
        end
    | _ => Some 0
    end.
Proof.
  unfold parseTimeString, test_digits.
  rewrite all_digits_colon, andb_false_r.
  destruct (String.eqb_spec (a ++ String ":" b) EmptyString) as [E|_];
    [|reflexivity].
  destruct a; discriminate.
Qed.

Lemma parseTimeString_two (a b : string) :
  all_digits a = true -> all_digits b = true ->
  parseTimeString Number_other (a ++ ":" ++ b)
  = Some (inject_Z (Z.of_N (digits_value a 0)) * 60
          + inject_Z (Z.of_N (digits_value b 0))).
Proof.
  intros Ha Hb. cbn [append]. rewrite parseTimeString_colon.
  rewrite (split_digits_colon a b Ha), (split_digits b Hb).
  cbn [map]. now rewrite !Number_digits.
Qed.

Lemma parseTimeString_three (a b c : string) :
  all_digits a = true -> all_digits b = true -> all_digits c = true ->
  parseTimeString Number_other (a ++ ":" ++ b ++ ":" ++ c)
  = Some (inject_Z (Z.of_N (digits_value a 0)) * 3600
          + inject_Z (Z.of_N (digits_value b 0)) * 60
          + inject_Z (Z.of_N (digits_value c 0))).
Proof.
  intros Ha Hb Hc. cbn [append]. rewrite parseTimeString_colon.
  rewrite (split_digits_colon a _ Ha), (split_digits_colon b c Hb),
    (split_digits c Hc).
  cbn [map]. now rewrite !Number_digits.
Qed.

End TimeStringsProperties.

(** ** The text of the cut form *)

Lemma length_split sep s :
  List.length (split sep s) = S (occurrences sep s).
Proof.
  induction s as [|c s IH]; simpl; [reflexivity|].
  destruct (Ascii.eqb c sep); simpl; [now rewrite IH|].
  destruct (split sep s); simpl in *; [discriminate|assumption].
Qed.

(** [parseTimeString] on the text of [formatTime]. *)
Lemma formatTime_read_back (Number_other : string -> option Q)
    (seconds : Q) :
  0 <= seconds -> seconds < inject_Z (2 ^ 53) ->
  exists str q,
    formatTime seconds = Some str /\
    parseTimeString Number_other str = Some q /\
    q == inject_Z (Math_floor seconds).
Proof.
  intros H0 Hmax.
  assert (Hg : num_le 0 seconds && num_lt seconds (inject_Z (2 ^ 53))
               = true).
  { apply andb_true_intro.
    split; [now apply num_le_iff|now apply num_lt_iff]. }
  destruct (formatTime_fields seconds H0) as (Hh & Hm & Hs).
  unfold Math_floor.
  set (n := Qfloor seconds) in *.
  assert (Hn0 : (0 <= n)%Z) by now apply Qfloor_nonneg.
  assert (Hn1 : (n < 2 ^ 53)%Z).
  { rewrite Zlt_Qlt. pose proof (Qfloor_le seconds). fold n in H. lra. }
  assert (Hhr : (0 <= n / 3600 < 10 ^ 21)%Z).
  { split; [apply Z.div_pos; lia|]. apply Z.div_lt_upper_bound; lia. }
  assert (Hmr : (0 <= n mod 3600 / 60 < 10 ^ 21)%Z).
  { pose proof (Z.mod_pos_bound n 3600 ltac:(lia)).
    split; [apply Z.div_pos; lia|]. apply Z.div_lt_upper_bound; lia. }
  assert (Hsr : (0 <= n mod 60 < 10 ^ 21)%Z).
  { pose proof (Z.mod_pos_bound n 60 ltac:(lia)). lia. }
  destruct (Number_toString_nonneg _ Hhr) as (h & Eh & Dh & Vh).
  destruct (Number_toString_nonneg _ Hmr) as (m & Em & Dm & Vm).
  destruct (Number_toString_nonneg _ Hsr) as (s & Es & Ds & Vs).
  destruct (padStart_digits m 2 Dm) as [Dpm Vpm].
  destruct (padStart_digits s 2 Ds) as [Dps Vps].
  assert (Hsum : (n / 3600 * 3600 + n mod 3600 / 60 * 60 + n mod 60 = n)%Z).
  { rewrite <- (Z.mod_mod_divide n 3600 60) by (exists 60%Z; reflexivity).
    pose proof (Z.div_mod n 3600 ltac:(lia)).
    pose proof (Z.div_mod (n mod 3600) 60 ltac:(lia)). lia. }
  unfold formatTime. rewrite Hg. cbv zeta. rewrite Hh, Hm, Hs, Em, Es.
  destruct (0 <? n / 3600)%Z eqn:Hpos.
  - rewrite Eh. eexists. eexists. split; [reflexivity|]. split.
    + apply parseTimeString_three; assumption.
    + rewrite Vh, Vpm, Vm, Vps, Vs, !Z2N.id by lia.
      rewrite <- Hsum at 4. rewrite !inject_Z_plus, !inject_Z_mult.
      reflexivity.
  - apply Z.ltb_ge in Hpos.
    assert (Hz : (n / 3600 = 0)%Z) by lia.
    eexists. eexists. split; [reflexivity|]. split.
    + apply parseTimeString_two; assumption.
    + rewrite Vm, Vps, Vs, !Z2N.id by lia.
      rewrite <- Hsum at 3. rewrite Hz, !inject_Z_plus, !inject_Z_mult.
      change (inject_Z 0) with 0. change (inject_Z 3600) with 3600.
      change (inject_Z 60) with 60. ring.
Qed.

(** X1.  Reading back what [formatTime] prints: for a number of seconds
    from 0 up to 2^53 (the range on which the whole seconds and the
    fields of the text are computed without rounding) [formatTime]
    returns a text, and [parseTimeString] reads that text as the whole
    seconds, [Math.floor(seconds)], whatever [Number] does on the strings
    that are not digits; the fraction of a second is dropped by
    [formatTime] itself, which prints the whole seconds. *)
Theorem X1_formatTime_parseTimeString (Number_other : string -> option Q)
    (seconds : Q) :
  0 <= seconds -> seconds < inject_Z (2 ^ 53) ->
  (exists str q,
     formatTime seconds = Some str /\
     parseTimeString Number_other str = Some q /\
     q == inject_Z (Math_floor seconds)) /\
  formatTime seconds = formatTime (inject_Z (Math_floor seconds)).
Proof.
  intros H0 Hmax. split; [now apply formatTime_read_back|].
  set (x := inject_Z (Math_floor seconds)).
  assert (Hx : Qfloor x = Qfloor seconds) by apply Qfloor_Z.
  assert (Hn : 0 <= x).
  { unfold x, Math_floor. change 0 with (inject_Z 0). rewrite <- Zle_Qle.
    now apply Qfloor_nonneg. }
  assert (Hxmax : x < inject_Z (2 ^ 53)).
  { pose proof (Qfloor_le seconds) as Hle. unfold x, Math_floor. lra. }
  destruct (formatTime_fields seconds H0) as (Hh & Hm & Hs).
  destruct (formatTime_fields x Hn) as (Hh' & Hm' & Hs').
  rewrite Hx in Hh', Hm', Hs'.
  unfold formatTime.
  rewrite (proj2 (num_le_iff 0 seconds) H0), (proj2 (num_le_iff 0 x) Hn).
  rewrite (proj2 (num_lt_iff _ _) Hmax), (proj2 (num_lt_iff _ _) Hxmax).
  cbv zeta. cbn [andb]. now rewrite Hh, Hm, Hs, Hh', Hm', Hs'.
Qed.

(** X2.  [parseTimeString] answers 0 on every text it cannot use: a text
    that is not a sequence of digits and has no colon (as [1.5] or
    [90s]), or more than two colons, is read as 0 seconds, whatever
    [Number] makes of its parts. *)
Theorem X2_parseTimeString_unreadable (Number_other : string -> option Q)
    (timeStr : string) :
  test_digits timeStr = false ->
  occurrences ":" timeStr <> 1%nat -> occurrences ":" timeStr <> 2%nat ->
  parseTimeString Number_other timeStr = Some 0.
Proof.
  intros Ht H1 H2. unfold parseTimeString. rewrite Ht.
  destruct (String.eqb timeStr EmptyString); [reflexivity|].
  pose proof (length_split ":" timeStr) as Hlen.
  destruct (split ":" timeStr) as [|p0 [|p1 [|p2 [|p3 ps]]]];
    simpl in Hlen; try reflexivity; lia.
Qed.

(** * What a cut keeps *)

Section CutMembers.

Variable href : string.

(** The members of the output of cutRecording, from the anchor that the
    scan selects. *)
Lemma cutRecording_members first rest c b a s d :
  let events := first :: rest in
  let cutStart := timestamp first + c * 1000 - b * 1000 in
  let cutEnd := timestamp first + c * 1000 + a * 1000 in
  let kept := cut_keeps events s (Qmin (timestamp s) cutStart) cutEnd in
  closestFullSnapshot events cutStart = Some (s, d) ->
  exists out,
    cutRecording href events c b a = Ok out /\
    forall e,
      In e out <->
      e = s \/ kept e \/
      (e = mkEvent 4 (VObj [("href", VStr href)]) (timestamp s + 100) None /\
       forall k, ~ kept k).
Proof.
  intros events cutStart cutEnd kept Hsel.
  unfold events in *. unfold cutRecording. fold cutStart. rewrite Hsel.
  cbv zeta. rewrite with_timestamp_same, map_with_timestamp_same.
  fold cutStart cutEnd.
  set (needed := filter _ (first :: rest)).
  set (others := filter _ needed).
  assert (Hothers : forall e, In e others <-> kept e).
  { intros e. unfold others, needed, kept, cut_keeps.
    rewrite !filter_In, andb_true_iff, orb_true_iff, !negb_true_iff.
    rewrite !num_le_iff, num_eq_false_iff, Z.eqb_neq.
    destruct (Z.eq_dec (type e) 2); tauto. }
  eexists. split; [reflexivity|]. intros e.
  rewrite sort_by_timestamp_In.
  destruct others as [|o others'] eqn:Eo.
  - cbn [List.length Nat.ltb Nat.leb last app]. simpl.
    split.
    + intros [<-|[<-|[]]]; [now left|]. right. right.
      split; [reflexivity|]. intros k Hk. now apply Hothers in Hk.
    + intros [->|[Hk|[-> _]]]; [now left| |now right; left].
      now apply Hothers in Hk.
  - cbn [List.length Nat.ltb Nat.leb].
    split.
    + intros [<-|He]; [now left|]. right. left. now apply Hothers.
    + intros [->|[Hk|[_ Hnone]]]; [now left| |].
      * right. now apply Hothers.
      * exfalso. apply (Hnone o). apply Hothers. now left.
Qed.

(** X3.  The events of a clip.  When cutRecording returns, its output
    holds exactly: the anchor [s], a full snapshot of the log; the events
    of the log with timestamp between [min(s.timestamp, cutStart)] and
    [cutEnd] that are not a full snapshot at the anchor's timestamp; and,
    only when there is no such event, the Meta filler 100 ms after the
    anchor.  No other event of the log is kept and nothing else is
    added. *)
Theorem X3_cutRecording_members (first : event) (rest : list event)
    (center before after : Q) (out : list event) :
  let events := first :: rest in
  let cutStart := timestamp first + center * 1000 - before * 1000 in
  let cutEnd := timestamp first + center * 1000 + after * 1000 in
  cutRecording href events center before after = Ok out ->
  exists s,
    In s events /\ type s = 2%Z /\
    forall e,
      In e out <->
      e = s \/
      cut_keeps events s (Qmin (timestamp s) cutStart) cutEnd e \/
      (e = mkEvent 4 (VObj [("href", VStr href)]) (timestamp s + 100) None /\
       forall k,
         ~ cut_keeps events s (Qmin (timestamp s) cutStart) cutEnd k).
Proof.
  intros events cutStart cutEnd Hcut.
  pose proof (closestFullSnapshot_inv events cutStart) as Hinv.
  destruct (closestFullSnapshot events cutStart) as [[s d]|] eqn:Hsel.
  - cbn [closest_inv] in Hinv.
    destruct Hinv as (pre & post & Hsplit & Hs2 & _).
    destruct (cutRecording_members first rest center before after s d Hsel)
      as (out' & Hout' & Hmem).
    fold events in Hout'. rewrite Hout' in Hcut.
    assert (out' = out) by congruence. subst out'.
    exists s. split; [|split; [assumption|exact Hmem]].
    rewrite Hsplit. apply in_or_app. right. now left.
  - unfold events, cutStart in *. unfold cutRecording in Hcut.
    rewrite Hsel in Hcut. discriminate.
Qed.

(** X4.  A clip around an event.  On a log with a full snapshot,
    cutting around an event [e] of the log with margins of at least one
    second returns a clip that contains [e], for every centre within half
    a second of the relative time of [e]; the one exception is a full
    snapshot at the timestamp of the anchor, of which the clip keeps the
    anchor.  The centre that the code computes with
    [timestampToRelativeTime], the double nearest to the exact quotient,
    is such a centre, and the margins cover the few milliseconds by which
    its arithmetic rounds: the timestamps are below 2^53 in magnitude, and
    [before] is at most 2^53 seconds. *)
Theorem X4_clip_around_event (first : event) (rest : list event)
    (e : event) (center before after : Q) :
  let events := first :: rest in
  In e events ->
  Qabs (timestamp first) < inject_Z (2 ^ 53) ->
  Qabs (timestamp e) < inject_Z (2 ^ 53) ->
  Qabs (center - timestampToRelativeTime events (timestamp e)) <= 1 # 2 ->
  1 <= before -> before <= inject_Z (2 ^ 53) -> 1 <= after ->
  (exists k, In k events /\ type k = 2%Z) ->
  exists out,
    cutRecording href events center before after = Ok out /\
    (In e out \/
     type e = 2%Z /\
     exists s, In s out /\ type s = 2%Z /\ timestamp s == timestamp e).
Proof.
  intros events He _ _ Hc Hb _ Ha (k & Hk & Hk2).
  apply Qabs_Qle_condition in Hc.
  assert (Hrel : timestampToRelativeTime events (timestamp e) * 1000
                 == timestamp e - timestamp first).
  { unfold events, timestampToRelativeTime. cbv zeta. field. }
  set (rel := timestampToRelativeTime events (timestamp e)) in *.
  set (cutStart := timestamp first + center * 1000 - before * 1000).
  pose proof (closestFullSnapshot_inv events cutStart) as Hinv.
  destruct (closestFullSnapshot events cutStart) as [[s d]|] eqn:Hsel.
  2:{ exfalso. exact (Hinv k Hk Hk2). }
  cbn [closest_inv] in Hinv. destruct Hinv as (_ & _ & _ & Hs2 & _).
  destruct (cutRecording_members first rest center before after s d Hsel)
    as (out & Hout & Hmem).
  exists out. split; [assumption|].
  assert (Hkept : ~ (timestamp e == timestamp s /\ type e = 2%Z) ->
            In e out).
  { intros Hn. apply Hmem. right. left.
    split; [assumption|]. fold cutStart.
    split; [apply Q.min_le_iff; right; unfold cutStart; lra|].
    split; [lra|assumption]. }
  destruct (num_eq (timestamp e) (timestamp s)) eqn:Ets.
  - apply num_eq_iff in Ets.
    destruct (Z.eq_dec (type e) 2) as [Et|Et].
    + right. split; [assumption|]. exists s.
      split; [apply Hmem; now left|]. split; [assumption|].
      now symmetry.
    + left. apply Hkept. tauto.
  - apply num_eq_false_iff in Ets. left. apply Hkept. tauto.
Qed.

End CutMembers.

(** * Where a clip starts and how it grows *)

Section CutShape.

Variable href : string.

(** X5.  A clip that starts with its full snapshot.  When every full
    snapshot of the log is at or before the start of the cut, the clip
    that cutRecording returns starts with its anchor, the full snapshot
    with the latest timestamp; the log need not be in timestamp order. *)
Theorem X5_clip_starts_with_snapshot (first : event) (rest : list event)
    (center before after : Q) (out : list event) :
  let events := first :: rest in
  let cutStart := timestamp first + center * 1000 - before * 1000 in
  cutRecording href events center before after = Ok out ->
  (forall k, In k events -> type k = 2%Z -> timestamp k <= cutStart) ->
  exists s tl,
    out = s :: tl /\ In s events /\ type s = 2%Z /\
    forall k, In k events -> type k = 2%Z -> timestamp k <= timestamp s.
Proof.
  intros events cutStart Hcut Hbefore.
  pose proof (closestFullSnapshot_inv events cutStart) as Hinv.
  destruct (closestFullSnapshot events cutStart) as [[s d]|] eqn:Hsel.
  2:{ unfold events, cutStart in *. unfold cutRecording in Hcut.
      rewrite Hsel in Hcut. discriminate. }
  cbn [closest_inv] in Hinv.
  destruct Hinv as (pre & post & Hsplit & Hs2 & Hd & Hpre & Hpost).
  assert (Hs : In s events).
  { rewrite Hsplit. apply in_or_app. right. now left. }
  pose proof (Hbefore s Hs Hs2) as Hsc.
  destruct (cutRecording_selected href first rest center before after s d
              Hsel) as (others & filler & Hout & Hothers & Hfill).
  fold events in Hout. rewrite Hout in Hcut.
  assert (out = sort_by_timestamp (s :: others ++ filler)) by congruence.
  subst out. rewrite sort_by_timestamp_head.
  - exists s. eexists. split; [reflexivity|]. split; [assumption|].
    split; [assumption|].
    intros k Hk Hk2. pose proof (Hbefore k Hk Hk2) as Hkc.
    assert (Hdk : d <= Qabs (timestamp k - cutStart)).
    { rewrite Hsplit in Hk. apply in_app_or in Hk.
      destruct Hk as [Hk|[<-|Hk]].
      - apply Qlt_le_weak. now apply Hpre.
      - rewrite Hd. apply Qle_refl.
      - now apply Hpost. }
    rewrite Hd in Hdk.
    assert (Ha : forall x, x <= cutStart ->
              Qabs (x - cutStart) == cutStart - x).
    { intros x Hx. rewrite Qabs_neg by lra. ring. }
    rewrite (Ha _ Hsc), (Ha _ Hkc) in Hdk. lra.
  - apply Forall_forall. intros e He. unfold ts_le.
    apply in_app_or in He. destruct He as [He|He].
    + destruct (Hothers e He) as (_ & Hmin & _).
      fold cutStart in Hmin.
      assert (Hm : Qmin (timestamp s) cutStart == timestamp s)
        by (apply Q.min_l; assumption).
      lra.
    + destruct Hfill as [[-> _]|[_ ->]]; [destruct He|].
      destruct He as [<-|[]]. cbn [timestamp]. lra.
Qed.

(** X6.  A wider clip.  With the same centre and the same margin
    before it, a larger margin after the centre keeps the anchor and
    loses no event: every event of the narrower clip is in the wider
    one, except the Meta filler that the narrower clip holds when it has
    nothing but its anchor. *)
Theorem X6_cut_widening (first : event) (rest : list event)
    (center before after after' : Q) (out out' : list event) :
  let events := first :: rest in
  after <= after' ->
  cutRecording href events center before after = Ok out ->
  cutRecording href events center before after' = Ok out' ->
  exists s,
    type s = 2%Z /\ In s out /\ In s out' /\
    forall e,
      In e out ->
      In e out' \/
      e = mkEvent 4 (VObj [("href", VStr href)]) (timestamp s + 100) None.
Proof.
  intros events Hle Hcut Hcut'.
  set (cutStart := timestamp first + center * 1000 - before * 1000).
  pose proof (closestFullSnapshot_inv events cutStart) as Hinv.
  destruct (closestFullSnapshot events cutStart) as [[s d]|] eqn:Hsel.
  2:{ unfold events, cutStart in *. unfold cutRecording in Hcut.
      rewrite Hsel in Hcut. discriminate. }
  cbn [closest_inv] in Hinv. destruct Hinv as (_ & _ & _ & Hs2 & _).
  destruct (cutRecording_members href first rest center before after s d
              Hsel) as (o & Ho & Hmem).
  destruct (cutRecording_members href first rest center before after' s d
              Hsel) as (o' & Ho' & Hmem').
  fold events in Ho, Ho'.
  assert (o = out) by congruence. assert (o' = out') by congruence.
  subst o o'.
  exists s. split; [assumption|].
  split; [apply Hmem; now left|]. split; [apply Hmem'; now left|].
  intros e He. apply Hmem in He.
  destruct He as [->|[(Hin & Hlo & Hhi & Hn)|[-> _]]].
  - left. apply Hmem'. now left.
  - left. apply Hmem'. right. left.
    split; [assumption|]. split; [assumption|]. split; [|assumption].
    assert (after * 1000 <= after' * 1000) by lra. lra.
  - now right.
Qed.

End CutShape.

(** * The statistics of a recording *)

Lemma count_of_bump t t' counts :
  count_of t (bump t' counts)
  = if (t =? t')%Z then
      Some (S (match count_of t counts with Some n => n | None => O end))
    else count_of t counts.
Proof.
  induction counts as [|[k n] counts IH]; simpl.
  - destruct (t =? t')%Z; reflexivity.
  - destruct (t' =? k)%Z eqn:E1; simpl.
    + apply Z.eqb_eq in E1. subst k.
      destruct (t =? t')%Z; reflexivity.
    + destruct (t =? k)%Z eqn:E2.
      * apply Z.eqb_eq in E2. subst k.
        rewrite Z.eqb_sym in E1. now rewrite E1.
      * exact IH.
Qed.

Lemma bump_keys t counts :
  NoDup (map fst counts) -> NoDup (map fst (bump t counts)).
Proof.
  assert (Hin : forall k cs, In k (map fst (bump t cs)) ->
                  k = t \/ In k (map fst cs)).
  { intros k cs. induction cs as [|[k' n] cs IH]; simpl.
    - intros [<-|[]]. now left.
    - destruct (t =? k')%Z; simpl; [tauto|].
      intros [<-|H]; [tauto|]. destruct (IH H); tauto. }
  induction counts as [|[k n] counts IH]; simpl; intros Hnd.
  - constructor; [intros []|constructor].
  - inversion Hnd as [|? ? Hk Hrest]; subst.
    destruct (t =? k)%Z eqn:E; simpl.
    + now constructor.
    + constructor; [|now apply IH].
      intros H. destruct (Hin _ _ H) as [->|H']; [|contradiction].
      now rewrite Z.eqb_refl in E.
Qed.

Lemma bump_sum t counts :
  list_sum (map snd (bump t counts)) = S (list_sum (map snd counts)).
Proof.
  induction counts as [|[k n] counts IH]; simpl; [reflexivity|].
  destruct (t =? k)%Z; simpl; [reflexivity|]. rewrite IH. lia.
Qed.

(** The tally after the loop over [l], from the tally [acc]. *)
Lemma tally_fold l : forall acc,
  let counts := fold_left (fun counts e => bump (type e) counts) l acc in
  (forall t,
     count_of t counts
     = match count_type t l, count_of t acc with
       | O, c => c
       | S n, Some m => Some (S n + m)%nat
       | S n, None => Some (S n)
       end) /\
  (NoDup (map fst acc) -> NoDup (map fst counts)) /\
  list_sum (map snd counts) = (List.length l + list_sum (map snd acc))%nat.
Proof.
  induction l as [|e l IH]; intros acc; cbn [fold_left].
  - split; [|split; [auto|reflexivity]].
    intros t. unfold count_type. simpl. now destruct (count_of t acc).
  - destruct (IH (bump (type e) acc)) as (Hc & Hk & Hs).
    split; [|split].
    + intros t. rewrite Hc, count_of_bump. unfold count_type.
      cbn [filter]. rewrite (Z.eqb_sym (type e) t).
      destruct (t =? type e)%Z; cbn [List.length].
      * destruct (List.length (filter _ l)), (count_of t acc);
          apply f_equal; lia.
      * reflexivity.
    + intros Hnd. apply Hk. now apply bump_keys.
    + rewrite Hs, bump_sum. simpl. lia.
Qed.

(** The statistics of a log that is not empty. *)
Lemma analyzeRecording_cons first rest stats :
  analyzeRecording (first :: rest) = Some stats ->
  stats
  = mkStats (List.length (first :: rest))
      ((timestamp (last (first :: rest) first) - timestamp first) / 1000)
      (timestamp first) (timestamp (last (first :: rest) first))
      (fold_left (fun counts e => bump (type e) counts) (first :: rest) [])
      eventTypeNames.
Proof. unfold analyzeRecording. congruence. Qed.

(** X7.  The tally of analyzeRecording.  For every event type [t], the
    entry [eventTypeCounts[t]] of the statistics is the number of events
    of type [t] in the log, and is absent exactly when the log has none;
    every type has at most one entry; and the entries add up to
    [totalEvents], the length of the log. *)
Theorem X7_analyzeRecording_tally (events : list event)
    (stats : RecordingStats) :
  analyzeRecording events = Some stats ->
  (forall t,
     count_of t (eventTypeCounts stats)
     = if (count_type t events =? 0)%nat then None
       else Some (count_type t events)) /\
  NoDup (map fst (eventTypeCounts stats)) /\
  list_sum (map snd (eventTypeCounts stats)) = totalEvents stats /\
  totalEvents stats = List.length events.
Proof.
  destruct events as [|first rest]; [discriminate|].
  intros Hstats. apply analyzeRecording_cons in Hstats. subst stats.
  cbn [eventTypeCounts totalEvents].
  destruct (tally_fold (first :: rest) []) as (Hc & Hk & Hs).
  split; [|split; [|split]].
  - intros t. rewrite Hc. cbn [count_of].
    now destruct (count_type t (first :: rest)).
  - apply Hk. constructor.
  - rewrite Hs. simpl. lia.
  - reflexivity.
Qed.

(** X8.  Relative times against the statistics.  On a log in timestamp
    order, [startTime <= endTime], the duration is not negative, and the
    relative time of every event of the log lies between 0 and the
    duration reported by analyzeRecording: it is 0 for the first event
    and the duration for the last. *)
Theorem X8_relative_time_in_duration (events : list event)
    (stats : RecordingStats) :
  nondecreasing events ->
  analyzeRecording events = Some stats ->
  startTime stats <= endTime stats /\ 0 <= duration stats /\
  (forall e, In e events ->
     0 <= timestampToRelativeTime events (timestamp e) /\
     timestampToRelativeTime events (timestamp e) <= duration stats) /\
  timestampToRelativeTime events (startTime stats) == 0 /\
  timestampToRelativeTime events (endTime stats) == duration stats.
Proof.
  intros Hsorted.
  destruct events as [|first rest]; [discriminate|].
  intros Hstats. apply analyzeRecording_cons in Hstats. subst stats.
  cbn [startTime endTime duration timestampToRelativeTime].
  pose proof (nondecreasing_last first rest Hsorted) as Hlast.
  pose proof (nondecreasing_first first rest Hsorted) as Hfirst.
  set (lastTs := timestamp (last (first :: rest) first)) in *.
  assert (H0 : timestamp first <= lastTs) by (apply Hlast; now left).
  split; [assumption|]. split; [duration_lra|]. split.
  - intros e He. specialize (Hlast e He). specialize (Hfirst e He).
    split; duration_lra.
  - split; [duration_lra|reflexivity].
Qed.

(** * Searching in the results of a search *)

Lemma toLowerCase_app s t :
  toLowerCase (s ++ t) = (toLowerCase s ++ toLowerCase t)%string.
Proof. induction s as [|c s IH]; simpl; [reflexivity|now rewrite IH]. Qed.

Lemma append_assoc (a b c : string) :
  ((a ++ b) ++ c = a ++ (b ++ c))%string.
Proof. induction a as [|x a IH]; simpl; [reflexivity|now rewrite IH]. Qed.

Lemma includes_trans s t u :
  includes s t = true -> includes t u = true -> includes s u = true.
Proof.
  rewrite !includes_spec.
  intros (p1 & q1 & ->) (p2 & q2 & ->).
  exists (p1 ++ p2)%string, (q2 ++ q1)%string.
  now rewrite !append_assoc.
Qed.

Lemma filter_filter_implied {A : Type} (p q : A -> bool) (l : list A) :
  (forall x, q x = true -> p x = true) ->
  filter q (filter p l) = filter q l.
Proof.
  intros Himp. induction l as [|x l IH]; simpl; [reflexivity|].
  destruct (p x) eqn:Hp; simpl.
  - now rewrite IH.
  - destruct (q x) eqn:Hq; [|assumption].
    apply Himp in Hq. congruence.
Qed.

Section SearchProperties.

Variable JSON_stringify : event -> string.

(** X9.  Narrowing a search.  When a term [longer] contains the term
    [shorter], case apart, every event found for [longer] is found for
    [shorter], and searching for [longer] in the events found for
    [shorter] returns what the search for [longer] in the whole log
    returns. *)
Theorem X9_search_in_results (events : list event)
    (shorter longer : string) :
  includes (toLowerCase longer) (toLowerCase shorter) = true ->
  findEventsByContent JSON_stringify
    (findEventsByContent JSON_stringify events shorter) longer
  = findEventsByContent JSON_stringify events longer /\
  forall e,
    In e (findEventsByContent JSON_stringify events longer) ->
    In e (findEventsByContent JSON_stringify events shorter).
Proof.
  intros Hinc. unfold findEventsByContent.
  assert (Himp : forall e,
            includes (toLowerCase (JSON_stringify e)) (toLowerCase longer)
            = true ->
            includes (toLowerCase (JSON_stringify e)) (toLowerCase shorter)
            = true).
  { intros e He. exact (includes_trans _ _ _ He Hinc). }
  split.
  - now apply filter_filter_implied.
  - intros e. rewrite !filter_In. intros [He Hl]. split; auto.
Qed.

End SearchProperties.

(** ** The search box *)

Lemma trim_start_space pad s :
  all_space pad = true -> trim_start (pad ++ s) = trim_start s.
Proof.
  induction pad as [|c pad IH]; simpl; [reflexivity|].
  intros H. apply andb_prop in H. destruct H as [Hc Hp].
  rewrite Hc. now apply IH.
Qed.

Lemma trim_end_space pad : all_space pad = true -> trim_end pad = EmptyString.
Proof.
  induction pad as [|c pad IH]; simpl; [reflexivity|].
  intros H. apply andb_prop in H. destruct H as [Hc Hp].
  now rewrite (IH Hp), Hc.
Qed.

Lemma trim_end_app_space s pad :
  all_space pad = true -> trim_end (s ++ pad) = trim_end s.
Proof.
  intros Hp. induction s as [|c s IH]; simpl.
  - now apply trim_end_space.
  - now rewrite IH.
Qed.

Lemma trim_space pad : all_space pad = true -> trim pad = EmptyString.
Proof.
  unfold trim. induction pad as [|c pad IH]; simpl; [reflexivity|].
  intros H. apply andb_prop in H. destruct H as [Hc Hp].
  rewrite Hc. now apply IH.
Qed.

Lemma trim_app_space s pad :
  all_space pad = true -> trim (s ++ pad) = trim s.
Proof.
  intros Hp. unfold trim. induction s as [|c s IH]; simpl.
  - exact (trim_space pad Hp).
  - destruct (is_space c); [exact IH|].
    exact (trim_end_app_space (String c s) pad Hp).
Qed.

(** Blanks around a text do not change what [trim] returns. *)
Lemma trim_padded before s after :
  all_space before = true -> all_space after = true ->
  trim (before ++ s ++ after) = trim s.
Proof.
  intros Hb Ha. unfold trim. rewrite trim_start_space by assumption.
  exact (trim_app_space s after Ha).
Qed.

Section SearchBoxProperties.

Variable JSON_stringify : event -> string.

(** X10.  The search box.  [searchEvents] finds nothing for a term of
    blanks only, and blanks before and after a term do not change what it
    finds: the term is trimmed before findEventsByContent is called. *)
Theorem X10_searchEvents_blanks (events : option (list event))
    (before term after : string) :
  all_space before = true -> all_space after = true ->
  App.searchEvents JSON_stringify events before = [] /\
  App.searchEvents JSON_stringify events (before ++ term ++ after)
  = App.searchEvents JSON_stringify events term.
Proof.
  intros Hb Ha. unfold App.searchEvents. destruct events as [events|];
    [|split; reflexivity].
  split.
  - now rewrite (trim_space before Hb).
  - now rewrite trim_padded.
Qed.

End SearchBoxProperties.

(** * The fallback trimmer *)

Lemma Forall2_In_r {A B : Type} (R : A -> B -> Prop) l l' :
  Forall2 R l l' -> forall b, In b l' -> exists a, In a l /\ R a b.
Proof.
  induction 1 as [|a b l l' Hab _ IH]; intros x Hx; [destruct Hx|].
  destruct Hx as [<-|Hx].
  - exists a. split; [now left|assumption].
  - destruct (IH x Hx) as (a' & Ha' & HR). exists a'. split; [now right|auto].
Qed.

(** The shift changes the timestamp only. *)
Lemma shiftEvent_fields startMs timeShift baseTime e b :
  shiftEvent startMs timeShift baseTime e = Ok b ->
  type b = type e /\ data b = data e /\ tabId b = tabId e.
Proof.
  unfold shiftEvent.
  destruct (if num_lt (timestamp e) startMs
            then if (type e =? 3)%Z
                 then src <- get_prop (data e) "source";; Ok (is_zero src)
                 else Ok false
            else Ok false) as [[|]|]; cbn [bind]; [|intros [= <-]; auto|
    discriminate].
  destruct (compressedTimestamp _ _); cbn [bind]; [|discriminate].
  intros [= <-]. auto.
Qed.

(** The one failure of a shift whose event can be read: the timestamp
    that is not a finite number, with [timeShift] zero. *)
Lemma shiftEvent_raises_NotFinite startMs timeShift baseTime e :
  (timestamp e < startMs -> type e = 3%Z ->
   exists src, get_prop (data e) "source" = Ok src) ->
  raises_only (fun err => err = NotFinite /\ timeShift == 0)
    (shiftEvent startMs timeShift baseTime e).
Proof.
  intros Hsrc. unfold shiftEvent.
  destruct (num_lt (timestamp e) startMs) eqn:Hlt; [|exact I].
  destruct (type e =? 3)%Z eqn:Ht; [|exact I].
  apply num_lt_iff in Hlt. apply Z.eqb_eq in Ht.
  destruct (Hsrc Hlt Ht) as [src ->]. cbn [bind].
  destruct (is_zero src); [|exact I].
  unfold compressedTimestamp.
  destruct (num_eq timeShift 0) eqn:Hz; [|exact I].
  destruct (num_lt 0 (timestamp e - baseTime)); [exact I|].
  split; [reflexivity|now apply num_eq_iff].
Qed.

(** X11.  The errors of the fallback.  On every log, in order or not,
    trimRecordingFallback throws the missing-snapshot error exactly when
    the log has no full snapshot, and nothing else: neither a failed
    property read nor the too-few-events error can happen.  The one other
    stop is the model's, for a compressed timestamp that is not a finite
    number, which needs a base snapshot at [startMs] itself. *)
Theorem X11_fallback_errors (events : list event) (startMs endMs : Q) :
  ((forall k, In k events -> type k <> 2%Z) ->
   trimRecordingFallback events startMs endMs = Throw NoFullSnapshot) /\
  (forall err,
     trimRecordingFallback events startMs endMs = Throw err ->
     (err = NoFullSnapshot /\ forall k, In k events -> type k <> 2%Z) \/
     (err = NotFinite /\
      exists base, In base events /\ type base = 2%Z /\
                   timestamp base == startMs)).
Proof.
  split.
  { intros Hnone. apply (fullSnapshotsFrom_nil 0) in Hnone.
    unfold trimRecordingFallback. rewrite Hnone. reflexivity. }
  intros err.
  unfold trimRecordingFallback.
  destruct (selectBaseSnapshot (fullSnapshotsFrom 0 events) startMs)
    as [[base idx]|] eqn:Hsel.
  2:{ intros [= <-]. left. split; [reflexivity|].
      apply (fullSnapshotsFrom_nil 0).
      now apply selectBaseSnapshot_None in Hsel. }
  pose proof (selectBaseSnapshot_In _ _ _ Hsel) as Hin.
  apply fullSnapshotsFrom_In in Hin. destruct Hin as (Hbt & _ & Hnth).
  apply nth_error_In in Hnth.
  destruct (collectEvents_Ok startMs endMs (skipn (idx + 1) events))
    as (kept & Hk & _ & Hall).
  rewrite Hk. cbn [bind]. cbv zeta. rewrite with_timestamp_same.
  set (metaEvents := match find (fun e => (type e =? 4)%Z) events with
                     | Some m => [with_timestamp m (timestamp base + 1)]
                     | None => []
                     end).
  set (sorted := sort_by_timestamp (base :: metaEvents ++ kept)).
  set (newEvents := if (List.length sorted =? 1)%nat
                    then sorted ++ [minimalEvent (timestamp base + 10)]
                    else sorted).
  assert (Hlen : (2 <= List.length newEvents)%nat).
  { unfold newEvents.
    assert (1 <= List.length sorted)%nat
      by (unfold sorted; rewrite sort_by_timestamp_length; simpl; lia).
    destruct (List.length sorted =? 1)%nat eqn:E.
    - rewrite length_app. simpl. lia.
    - apply Nat.eqb_neq in E. lia. }
  assert (Hread : forall e, In e newEvents ->
            timestamp e < startMs -> type e = 3%Z ->
            exists src, get_prop (data e) "source" = Ok src).
  { assert (Hsorted : forall e, In e sorted ->
              timestamp e < startMs -> type e = 3%Z ->
              exists src, get_prop (data e) "source" = Ok src).
    { intros e He Hlt Ht. unfold sorted in He.
      apply (proj1 (sort_by_timestamp_In _ _)) in He.
      destruct He as [<-|He]; [congruence|].
      apply in_app_or in He. destruct He as [He|He].
      - unfold metaEvents in He.
        destruct (find _ events) as [m|] eqn:Hf; [|destruct He].
        destruct He as [<-|[]]. apply find_some in Hf.
        destruct Hf as [_ Hf]. apply Z.eqb_eq in Hf.
        cbn [with_timestamp type] in Ht. congruence.
      - destruct (Hall e He) as (_ & _ & _ & Hpre).
        destruct (Hpre Hlt) as (_ & src & Hsrc & _). now exists src. }
    intros e He. unfold newEvents in He.
    destruct (List.length sorted =? 1)%nat; [|now apply Hsorted].
    apply in_app_or in He. destruct He as [He|[<-|[]]];
      [now apply Hsorted|].
    intros _ _. eexists. reflexivity. }
  pose proof (raises_only_mapM
                (fun err => err = NotFinite /\
                            startMs - timestamp base == 0)
                (shiftEvent startMs (startMs - timestamp base)
                   (timestamp (hd base newEvents))) newEvents) as Hraise.
  destruct (mapM _ newEvents) as [shifted|err'] eqn:Hmap; cbn [bind].
  - apply mapM_length in Hmap. rewrite Hmap.
    replace (List.length newEvents <? 2)%nat with false
      by (symmetry; apply Nat.ltb_ge; lia).
    discriminate.
  - intros [= <-]. right.
    destruct Hraise as [-> Hz].
    { intros e He. apply shiftEvent_raises_NotFinite. now apply Hread. }
    split; [reflexivity|]. exists base.
    split; [assumption|]. split; [assumption|]. lra.
Qed.

Lemma StronglySorted_skipn {A : Type} (R : A -> A -> Prop) n : forall l,
  StronglySorted R l -> StronglySorted R (skipn n l).
Proof.
  induction n as [|n IH]; intros l Hl; [assumption|].
  destruct l as [|a l]; [assumption|]. simpl. apply IH.
  now inversion Hl.
Qed.

(** On a log in timestamp order the walk keeps every event of the range
    that is not a full snapshot. *)
Lemma collectEvents_complete startMs endMs l : forall kept,
  StronglySorted ts_le l ->
  collectEvents startMs endMs l = Ok kept ->
  forall e, In e l -> type e <> 2%Z ->
            startMs <= timestamp e -> timestamp e <= endMs -> In e kept.
Proof.
  induction l as [|x l IH]; intros kept Hs Hc e He Ht H1 H2;
    [destruct He|].
  inversion Hs as [|? ? Hl Hx]; subst. rewrite Forall_forall in Hx.
  cbn [collectEvents] in Hc.
  destruct (num_lt endMs (timestamp x)) eqn:Eend.
  { apply num_lt_iff in Eend. exfalso.
    destruct He as [<-|He]; [lra|]. specialize (Hx e He).
    unfold ts_le in Hx. lra. }
  destruct (type x =? 2)%Z eqn:E2.
  { apply Z.eqb_eq in E2. destruct He as [<-|He]; [congruence|].
    now apply (IH kept). }
  destruct (collectEvents startMs endMs l) as [kept'|] eqn:Hk.
  2:{ destruct (num_lt (timestamp x) startMs); [|discriminate].
      destruct (isMutation x); discriminate. }
  specialize (IH kept' Hl eq_refl).
  destruct (num_lt (timestamp x) startMs) eqn:Es.
  - apply num_lt_iff in Es.
    destruct (isMutation x) as [m|]; [|discriminate]. cbn [bind] in Hc.
    injection Hc as <-.
    destruct He as [<-|He]; [lra|].
    destruct m; [right|]; now apply IH.
  - cbn [bind] in Hc. injection Hc as <-.
    destruct He as [<-|He]; [now left|]. right. now apply IH.
Qed.

(** X12.  What the fallback keeps.  On a log in timestamp order with the
    base snapshot at index [idx], the output of trimRecordingFallback is
    the shifted base snapshot followed by events none of which is a full
    snapshot, and it holds, moved to [timestamp - startMs + 100], every
    event after the base snapshot that is not a full snapshot and whose
    timestamp lies between [startMs] and [endMs]. *)
Theorem X12_fallback_keeps_range (events : list event) (startMs endMs : Q)
    (base : event) (idx : nat) :
  nondecreasing events ->
  selectBaseSnapshot (fullSnapshotsFrom 0 events) startMs
    = Some (base, idx) ->
  exists rest,
    trimRecordingFallback events startMs endMs
    = Ok (with_timestamp base (timestamp base - startMs + 100) :: rest) /\
    (forall b, In b rest -> type b <> 2%Z) /\
    (forall e,
       In e (skipn (idx + 1) events) -> type e <> 2%Z ->
       startMs <= timestamp e -> timestamp e <= endMs ->
       In (with_timestamp e (timestamp e - startMs + 100)) rest).
Proof.
  intros Hsorted Hsel.
  destruct (trimRecordingFallback_sorted_shape events startMs endMs base idx
              Hsorted Hsel) as (tail & rest & Hfb & _ & Hshift & Htail).
  pose proof (selectBaseSnapshot_In _ _ _ Hsel) as Hin.
  apply fullSnapshotsFrom_In in Hin. destruct Hin as (Hbt & _ & _).
  exists rest. split; [assumption|]. split.
  - intros b Hb.
    destruct (Forall2_In_r _ _ _ Hshift b Hb) as (e & He & Hs).
    apply shiftEvent_fields in Hs. destruct Hs as (-> & _).
    destruct (Htail e He) as [[-> _]|[[(_ & Hn2 & _) _]| ->]];
      [discriminate|assumption|discriminate].
  - intros e He Ht H1 H2.
    destruct (collectEvents startMs endMs (skipn (idx + 1) events))
      as [kept|] eqn:Hk.
    2:{ destruct (collectEvents_Ok startMs endMs (skipn (idx + 1) events))
          as (kept & Hk' & _). congruence. }
    assert (Hkept : In e kept).
    { apply (collectEvents_complete startMs endMs
               (skipn (idx + 1) events) kept); auto.
      apply StronglySorted_skipn. now apply nondecreasing_strongly. }
    unfold trimRecordingFallback in Hfb. rewrite Hsel, Hk in Hfb.
    cbn [bind] in Hfb. cbv zeta in Hfb.
    set (sorted := sort_by_timestamp _) in Hfb.
    assert (Hs : In e sorted).
    { unfold sorted. apply sort_by_timestamp_In. right.
      apply in_or_app. now right. }
    set (newEvents := if (List.length sorted =? 1)%nat then _ else sorted)
      in Hfb.
    assert (Hn : In e newEvents).
    { unfold newEvents. destruct (List.length sorted =? 1)%nat; [|assumption].
      apply in_or_app. now left. }
    destruct (mapM _ newEvents) as [shifted|] eqn:Hmap; [|discriminate].
    cbn [bind] in Hfb.
    destruct (List.length shifted <? 2)%nat; [discriminate|].
    injection Hfb as ->.
    destruct (mapM_In _ _ _ e Hmap Hn) as (b & Hb & Hbin).
    rewrite shiftEvent_plain in Hb by now right.
    injection Hb as <-.
    destruct Hbin as [Heq|Hbin]; [|assumption].
    exfalso. apply Ht. apply (f_equal type) in Heq.
    cbn [with_timestamp type] in Heq. congruence.
Qed.

(** ** The compression of the events before the start *)

(** On a log in timestamp order the array that the fallback shifts starts
    with the base snapshot, whose timestamp is the [baseTime] of the
    shift. *)
Lemma trimRecordingFallback_sorted_mapM events startMs endMs base idx kept :
  nondecreasing events ->
  selectBaseSnapshot (fullSnapshotsFrom 0 events) startMs
    = Some (base, idx) ->
  collectEvents startMs endMs (skipn (idx + 1) events) = Ok kept ->
  exists newEvents,
    (forall e, In e kept -> In e newEvents) /\
    trimRecordingFallback events startMs endMs
    = (shiftedEvents <-
         mapM (shiftEvent startMs (startMs - timestamp base)
                 (timestamp base)) (base :: newEvents) ;;
       if (List.length shiftedEvents <? 2)%nat
       then Throw (TooFewEvents (List.length shiftedEvents))
       else Ok shiftedEvents).
Proof.
  intros Hsorted Hsel Hk.
  pose proof (selectBaseSnapshot_In _ _ _ Hsel) as Hin.
  apply fullSnapshotsFrom_In in Hin. destruct Hin as (_ & _ & Hnth).
  rewrite Nat.sub_0_r in Hnth.
  unfold trimRecordingFallback. rewrite Hsel, Hk. cbn [bind]. cbv zeta.
  rewrite with_timestamp_same.
  set (metaEvents := match find (fun e => (type e =? 4)%Z) events with
                     | Some m => [with_timestamp m (timestamp base + 1)]
                     | None => []
                     end).
  rewrite sort_by_timestamp_head.
  2:{ apply Forall_forall. intros e He. apply in_app_or in He.
      unfold ts_le. destruct He as [He|He].
      - unfold metaEvents in He.
        destruct (find _ events); [|destruct He].
        destruct He as [<-|[]]. cbn [with_timestamp timestamp]. lra.
      - destruct (collectEvents_Ok startMs endMs (skipn (idx + 1) events))
          as (kept' & Hk' & _ & Hall).
        assert (kept' = kept) by congruence. subst kept'.
        destruct (Hall e He) as (Hes & _).
        apply nondecreasing_strongly in Hsorted.
        pose proof (sorted_skipn events idx base Hsorted Hnth) as Hf.
        rewrite Forall_forall in Hf. apply Hf.
        now replace (S idx) with (idx + 1)%nat by lia. }
  set (X := sort_by_timestamp (metaEvents ++ kept)).
  assert (HX : forall e, In e kept -> In e X).
  { intros e He. unfold X. apply sort_by_timestamp_In.
    apply in_or_app. now right. }
  destruct X as [|x X'] eqn:EX.
  - exists [minimalEvent (timestamp base + 10)].
    split; [intros e He; destruct (HX e He)|reflexivity].
  - exists (x :: X'). split; [assumption|reflexivity].
Qed.

Lemma isMutation_source e src :
  type e = 3%Z -> get_prop (data e) "source" = Ok src ->
  is_zero src = true -> isMutation e = Ok true.
Proof.
  intros Ht Hsrc Hz. unfold isMutation. apply Z.eqb_eq in Ht. rewrite Ht.
  destruct (data e) eqn:Ed; simpl in *;
    try discriminate; injection Hsrc as <-; try discriminate.
  now rewrite Hz.
Qed.

(** On a log in timestamp order the walk keeps every mutation before the
    start. *)
Lemma collectEvents_mutations startMs endMs l : forall kept,
  StronglySorted ts_le l ->
  collectEvents startMs endMs l = Ok kept ->
  forall e, In e l -> type e = 3%Z -> isMutation e = Ok true ->
            timestamp e < startMs -> timestamp e <= endMs -> In e kept.
Proof.
  induction l as [|x l IH]; intros kept Hs Hc e He Ht Hm H1 H2;
    [destruct He|].
  inversion Hs as [|? ? Hl Hx]; subst. rewrite Forall_forall in Hx.
  cbn [collectEvents] in Hc.
  destruct (num_lt endMs (timestamp x)) eqn:Eend.
  { apply num_lt_iff in Eend. exfalso.
    destruct He as [<-|He]; [lra|]. specialize (Hx e He).
    unfold ts_le in Hx. lra. }
  destruct (type x =? 2)%Z eqn:E2.
  { apply Z.eqb_eq in E2. destruct He as [<-|He]; [congruence|].
    now apply (IH kept). }
  destruct (collectEvents startMs endMs l) as [kept'|] eqn:Hk.
  2:{ destruct (num_lt (timestamp x) startMs); [|discriminate].
      destruct (isMutation x); discriminate. }
  specialize (IH kept' Hl eq_refl).
  destruct (num_lt (timestamp x) startMs) eqn:Es.
  - destruct He as [<-|He].
    + rewrite Hm in Hc. cbn [bind] in Hc. injection Hc as <-. now left.
    + destruct (isMutation x) as [m|]; [|discriminate]. cbn [bind] in Hc.
      injection Hc as <-. destruct m; [right|]; now apply IH.
  - cbn [bind] in Hc. injection Hc as <-.
    destruct He as [<-|He]; [now left|]. right. now apply IH.
Qed.

(** X13.  The compression of the fallback.  On a log in timestamp order,
    a DOM mutation (an incremental snapshot of source 0) that follows the
    base snapshot and precedes [startMs] is kept, and its place between
    the base snapshot and [startMs] becomes its place between 0 and
    100 ms: its new timestamp is
    [(timestamp - base.timestamp) / (startMs - base.timestamp) * 100]. *)
Theorem X13_fallback_compresses (events : list event) (startMs endMs : Q)
    (base : event) (idx : nat) (e : event) (src : value) :
  nondecreasing events ->
  selectBaseSnapshot (fullSnapshotsFrom 0 events) startMs
    = Some (base, idx) ->
  In e (skipn (idx + 1) events) ->
  type e = 3%Z -> get_prop (data e) "source" = Ok src -> is_zero src = true ->
  timestamp e < startMs -> timestamp e <= endMs ->
  exists rest t,
    trimRecordingFallback events startMs endMs
    = Ok (with_timestamp base (timestamp base - startMs + 100) :: rest) /\
    In (with_timestamp e t) rest /\
    t == (timestamp e - timestamp base) / (startMs - timestamp base) * 100 /\
    0 <= t /\ t < 100.
Proof.
  intros Hsorted Hsel He Ht Hsrc Hz Hlt Hend.
  destruct (trimRecordingFallback_sorted events startMs endMs base idx
              Hsorted Hsel) as (rest & Hfb & _).
  pose proof (selectBaseSnapshot_In _ _ _ Hsel) as Hin.
  apply fullSnapshotsFrom_In in Hin. destruct Hin as (Hbt & _ & Hnth).
  rewrite Nat.sub_0_r in Hnth.
  assert (Hafter : timestamp base <= timestamp e).
  { apply nondecreasing_strongly in Hsorted.
    pose proof (sorted_skipn events idx base Hsorted Hnth) as Hf.
    rewrite Forall_forall in Hf. apply Hf.
    now replace (S idx) with (idx + 1)%nat by lia. }
  destruct (collectEvents_Ok startMs endMs (skipn (idx + 1) events))
    as (kept & Hk & _).
  assert (Hkept : In e kept).
  { apply (collectEvents_mutations startMs endMs
             (skipn (idx + 1) events) kept); auto.
    - apply StronglySorted_skipn. now apply nondecreasing_strongly.
    - now apply (isMutation_source e src). }
  destruct (trimRecordingFallback_sorted_mapM events startMs endMs base idx
              kept Hsorted Hsel Hk) as (newEvents & Hnew & Heq).
  pose proof Hfb as Hout. rewrite Heq in Hfb.
  destruct (mapM _ (base :: newEvents)) as [shifted|] eqn:Hmap;
    [|discriminate].
  cbn [bind] in Hfb.
  destruct (List.length shifted <? 2)%nat; [discriminate|].
  injection Hfb as ->.
  destruct (mapM_In _ _ _ e Hmap (or_intror (Hnew e Hkept)))
    as (b & Hb & Hbin).
  rewrite (shiftEvent_compress _ _ _ e src Hlt Ht Hsrc Hz) in Hb by lra.
  injection Hb as <-.
  set (r := (timestamp e - timestamp base) / (startMs - timestamp base))
    in *.
  assert (Hr0 : 0 <= r).
  { unfold r. apply Qle_shift_div_l; lra. }
  assert (Hr1 : r < 1).
  { unfold r. apply Qlt_shift_div_r; lra. }
  assert (Hmin : Qmin r 1 == r) by (apply Q.min_l; lra).
  exists rest, (Qmin r 1 * 100). split; [exact Hout|].
  split.
  - destruct Hbin as [Heq'|Hbin]; [|assumption].
    exfalso. apply (f_equal type) in Heq'.
    cbn [with_timestamp type] in Heq'. congruence.
  - rewrite Hmin. split; [reflexivity|]. split; lra.
Qed.

(** * The boundary snapshot of a trim *)

(** The exact-match search finds a full snapshot at [startMs] that no
    full snapshot within a second of [startMs] precedes. *)
Lemma exactSnapshot_first pre k post startMs :
  type k = 2%Z -> timestamp k == startMs ->
  (forall e, In e pre -> type e = 2%Z ->
             1000 <= Qabs (timestamp e - startMs)) ->
  exactSnapshot (pre ++ k :: post) startMs = Some k.
Proof.
  intros Hk Hts Hpre. unfold exactSnapshot. cbv zeta.
  assert (Hclose : num_lt (Qabs (timestamp k - startMs)) 1000 = true).
  { apply num_lt_iff. rewrite Hts.
    setoid_replace (startMs - startMs) with 0 by ring. reflexivity. }
  assert (Hfind : find (fun s => num_lt (Qabs (timestamp s - startMs)) 1000)
                    (filter (fun e => (type e =? 2)%Z) (pre ++ k :: post))
                  = Some k).
  { induction pre as [|a pre IH]; cbn [app filter].
    - apply Z.eqb_eq in Hk. rewrite Hk. cbn [find]. now rewrite Hclose.
    - destruct (type a =? 2)%Z eqn:Ea.
      + cbn [find]. apply Z.eqb_eq in Ea.
        replace (num_lt (Qabs (timestamp a - startMs)) 1000) with false.
        * apply IH. intros e He. apply Hpre. now right.
        * symmetry. apply num_lt_false_iff. apply Hpre; [now left|assumption].
      + apply IH. intros e He. apply Hpre. now right. }
  rewrite Hfind. apply num_eq_iff in Hts. now rewrite Hts.
Qed.

Section BoundarySnapshot.

Variable href : string.

(** X14.  A trim that starts on a full snapshot replays nothing.  When
    the log has a full snapshot [k] at the clamped start, and no full
    snapshot within a second of that start precedes it, trimRecording
    returns the log built on [k] whatever the replay does: the
    reconstruction is not run, and the fallback is not reached. *)
Theorem X14_trimRecording_on_snapshot (first : event) (rest : list event)
    (startMs endMs : Q) (pre : list event) (k : event) (post : list event) :
  let events := first :: rest in
  let startMs' := clampStart (timestamp first) startMs in
  let endMs' := clampEnd (timestamp (last events first)) endMs in
  startMs' < endMs' ->
  events = pre ++ k :: post -> type k = 2%Z -> timestamp k == startMs' ->
  (forall e, In e pre -> type e = 2%Z ->
             1000 <= Qabs (timestamp e - startMs')) ->
  forall replay_and_snapshot,
    trimRecording href replay_and_snapshot events startMs endMs
    = Ok (buildTrimmed href events startMs' endMs' k).
Proof.
  intros events startMs' endMs' Hrange Hsplit Hk Hts Hpre replay.
  pose proof (trimRecording_unfold href replay first rest startMs endMs)
    as Hu.
  cbv zeta in Hu. fold events startMs' endMs' in Hu.
  apply num_le_false_iff in Hrange. rewrite Hrange in Hu.
  unfold boundarySnapshot in Hu.
  rewrite Hsplit in Hu at 2.
  rewrite (exactSnapshot_first pre k post startMs' Hk Hts Hpre) in Hu.
  exact Hu.
Qed.

(** X15.  The reconstructed snapshot.  When no full snapshot is found at
    the clamped start and the replay to the relative time
    [startMs' - first.timestamp] captures a document [dom], the second
    event of the trimmed log is the full snapshot of [dom] with a zero
    initial offset, at timestamp 1; it and the Meta event before it carry
    the tabId of the first event of the log that has one (a string that
    is not empty), and none when no event has. *)
Theorem X15_reconstructed_snapshot (replay_and_snapshot :
      list event -> Q -> result value)
    (first : event) (rest : list event) (startMs endMs : Q) (dom : value) :
  let events := first :: rest in
  let startMs' := clampStart (timestamp first) startMs in
  let endMs' := clampEnd (timestamp (last events first)) endMs in
  let tab := match find truthy_tabId events with
             | Some e => tabId e
             | None => None
             end in
  startMs' < endMs' ->
  exactSnapshot events startMs' = None ->
  replay_and_snapshot events (startMs' - timestamp first) = Ok dom ->
  truthy dom = true ->
  exists metaEvent tl,
    trimRecording href replay_and_snapshot events startMs endMs
    = Ok (metaEvent
            :: mkEvent 2
                 (VObj [("node", dom);
                        ("initialOffset",
                         VObj [("left", VNum 0); ("top", VNum 0)])])
                 1 tab
            :: tl) /\
    type metaEvent = 4%Z /\ tabId metaEvent = tab.
Proof.
  intros events startMs' endMs' tab Hrange Hexact Hreplay Hdom.
  pose proof (trimRecording_unfold href replay_and_snapshot
                first rest startMs endMs) as Hu.
  cbv zeta in Hu. fold events startMs' endMs' in Hu.
  apply num_le_false_iff in Hrange. rewrite Hrange in Hu.
  unfold boundarySnapshot in Hu. rewrite Hexact in Hu.
  unfold createTrueSyntheticSnapshot in Hu. unfold events in Hu at 2.
  cbv zeta in Hu. fold events in Hu. rewrite Hreplay in Hu.
  cbn [bind] in Hu. rewrite Hdom in Hu. fold tab in Hu.
  rewrite buildTrimmed_shape in Hu.
  do 2 eexists. split; [exact Hu|]. split; reflexivity.
Qed.

End BoundarySnapshot.

(** * The forms of the player *)

Section CutForm.

Variable href : string.
Variable Number_other : string -> option Q.

(** X16.  The cut form.  Take the text that [formatTime] prints for the
    relative time of an event [e] (what [fillTimestamp] puts in the form
    when it is given that time; nothing in [App.js] calls it), and let
    [handleCut] read it back with [parseTimeString] and cut with
    [cutRecording].  For timestamps that are whole milliseconds from 0
    up to 2^53, on a log with a full snapshot whose first event is not
    after [e]: the centre read back is the whole second at or before [e],
    and the clip contains [e] as soon as [afterSeconds] is at least 1 and
    [beforeSeconds] is from 0 to 2^53.  The one exception is a full
    snapshot at the timestamp of the anchor, of which the clip keeps the
    anchor. *)
Theorem X16_cut_form_keeps_event (first : event) (rest : list event)
    (e : event) (startTime eventTime : Z) (beforeSeconds afterSeconds : Q) :
  let events := first :: rest in
  let relativeSeconds := timestampToRelativeTime events (timestamp e) in
  In e events ->
  timestamp first == inject_Z startTime ->
  timestamp e == inject_Z eventTime ->
  (0 <= startTime <= eventTime)%Z -> (eventTime < 2 ^ 53)%Z ->
  0 <= beforeSeconds -> beforeSeconds <= inject_Z (2 ^ 53) ->
  1 <= afterSeconds ->
  (exists k, In k events /\ type k = 2%Z) ->
  exists cutTimestamp center out,
    formatTime relativeSeconds = Some cutTimestamp /\
    parseTimeString Number_other cutTimestamp = Some center /\
    center == inject_Z (Math_floor relativeSeconds) /\
    cutRecording href events center beforeSeconds afterSeconds = Ok out /\
    (In e out \/
     type e = 2%Z /\
     exists s, In s out /\ type s = 2%Z /\ timestamp s == timestamp e).
Proof.
  intros events rel He Hstart Hevent Hrange Hlimit Hb _ Ha (k & Hk & Hk2).
  assert (Hts : timestamp e == timestamp first + rel * 1000).
  { unfold rel, events, timestampToRelativeTime. cbv zeta. field. }
  assert (Hs0 : 0 <= inject_Z startTime)
    by (change 0 with (inject_Z 0); rewrite <- Zle_Qle; lia).
  assert (Hse : inject_Z startTime <= inject_Z eventTime)
    by (rewrite <- Zle_Qle; lia).
  assert (Hemax : inject_Z eventTime < inject_Z (2 ^ 53))
    by (rewrite <- Zlt_Qlt; lia).
  assert (Hrel0 : 0 <= rel) by lra.
  assert (Hmax : rel < inject_Z (2 ^ 53)) by lra.
  destruct (formatTime_read_back Number_other rel Hrel0 Hmax)
    as (str & center & Hfmt & Hparse & Hcenter).
  exists str, center.
  pose proof (Qfloor_le rel) as Hfl. pose proof (Qlt_floor rel) as Hfu.
  unfold Math_floor in Hcenter.
  rewrite inject_Z_plus in Hfu. change (inject_Z 1) with 1 in Hfu.
  set (cutStart := timestamp first + center * 1000 - beforeSeconds * 1000).
  pose proof (closestFullSnapshot_inv events cutStart) as Hinv.
  destruct (closestFullSnapshot events cutStart) as [[s d]|] eqn:Hsel.
  2:{ exfalso. exact (Hinv k Hk Hk2). }
  cbn [closest_inv] in Hinv. destruct Hinv as (_ & _ & _ & Hs2 & _).
  destruct (cutRecording_members href first rest center beforeSeconds
              afterSeconds s d Hsel) as (out & Hout & Hmem).
  exists out. split; [assumption|]. split; [assumption|].
  split; [assumption|]. split; [assumption|].
  assert (Hkept : ~ (timestamp e == timestamp s /\ type e = 2%Z) ->
            In e out).
  { intros Hn. apply Hmem. right. left.
    split; [assumption|]. fold cutStart.
    split; [apply Q.min_le_iff; right; unfold cutStart; lra|].
    split; [lra|assumption]. }
  destruct (num_eq (timestamp e) (timestamp s)) eqn:Ets.
  - apply num_eq_iff in Ets.
    destruct (Z.eq_dec (type e) 2) as [Et|Et].
    + right. split; [assumption|]. exists s.
      split; [apply Hmem; now left|]. split; [assumption|].
      now symmetry.
    + left. apply Hkept. tauto.
  - apply num_eq_false_iff in Ets. left. apply Hkept. tauto.
Qed.

End CutForm.

(** ** The handles of the trimmer *)



Section SaveTrim.

Variable href : string.
Variable replay_and_snapshot : list event -> Q -> result value.


End SaveTrim.

(** * The markers of the timeline *)

Lemma rangeKey_eqb_eq a b : App.rangeKey_eqb a b = true <-> a = b.
Proof.
  destruct a, b; simpl; try (split; [discriminate|congruence]);
    try (split; reflexivity).
  rewrite Z.eqb_eq. split; congruence.
Qed.

Section MarkersProperties.

Variable typeInfo : Type.
Variable getEventTypeInfo : event -> typeInfo.

Local Abbreviation marker := (App.marker typeInfo).
Local Abbreviation ranges := (list (App.rangeKey * list marker)).

Lemma push_in_range_perm k (m : marker) (r : ranges) :
  Permutation (List.concat (map snd (App.push_in_range typeInfo k m r)))
              (m :: List.concat (map snd r)).
Proof.
  induction r as [|[k' ms] r IH]; simpl; [reflexivity|].
  destruct (App.rangeKey_eqb k k'); simpl.
  - rewrite <- app_assoc. simpl.
    symmetry. apply Permutation_middle.
  - rewrite IH. symmetry. apply Permutation_middle.
Qed.

Lemma push_in_range_keys k (m : marker) (r : ranges) k' :
  In k' (map fst (App.push_in_range typeInfo k m r)) <->
  k' = k \/ In k' (map fst r).
Proof.
  induction r as [|[k0 ms] r IH]; simpl.
  - intuition congruence.
  - destruct (App.rangeKey_eqb k k0) eqn:E; simpl.
    + apply rangeKey_eqb_eq in E. subst k0. intuition congruence.
    + rewrite IH. intuition congruence.
Qed.

Lemma push_in_range_inv k (m : marker) (r : ranges) :
  App.marker_range typeInfo m = k -> App.count typeInfo m = None ->
  App.ranges_inv typeInfo r ->
  App.ranges_inv typeInfo (App.push_in_range typeInfo k m r).
Proof.
  intros Hk Hc [Hnd Hall]. subst k. split.
  - induction r as [|[k0 ms] r IH]; simpl.
    + constructor; [intros []|constructor].
    + inversion Hnd as [|? ? Hk0 Hr]; subst.
      inversion Hall as [|? ? _ Hall']; subst.
      destruct (App.rangeKey_eqb (App.marker_range typeInfo m) k0) eqn:E;
        simpl; [now constructor|].
      constructor; [|now apply IH].
      intros Hin. apply push_in_range_keys in Hin.
      destruct Hin as [->|Hin]; [|contradiction].
      assert (App.rangeKey_eqb (App.marker_range typeInfo m)
                (App.marker_range typeInfo m) = true)
        by now apply rangeKey_eqb_eq.
      congruence.
  - clear Hnd. induction r as [|[k0 ms] r IH]; simpl.
    + constructor; [|constructor]. simpl.
      split; [discriminate|]. constructor; [|constructor]. now split.
    + inversion Hall as [|? ? [Hne Hms] Hall']; subst. simpl in *.
      destruct (App.rangeKey_eqb _ k0) eqn:E; simpl.
      * apply rangeKey_eqb_eq in E. subst k0.
        constructor; [|assumption]. simpl. split.
        -- destruct ms; discriminate.
        -- apply Forall_app. split; [assumption|].
           constructor; [|constructor]. now split.
      * constructor; [now split|]. now apply IH.
Qed.

(** The markers of a list of ranges: one per range, of that range, and
    together of the size of all the ranges. *)
Lemma markerOf_ranges (r : ranges) :
  App.ranges_inv typeInfo r ->
  map (App.marker_range typeInfo)
      (flat_map (fun x => App.markerOf typeInfo (snd x)) r)
  = map fst r /\
  list_sum (map (App.marker_size typeInfo)
              (flat_map (fun x => App.markerOf typeInfo (snd x)) r))
  = List.length (List.concat (map snd r)) /\
  forall m,
    In m (flat_map (fun x => App.markerOf typeInfo (snd x)) r) ->
    exists m0,
      In m0 (List.concat (map snd r)) /\
      App.marker_event typeInfo m = App.marker_event typeInfo m0 /\
      App.relativeTime typeInfo m = App.relativeTime typeInfo m0 /\
      App.percentage typeInfo m = App.percentage typeInfo m0.
Proof.
  intros [_ Hall]. induction r as [|[k ms] r IH]; simpl.
  - split; [reflexivity|]. split; [reflexivity|]. intros m [].
  - inversion Hall as [|? ? [Hne Hms] Hall']; subst. simpl in *.
    destruct (IH Hall') as (IH1 & IH2 & IH3).
    destruct ms as [|m1 [|m2 ms]]; [congruence| |].
    + inversion Hms as [|? ? [Hr Hc] _]; subst. simpl.
      split; [now rewrite IH1|]. split.
      * rewrite IH2. unfold App.marker_size. now rewrite Hc.
      * intros m [<-|Hm]; [exists m1; split; [now left|auto]|].
        destruct (IH3 m Hm) as (m0 & Hm0 & Heq).
        exists m0. split; [now right|assumption].
    + inversion Hms as [|? ? [Hr Hc] _]; subst.
      cbn [App.markerOf flat_map app map].
      split; [now rewrite IH1|]. split.
      * match goal with
        | |- list_sum (?x :: ?l) = _ =>
            change (list_sum (x :: l)) with (x + list_sum l)%nat
        end.
        rewrite IH2. unfold App.marker_size. cbn [App.count].
        simpl. rewrite !length_app. simpl. lia.
      * intros m [<-|Hm].
        -- exists m1. split; [now left|]. cbn. auto.
        -- destruct (IH3 m Hm) as (m0 & Hm0 & Heq).
           exists m0. split; [|assumption].
           change (In m0 ((m1 :: m2 :: ms) ++ List.concat (map snd r))).
           apply in_or_app. now right.
Qed.

Lemma insert_entry_perm (x : App.rangeKey * list marker) (l : ranges) :
  Permutation (App.insert_entry typeInfo x l) (x :: l).
Proof.
  induction l as [|y l IH]; simpl; [reflexivity|].
  destruct (App.key_le (fst x) (fst y)); [reflexivity|].
  rewrite IH. apply perm_swap.
Qed.

Lemma filter_partition_perm {A : Type} (p : A -> bool) (l : list A) :
  Permutation (filter p l ++ filter (fun x => negb (p x)) l) l.
Proof.
  induction l as [|x l IH]; simpl; [reflexivity|].
  destruct (p x); simpl.
  - now constructor.
  - rewrite <- Permutation_middle. now constructor.
Qed.

Lemma Object_entries_perm (r : ranges) :
  Permutation (App.Object_entries typeInfo r) r.
Proof.
  unfold App.Object_entries.
  rewrite <- (filter_partition_perm (fun x => App.is_index (fst x)) r) at 3.
  apply Permutation_app_tail.
  induction (filter _ r) as [|x l IH]; simpl; [reflexivity|].
  rewrite insert_entry_perm. now constructor.
Qed.

Lemma insert_marker_perm (x : marker) l :
  Permutation (App.insert_marker typeInfo x l) (x :: l).
Proof.
  induction l as [|y l IH]; simpl; [reflexivity|].
  destruct (num_le _ _); [reflexivity|].
  rewrite IH. apply perm_swap.
Qed.

Lemma sort_markers_perm (l : list marker) :
  Permutation (App.sort_markers typeInfo l) l.
Proof.
  unfold App.sort_markers.
  induction l as [|x l IH]; simpl; [reflexivity|].
  rewrite insert_marker_perm. now constructor.
Qed.

Lemma insert_marker_sorted (x : marker) l :
  Sorted (App.marker_le typeInfo) l ->
  Sorted (App.marker_le typeInfo) (App.insert_marker typeInfo x l).
Proof.
  induction l as [|y l IH]; simpl; intros Hs.
  - constructor; constructor.
  - destruct (num_le _ _) eqn:E.
    + apply num_le_iff in E. constructor; [assumption|]. now constructor.
    + apply num_le_false_iff in E.
      inversion Hs as [|? ? Hl Hy]; subst.
      constructor; [now apply IH|].
      destruct l as [|z l]; simpl.
      * constructor. unfold App.marker_le. lra.
      * destruct (num_le _ (timestamp (App.marker_event typeInfo z)));
          constructor; [unfold App.marker_le; lra|].
        now inversion Hy.
Qed.

Lemma sort_markers_sorted (l : list marker) :
  Sorted (App.marker_le typeInfo) (App.sort_markers typeInfo l).
Proof.
  unfold App.sort_markers.
  induction l as [|x l IH]; simpl; [constructor|].
  now apply insert_marker_sorted.
Qed.

(** The object [eventsByTimeRange] after the loop, and the markers that
    are made of it. *)
Lemma processEventMarkers_ranges (events : list event)
    (stats : RecordingStats) :
  let mk e :=
    App.mkMarker typeInfo e (timestamp e - startTime stats)
      (App.percentageOf (timestamp e - startTime stats) (duration stats))
      (getEventTypeInfo e) None false in
  exists r : ranges,
    App.ranges_inv typeInfo r /\
    Permutation (List.concat (map snd r))
                (map mk (filter App.isSignificant events)) /\
    App.processEventMarkers typeInfo getEventTypeInfo
      (Some events) (Some stats)
    = App.sort_markers typeInfo
        (flat_map (fun x => App.markerOf typeInfo (snd x))
           (App.Object_entries typeInfo r)).
Proof.
  intros mk. unfold App.processEventMarkers. cbv zeta.
  set (step := fun (rs : ranges) (e : event) =>
                 App.push_in_range typeInfo _ _ rs).
  assert (Hfold : forall l r0 l0,
            App.ranges_inv typeInfo r0 ->
            Permutation (List.concat (map snd r0)) (map mk l0) ->
            App.ranges_inv typeInfo (fold_left step l r0) /\
            Permutation (List.concat (map snd (fold_left step l r0)))
                        (map mk (l0 ++ l))).
  { induction l as [|e l IH]; intros r0 l0 Hinv Hperm; cbn [fold_left].
    - rewrite app_nil_r. now split.
    - replace (l0 ++ e :: l) with ((l0 ++ [e]) ++ l)
        by (rewrite <- app_assoc; reflexivity).
      apply IH.
      + unfold step. apply push_in_range_inv; [reflexivity|reflexivity|
          assumption].
      + unfold step. rewrite push_in_range_perm, map_app. simpl.
        rewrite Hperm. apply Permutation_cons_append. }
  destruct (Hfold (filter App.isSignificant events) [] [])
    as [Hinv Hperm].
  { split; constructor. }
  { reflexivity. }
  eexists. split; [exact Hinv|]. split; [exact Hperm|reflexivity].
Qed.

(** The markers are made of significant events of the log, one marker
    per range. *)
Lemma processEventMarkers_members (events : list event)
    (stats : RecordingStats) :
  let markers :=
    App.processEventMarkers typeInfo getEventTypeInfo
      (Some events) (Some stats) in
  (forall m, In m markers ->
     In (App.marker_event typeInfo m) events /\
     App.isSignificant (App.marker_event typeInfo m) = true /\
     App.relativeTime typeInfo m
     = timestamp (App.marker_event typeInfo m) - startTime stats /\
     App.percentage typeInfo m
     = App.percentageOf
         (timestamp (App.marker_event typeInfo m) - startTime stats)
         (duration stats)) /\
  NoDup (map (App.marker_range typeInfo) markers).
Proof.
  intros markers.
  destruct (processEventMarkers_ranges events stats)
    as (r & Hinv & Hperm & Heq).
  cbv zeta in Hperm.
  assert (Hm : Permutation markers
                 (flat_map (fun x => App.markerOf typeInfo (snd x)) r)).
  { unfold markers. rewrite Heq, sort_markers_perm.
    apply Permutation_flat_map. apply Object_entries_perm. }
  destruct (markerOf_ranges r Hinv) as (Hkeys & _ & Hfrom).
  split.
  - intros m Hin. apply (Permutation_in _ Hm) in Hin.
    destruct (Hfrom m Hin) as (m0 & Hm0 & He & Hr & Hp).
    apply (Permutation_in _ Hperm) in Hm0.
    apply in_map_iff in Hm0. destruct Hm0 as (e & <- & Hsig).
    apply filter_In in Hsig. destruct Hsig as [Hev Hsig].
    rewrite He, Hr, Hp. cbn. auto.
  - apply (Permutation_NoDup
             (Permutation_sym
                (Permutation_map (App.marker_range typeInfo) Hm))).
    rewrite Hkeys. apply Hinv.
Qed.

(** X19.  The markers of the timeline.  The markers that
    [processEventMarkers] returns stand for the significant events of
    the log (full snapshots, Meta events, and the mouse interactions,
    scrolls and viewport resizes among the incremental snapshots), one
    marker per hundredth of the timeline: every marker is made of a
    significant event of the log, no two markers lie in the same range,
    every significant event has the marker of its range, and the sizes
    of the markers add up to the number of significant events. *)
Theorem X19_markers_partition (events : list event)
    (stats : RecordingStats) :
  let markers :=
    App.processEventMarkers typeInfo getEventTypeInfo
      (Some events) (Some stats) in
  let rangeOf e :=
    App.timeRangeOf
      (App.percentageOf (timestamp e - startTime stats) (duration stats)) in
  (forall m, In m markers ->
     exists e,
       In e events /\ App.isSignificant e = true /\
       App.marker_event typeInfo m = e /\
       App.relativeTime typeInfo m = timestamp e - startTime stats /\
       App.marker_range typeInfo m = rangeOf e) /\
  NoDup (map (App.marker_range typeInfo) markers) /\
  (forall e, In e events -> App.isSignificant e = true ->
     exists m, In m markers /\ App.marker_range typeInfo m = rangeOf e) /\
  list_sum (map (App.marker_size typeInfo) markers)
  = List.length (filter App.isSignificant events).
Proof.
  intros markers rangeOf.
  destruct (processEventMarkers_members events stats) as [Hmem Hnd].
  fold markers in Hmem, Hnd.
  destruct (processEventMarkers_ranges events stats)
    as (r & Hinv & Hperm & Heq).
  cbv zeta in Hperm.
  assert (Hm : Permutation markers
                 (flat_map (fun x => App.markerOf typeInfo (snd x)) r)).
  { unfold markers. rewrite Heq, sort_markers_perm.
    apply Permutation_flat_map. apply Object_entries_perm. }
  destruct (markerOf_ranges r Hinv) as (Hkeys & Hsum & _).
  split; [|split; [assumption|split]].
  - intros m Hin. destruct (Hmem m Hin) as (He & Hs & Hr & Hp).
    exists (App.marker_event typeInfo m).
    split; [assumption|]. split; [assumption|]. split; [reflexivity|].
    split; [assumption|]. unfold App.marker_range, rangeOf. now rewrite Hp.
  - intros e He Hs.
    set (me := App.mkMarker typeInfo e (timestamp e - startTime stats)
                 (App.percentageOf (timestamp e - startTime stats)
                    (duration stats))
                 (getEventTypeInfo e) None false).
    assert (Hin : In me (List.concat (map snd r))).
    { apply (Permutation_in _ (Permutation_sym Hperm)).
      apply in_map_iff. exists e. split; [reflexivity|].
      apply filter_In. now split. }
    apply in_concat in Hin. destruct Hin as (g & Hg & Hme).
    apply in_map_iff in Hg. destruct Hg as ([k g'] & <- & Hkg).
    destruct Hinv as [_ Hall]. rewrite Forall_forall in Hall.
    destruct (Hall _ Hkg) as [_ Hgs]. rewrite Forall_forall in Hgs.
    destruct (Hgs me Hme) as [Hk _]. simpl in Hk.
    assert (Hkin : In k (map (App.marker_range typeInfo)
                     (flat_map (fun x => App.markerOf typeInfo (snd x)) r))).
    { rewrite Hkeys. apply in_map_iff. exists (k, g'). now split. }
    apply in_map_iff in Hkin. destruct Hkin as (m & Hmk & Hmin).
    exists m. split.
    + apply (Permutation_in _ (Permutation_sym Hm)). assumption.
    + rewrite Hmk, <- Hk. reflexivity.
  - rewrite (Permutation_list_sum
               (Permutation_map (App.marker_size typeInfo) Hm)).
    rewrite Hsum, (Permutation_length Hperm). apply length_map.
Qed.

(** X20.  The markers along the timeline.  The markers are returned in
    the order of their timestamps; and for a log in timestamp order with
    the statistics of analyzeRecording and a positive duration, every
    marker lies in one of the ranges 0 to 100, so that there are at
    most 101 markers however long the log is. *)
Theorem X20_markers_bounded (events : list event) (stats : RecordingStats) :
  let markers :=
    App.processEventMarkers typeInfo getEventTypeInfo
      (Some events) (Some stats) in
  Sorted (App.marker_le typeInfo) markers /\
  (nondecreasing events -> analyzeRecording events = Some stats ->
   0 < duration stats ->
   (forall m, In m markers ->
      exists z, App.marker_range typeInfo m = App.KInt z /\
                (0 <= z <= 100)%Z) /\
   (List.length markers <= 101)%nat).
Proof.
  intros markers. split.
  - unfold markers.
    destruct (processEventMarkers_ranges events stats)
      as (r & _ & _ & ->).
    apply sort_markers_sorted.
  - intros Hsorted Hstats Hpos.
    destruct (processEventMarkers_members events stats) as [Hmem Hnd].
    fold markers in Hmem, Hnd.
    destruct events as [|first rest]; [discriminate|].
    apply analyzeRecording_cons in Hstats.
    assert (Hstart : startTime stats = timestamp first)
      by (rewrite Hstats; reflexivity).
    assert (Hdur : duration stats
                   = (timestamp (last (first :: rest) first)
                      - timestamp first) / 1000)
      by (rewrite Hstats; reflexivity).
    clear Hstats.
    pose proof (nondecreasing_last first rest Hsorted) as Hlast.
    pose proof (nondecreasing_first first rest Hsorted) as Hfirst.
    set (lastTs := timestamp (last (first :: rest) first)) in *.
    assert (Hrange : forall m, In m markers ->
              exists z, App.marker_range typeInfo m = App.KInt z /\
                        (0 <= z <= 100)%Z).
    { intros m Hin. destruct (Hmem m Hin) as (He & _ & _ & Hp).
      specialize (Hlast _ He). specialize (Hfirst _ He).
      set (t := timestamp (App.marker_event typeInfo m)) in *.
      unfold App.marker_range. rewrite Hp, Hstart.
      unfold App.percentageOf. cbv zeta.
      assert (Htotal : duration stats * 1000 == lastTs - timestamp first)
        by (rewrite Hdur; field).
      assert (Htpos : 0 < duration stats * 1000) by lra.
      replace (num_eq (duration stats * 1000) 0) with false
        by (symmetry; apply num_eq_false_iff; lra).
      cbn [App.timeRangeOf]. eexists. split; [reflexivity|].
      set (q := (t - timestamp first) / (duration stats * 1000)).
      assert (Hq0 : 0 <= q) by (apply Qle_shift_div_l; lra).
      assert (Hq1 : q <= 1) by (apply Qle_shift_div_r; lra).
      split.
      - apply Qfloor_nonneg. lra.
      - assert (H100 : q * 100 <= inject_Z 100)
          by (change (inject_Z 100) with 100; lra).
        apply Qfloor_resp_le in H100. now rewrite Qfloor_Z in H100. }
    split; [assumption|].
    rewrite <- (length_map (App.marker_range typeInfo)).
    replace 101%nat
      with (List.length (map (fun n => App.KInt (Z.of_nat n)) (seq 0 101)))
      by (rewrite length_map, length_seq; reflexivity).
    apply NoDup_incl_length; [assumption|].
    intros k Hk. apply in_map_iff in Hk. destruct Hk as (m & <- & Hin).
    destruct (Hrange m Hin) as (z & -> & Hz).
    apply in_map_iff. exists (Z.to_nat z).
    split; [f_equal; lia|]. apply in_seq. lia.
Qed.

End MarkersProperties.

(** ** On sample inputs *)

(** X1 on 3725 seconds, printed as 1:02:05. *)
Lemma X1_witness :
  (exists str q,
     formatTime 3725 = Some str /\
     parseTimeString (fun _ => None) str = Some q /\
     q == inject_Z (Math_floor 3725)) /\
  formatTime 3725 = formatTime (inject_Z (Math_floor 3725)).
Proof.
  apply (X1_formatTime_parseTimeString (fun _ => None) 3725).
  - lra.
  - reflexivity.
Defined.

(** X2 on the text 1.5. *)
Lemma X2_witness : parseTimeString (fun _ => None) "1.5" = Some 0.
Proof.
  apply (X2_parseTimeString_unreadable (fun _ => None) "1.5").
  - reflexivity.
  - simpl. discriminate.
  - simpl. discriminate.
Defined.

(** X3 on the scenario: the clip around second 10 holds its anchor and the
    filler. *)
Lemma X3_witness :
  exists out s,
    cutRecording "about:blank" recording_scenario 10 2 2 = Ok out /\
    In s recording_scenario /\ type s = 2%Z /\
    forall e,
      In e out <->
      e = s \/
      cut_keeps recording_scenario s
        (Qmin (timestamp s) (1000 + 10 * 1000 - 2 * 1000))
        (1000 + 10 * 1000 + 2 * 1000) e \/
      (e = mkEvent 4 (VObj [("href", VStr "about:blank")])
             (timestamp s + 100) None /\
       forall k,
         ~ cut_keeps recording_scenario s
             (Qmin (timestamp s) (1000 + 10 * 1000 - 2 * 1000))
             (1000 + 10 * 1000 + 2 * 1000) k).
Proof.
  exists [fullSnapshotAt 11000;
          mkEvent 4 (VObj [("href", VStr "about:blank")]) 11100 None].
  destruct (X3_cutRecording_members "about:blank" (fullSnapshotAt 1000)
              [mouseMoveAt 5000; fullSnapshotAt 11000; mouseMoveAt 21000]
              10 2 2 _ eq_refl)
    as (s & Hs & Ht & Hmem).
  exists s. split; [reflexivity|]. split; [exact Hs|].
  split; [exact Ht|exact Hmem].
Defined.

(** X4 on the scenario: the clip around the mouse move at 5000, cut two
    seconds either way from its relative time. *)
Lemma X4_witness :
  exists out,
    cutRecording "about:blank" recording_scenario
      (timestampToRelativeTime recording_scenario 5000) 2 2 = Ok out /\
    In (mouseMoveAt 5000) out.
Proof.
  destruct (X4_clip_around_event "about:blank" (fullSnapshotAt 1000)
              [mouseMoveAt 5000; fullSnapshotAt 11000; mouseMoveAt 21000]
              (mouseMoveAt 5000)
              (timestampToRelativeTime recording_scenario 5000) 2 2)
    as (out & Hout & Hin).
  - simpl. tauto.
  - reflexivity.
  - reflexivity.
  - vm_compute. discriminate.
  - lra.
  - vm_compute. discriminate.
  - lra.
  - exists (fullSnapshotAt 1000). split; [simpl; tauto|reflexivity].
  - exists out. split; [exact Hout|].
    destruct Hin as [Hin|[Ht _]]; [exact Hin|discriminate].
Defined.

(** X5 on the scenario: a cut that starts after both snapshots starts with
    the one at 11000. *)
Lemma X5_witness :
  exists s tl,
    cutRecording "about:blank" recording_scenario 15 2 2 = Ok (s :: tl) /\
    type s = 2%Z /\ timestamp s == 11000.
Proof.
  destruct (X5_clip_starts_with_snapshot "about:blank" (fullSnapshotAt 1000)
              [mouseMoveAt 5000; fullSnapshotAt 11000; mouseMoveAt 21000]
              15 2 2 _ eq_refl)
    as (s & tl & Hout & Hin & Ht & Hlast).
  - intros k Hk Hk2. simpl in Hk.
    destruct Hk as [<-|[<-|[<-|[<-|[]]]]]; simpl; try discriminate; lra.
  - exists s, tl. split; [now rewrite <- Hout|]. split; [exact Ht|].
    pose proof (Hlast (fullSnapshotAt 11000)
                  ltac:(simpl; tauto) eq_refl) as Hge.
    simpl in Hin. destruct Hin as [<-|[<-|[<-|[<-|[]]]]];
      try discriminate; simpl in *; lra.
Defined.

(** X6 on the scenario: from 2 to 10 seconds after the centre. *)
Lemma X6_witness :
  exists out out' s,
    cutRecording "about:blank" recording_scenario 10 2 2 = Ok out /\
    cutRecording "about:blank" recording_scenario 10 2 10 = Ok out' /\
    type s = 2%Z /\ In s out /\ In s out' /\
    forall e,
      In e out ->
      In e out' \/
      e = mkEvent 4 (VObj [("href", VStr "about:blank")])
            (timestamp s + 100) None.
Proof.
  do 2 eexists.
  destruct (X6_cut_widening "about:blank" (fullSnapshotAt 1000)
              [mouseMoveAt 5000; fullSnapshotAt 11000; mouseMoveAt 21000]
              10 2 2 10 _ _ ltac:(lra) eq_refl eq_refl)
    as (s & Hs).
  exists s. split; [reflexivity|]. split; [reflexivity|]. exact Hs.
Defined.

(** X7 on the scenario: two full snapshots, no Meta event, four events. *)
Lemma X7_witness :
  exists stats,
    analyzeRecording recording_scenario = Some stats /\
    count_of 2 (eventTypeCounts stats) = Some 2%nat /\
    count_of 4 (eventTypeCounts stats) = None /\
    list_sum (map snd (eventTypeCounts stats)) = 4%nat.
Proof.
  eexists. split; [reflexivity|].
  destruct (X7_analyzeRecording_tally recording_scenario _ eq_refl)
    as (Hc & _ & Hs & _).
  split; [exact (Hc 2%Z)|]. split; [exact (Hc 4%Z)|exact Hs].
Defined.

(** X8 on the scenario: the mouse move at 5000. *)
Lemma X8_witness :
  exists stats,
    analyzeRecording recording_scenario = Some stats /\
    0 <= timestampToRelativeTime recording_scenario 5000 /\
    timestampToRelativeTime recording_scenario 5000 <= duration stats.
Proof.
  eexists. split; [reflexivity|].
  destruct (X8_relative_time_in_duration recording_scenario _
              recording_scenario_sorted eq_refl) as (_ & _ & H & _).
  apply (H (mouseMoveAt 5000)). simpl. tauto.
Defined.

(** X9 on the scenario: a term and a longer one in capitals. *)
Lemma X9_witness :
  findEventsByContent sample_stringify
    (findEventsByContent sample_stringify recording_scenario "type")
    "{TYPE:2}"
  = findEventsByContent sample_stringify recording_scenario "{TYPE:2}".
Proof.
  apply (X9_search_in_results sample_stringify recording_scenario
           "type" "{TYPE:2}").
  reflexivity.
Defined.

(** X10 on the scenario: a term of blanks, and a term between blanks. *)
Lemma X10_witness :
  App.searchEvents sample_stringify (Some recording_scenario) "  " = [] /\
  App.searchEvents sample_stringify (Some recording_scenario)
    ("  " ++ "type:2" ++ " ")
  = App.searchEvents sample_stringify (Some recording_scenario) "type:2".
Proof.
  apply (X10_searchEvents_blanks sample_stringify (Some recording_scenario)
           "  " "type:2" " "); reflexivity.
Defined.

(** X11 on a log of two mouse moves. *)
Lemma X11_witness :
  (NoFullSnapshot = NoFullSnapshot /\
   forall k, In k [mouseMoveAt 0; mouseMoveAt 10] -> type k <> 2%Z) \/
  (NoFullSnapshot = NotFinite /\
   exists base,
     In base [mouseMoveAt 0; mouseMoveAt 10] /\ type base = 2%Z /\
     timestamp base == 0).
Proof.
  apply (proj2 (X11_fallback_errors [mouseMoveAt 0; mouseMoveAt 10] 0 10)
           NoFullSnapshot).
  reflexivity.
Defined.

(** X12 on [recording_pre_trim]: the mouse move at 2000 is kept at 1060. *)
Lemma X12_witness :
  exists rest,
    trimRecordingFallback recording_pre_trim 1040 2000
    = Ok (with_timestamp (fullSnapshotAt 1000) (1000 - 1040 + 100) :: rest) /\
    (forall b, In b rest -> type b <> 2%Z) /\
    In (with_timestamp (mouseMoveAt 2000) (2000 - 1040 + 100)) rest.
Proof.
  destruct (X12_fallback_keeps_range recording_pre_trim 1040 2000
              (fullSnapshotAt 1000) 0 recording_pre_trim_sorted eq_refl)
    as (rest & Hout & Hno & Hkeep).
  exists rest. split; [exact Hout|]. split; [exact Hno|].
  apply (Hkeep (mouseMoveAt 2000)).
  - simpl. tauto.
  - discriminate.
  - simpl. lra.
  - simpl. lra.
Defined.

(** X13 on [recording_pre_trim]: the mutation at 1010, a quarter of the way
    from the base snapshot to the start, is moved to 25. *)
Lemma X13_witness :
  exists rest t,
    trimRecordingFallback recording_pre_trim 1040 2000
    = Ok (with_timestamp (fullSnapshotAt 1000) (1000 - 1040 + 100) :: rest) /\
    In (with_timestamp (mutationAt 1010) t) rest /\ t == 25.
Proof.
  destruct (X13_fallback_compresses recording_pre_trim 1040 2000
              (fullSnapshotAt 1000) 0 (mutationAt 1010) (VNum 0)
              recording_pre_trim_sorted eq_refl)
    as (rest & t & Hout & Hin & Ht & _).
  - simpl. tauto.
  - reflexivity.
  - reflexivity.
  - reflexivity.
  - reflexivity.
  - simpl. lra.
  - exists rest, t. split; [exact Hout|]. split; [exact Hin|].
    rewrite Ht. reflexivity.
Defined.

(** X14 on [recording_pre_trim]: a trim from the snapshot at 1000, with a
    replay that fails. *)
Lemma X14_witness :
  trimRecording "about:blank" failing_replay recording_pre_trim 1000 2000
  = Ok (buildTrimmed "about:blank" recording_pre_trim
          (clampStart 1000 1000) (clampEnd 2000 2000)
          (fullSnapshotAt 1000)).
Proof.
  apply (X14_trimRecording_on_snapshot "about:blank" (fullSnapshotAt 1000)
           [mutationAt 1010; mouseMoveAt 1040; mouseMoveAt 2000]
           1000 2000 [] (fullSnapshotAt 1000)
           [mutationAt 1010; mouseMoveAt 1040; mouseMoveAt 2000]).
  - reflexivity.
  - reflexivity.
  - reflexivity.
  - reflexivity.
  - intros e [].
Defined.

(** X15 on [recording_pre_trim]: a trim from 1040, with a replay that
    captures a document. *)
Lemma X15_witness :
  exists metaEvent tl,
    trimRecording "about:blank" working_replay recording_pre_trim 1040 2000
    = Ok (metaEvent
            :: mkEvent 2
                 (VObj [("node",
                         VObj [("type", VNum 0); ("childNodes", VArr [])]);
                        ("initialOffset",
                         VObj [("left", VNum 0); ("top", VNum 0)])])
                 1 None
            :: tl) /\
    type metaEvent = 4%Z /\ tabId metaEvent = None.
Proof.
  apply (X15_reconstructed_snapshot "about:blank" working_replay
           (fullSnapshotAt 1000)
           [mutationAt 1010; mouseMoveAt 1040; mouseMoveAt 2000]
           1040 2000
           (VObj [("type", VNum 0); ("childNodes", VArr [])])).
  - reflexivity.
  - reflexivity.
  - reflexivity.
  - reflexivity.
Defined.

(** X16 on the scenario: the mouse move at 5000, four seconds in. *)
Lemma X16_witness :
  exists cutTimestamp center out,
    formatTime (timestampToRelativeTime recording_scenario 5000)
    = Some cutTimestamp /\
    parseTimeString (fun _ => None) cutTimestamp = Some center /\
    cutRecording "about:blank" recording_scenario center 2 2 = Ok out /\
    In (mouseMoveAt 5000) out.
Proof.
  destruct (X16_cut_form_keeps_event "about:blank" (fun _ => None)
              (fullSnapshotAt 1000)
              [mouseMoveAt 5000; fullSnapshotAt 11000; mouseMoveAt 21000]
              (mouseMoveAt 5000) 1000 5000 2 2)
    as (str & center & out & Hfmt & Hparse & _ & Hcut & Hin).
  - simpl. tauto.
  - reflexivity.
  - reflexivity.
  - lia.
  - lia.
  - lra.
  - vm_compute. discriminate.
  - lra.
  - exists (fullSnapshotAt 1000). split; [simpl; tauto|reflexivity].
  - exists str, center, out. split; [exact Hfmt|]. split; [exact Hparse|].
    split; [exact Hcut|].
    destruct Hin as [Hin|[Ht _]]; [exact Hin|discriminate].
Defined.



(** X20 on the scenario. *)
Lemma X20_witness :
  (forall m,
     In m (App.processEventMarkers string (fun _ => "FullSnapshot")
             (Some recording_scenario)
             (analyzeRecording recording_scenario)) ->
     exists z, App.marker_range string m = App.KInt z /\ (0 <= z <= 100)%Z) /\
  (List.length
     (App.processEventMarkers string (fun _ => "FullSnapshot")
        (Some recording_scenario) (analyzeRecording recording_scenario))
   <= 101)%nat.
Proof.
  apply (proj2 (X20_markers_bounded string (fun _ => "FullSnapshot")
                  recording_scenario
                  (mkStats 4 ((21000 - 1000) / 1000) 1000 21000
                     [(2%Z, 2%nat); (3%Z, 2%nat)] eventTypeNames))).
  - apply recording_scenario_sorted.
  - reflexivity.
  - reflexivity.
Defined.
